(** * bot-verdinha: the transactional job queues and the crawl engine

  A shallow embedding of
  - [shared/queue_store.py]    (module [QueueStore]: the upload queue),
  - [shared/download_store.py] (module [DownloadStore]: the download queue),
  - [download/app.py]          ([normalize_url], [download_with_retry],
                                the chapter classification and the part of
                                [run_download_bot] that hands a finished
                                work over to the upload queue).

  Conventions.  A SQLite table is the list of its rows in rowid order; a
  nullable column is an [option]; [int(time.time())] is an explicit
  argument of every operation; every operation runs in one transaction
  ([BEGIN IMMEDIATE] or a single statement), so an operation is a function
  from table to table. *)

From Stdlib Require Import ZArith List String Ascii Bool Lia.
From Stdlib Require Import Numbers.DecimalString Sorting.Sorted.
From Stdlib Require Numbers.DecimalZ.
Import ListNotations.

Local Open Scope Z_scope.

(** ** SQL helpers shared by the two stores *)

Section Sql.
Context {Row : Type}.

(** [UPDATE t SET ... WHERE p]: every row satisfying [p] is rewritten. *)
Definition update_where (p : Row -> bool) (f : Row -> Row) (t : list Row) : list Row :=
  map (fun r => if p r then f r else r) t.

(** [SELECT ... WHERE p ... fetchone()] without an ORDER BY. *)
Definition select_one (p : Row -> bool) (t : list Row) : option Row :=
  find p t.

(** [ORDER BY key ASC LIMIT 1]: the first row, in rowid order, whose key is
    minimal. *)
Fixpoint first_min (key : Row -> Z) (t : list Row) : option Row :=
  match t with
  | [] => None
  | r :: t' =>
      match first_min key t' with
      | None => Some r
      | Some m => if key r <=? key m then Some r else Some m
      end
  end.

End Sql.

(** Decimal rendering of an integer, as an f-string does. *)
Definition str_of_Z (z : Z) : string := NilZero.string_of_int (Z.to_int z).

Definition newline : string := String (ascii_of_nat 10) EmptyString.

(** The SQL condition [col IS NULL OR p(col)] on a nullable integer column. *)
Definition null_or (p : Z -> bool) (o : option Z) : bool :=
  match o with None => true | Some v => p v end.

(** ** [shared/queue_store.py] *)

Module QueueStore.

(** A row of table [jobs] (and the dataclass [Job]); [payload_json] is the
    serialised payload. *)
Record Job := mkJob {
  id : string;
  obra_nome : string;
  pasta : string;
  payload_json : string;
  status : string;
  tries : Z;
  last_error : option string;
  created_at : Z;
  updated_at : Z;
  available_at : option Z;
  processing_started_at : option Z;
  worker_id : option string;
  heartbeat_at : option Z
}.

Definition Table := list Job.

Definition has_id (job_id : string) (r : Job) : bool := String.eqb (id r) job_id.

(** [SELECT ... FROM jobs WHERE id=?] *)
Definition lookup (job_id : string) (t : Table) : option Job :=
  select_one (has_id job_id) t.

(** [_compute_backoff_seconds] *)
Definition _compute_backoff_seconds (tries : Z) : Z :=
  let base := 60 in
  let sec := base * 2 ^ (Z.max 0 (tries - 1)) in
  Z.min sec 3600.

(** [QueueStore.enqueue] *)
Definition enqueue (ts : Z) (job_id obra pasta_ payload : string) (t : Table) : Table :=
  match lookup job_id t with
  | Some row =>
      if String.eqb (status row) "done" then t
      else update_where (has_id job_id)
             (fun r => mkJob (id r) obra pasta_ payload "queued" (tries r) (last_error r)
                             (created_at r) ts None (processing_started_at r)
                             (worker_id r) (heartbeat_at r)) t
  | None =>
      (t ++ [mkJob job_id obra pasta_ payload "queued" 0 None ts ts None None None None])%list
  end.

(** The text appended to [last_error] by a reclaim. *)
Definition reclaim_note (now : Z) : string :=
  (newline ++ "[reclaim] processing órfão em " ++ str_of_Z now)%string.

Definition stale (cutoff : Z) (r : Job) : bool :=
  String.eqb (status r) "processing" && null_or (fun h => h <? cutoff) (heartbeat_at r).

Definition requeue_stale (now : Z) (r : Job) : Job :=
  mkJob (id r) (obra_nome r) (pasta r) (payload_json r) "queued" (tries r)
        (Some (match last_error r with Some e => e | None => EmptyString end
               ++ reclaim_note now)%string)
        (created_at r) now (Some (now + 30)) None None None.

(** [QueueStore.reclaim_stale_processing]: the stale rows are selected
    first, then one UPDATE per selected id. *)
Definition reclaim_stale_processing (now timeout_seconds : Z) (t : Table) : Z * Table :=
  let cutoff := now - timeout_seconds in
  let rows := filter (stale cutoff) t in
  fold_left
    (fun acc r => (fst acc + 1, update_where (has_id (id r)) (requeue_stale now) (snd acc)))
    rows (0, t).

Definition claimable (ts : Z) (r : Job) : bool :=
  String.eqb (status r) "queued" && null_or (fun a => a <=? ts) (available_at r).

(** [worker_id or str(uuid.uuid4())]; the fresh uuid is an input. *)
Definition wid_or (worker : option string) (uuid : string) : string :=
  match worker with
  | Some w => if String.eqb w EmptyString then uuid else w
  | None => uuid
  end.

(** [QueueStore.claim_next] *)
Definition claim_next (ts : Z) (worker : option string) (uuid : string) (t : Table)
  : option Job * Table :=
  let wid := wid_or worker uuid in
  match first_min created_at (filter (claimable ts) t) with
  | None => (None, t)
  | Some row =>
      let job_id := id row in
      let t' := update_where (has_id job_id)
                  (fun r => mkJob (id r) (obra_nome r) (pasta r) (payload_json r)
                                  "processing" (tries r) (last_error r) (created_at r)
                                  ts (available_at r) (Some ts) (Some wid) (Some ts)) t in
      (lookup job_id t', t')
  end.

(** [QueueStore.heartbeat] *)
Definition heartbeat (ts : Z) (job_id wid : string) (t : Table) : Table :=
  update_where
    (fun r => has_id job_id r
              && match worker_id r with Some w => String.eqb w wid | None => false end
              && String.eqb (status r) "processing")
    (fun r => mkJob (id r) (obra_nome r) (pasta r) (payload_json r) (status r) (tries r)
                    (last_error r) (created_at r) ts (available_at r)
                    (processing_started_at r) (worker_id r) (Some ts)) t.

(** [QueueStore.mark_done] *)
Definition mark_done (ts : Z) (job_id : string) (t : Table) : Table :=
  update_where (has_id job_id)
    (fun r => mkJob (id r) (obra_nome r) (pasta r) (payload_json r) "done" (tries r)
                    (last_error r) (created_at r) ts (available_at r) None None None) t.

(** [QueueStore.mark_failed]; returns [(tries, status)] and the new table. *)
Definition mark_failed (ts : Z) (job_id error : string) (requeue : bool) (max_tries : Z)
    (t : Table) : (Z * string) * Table :=
  let tries' := (match lookup job_id t with Some row => tries row | None => 0 end) + 1 in
  let '(status', available') :=
    if requeue && (tries' <? max_tries)
    then ("queued"%string, Some (ts + _compute_backoff_seconds tries'))
    else ("failed"%string, None) in
  ((tries', status'),
   update_where (has_id job_id)
     (fun r => mkJob (id r) (obra_nome r) (pasta r) (payload_json r) status' tries'
                     (Some error) (created_at r) ts available' None None None) t).

End QueueStore.

(** ** [shared/download_store.py] *)

Module DownloadStore.

(** A row of table [download_jobs] (and the dataclass [DownloadJob]); every
    column is NOT NULL, with [0] and the empty string as defaults. *)
Record DownloadJob := mkJob {
  id : Z;
  job_id : string;
  url : string;
  nome : string;
  pasta : string;
  expected_total : Z;
  batch_size : Z;
  status : string;
  tries : Z;
  available_at : Z;
  last_error : string;
  result_json : string;
  summary_json : string;
  worker_id : string;
  processing_started_at : Z;
  heartbeat_at : Z;
  chapter : Z;
  progress : Z;
  total_images : Z;
  state : string;
  created_at : Z;
  updated_at : Z
}.

Definition Table := list DownloadJob.

Definition has_job_id (jid : string) (r : DownloadJob) : bool := String.eqb (job_id r) jid.

(** [get_job_by_job_id] *)
Definition get_job_by_job_id (jid : string) (t : Table) : option DownloadJob :=
  select_one (has_job_id jid) t.

(** [INTEGER PRIMARY KEY AUTOINCREMENT]: one more than the largest rowid. *)
Definition next_rowid (t : Table) : Z :=
  1 + fold_right (fun r m => Z.max (id r) m) 0 t.

(** [status IN ('downloading','validating')] *)
Definition active (r : DownloadJob) : bool :=
  String.eqb (status r) "downloading" || String.eqb (status r) "validating".

(** [job_id or str(uuid.uuid4())]; the fresh uuid is an input. *)
Definition jid_or (jid : option string) (uuid : string) : string :=
  match jid with
  | Some j => if String.eqb j EmptyString then uuid else j
  | None => uuid
  end.

(** [DownloadQueueStore.enqueue]: [INSERT OR IGNORE] on the UNIQUE [job_id]. *)
Definition enqueue (now : Z) (url_ nome_ pasta_ : string) (expected batch : Z)
    (jid_opt : option string) (uuid : string) (t : Table) : string * Table :=
  let jid := jid_or jid_opt uuid in
  (jid,
   match get_job_by_job_id jid t with
   | Some _ => t
   | None =>
       (t ++ [mkJob (next_rowid t) jid url_ nome_ pasta_ expected batch "queued" 0 now
                    EmptyString EmptyString EmptyString EmptyString 0 0 0 0 0 "idle"
                    now now])%list
   end).

Definition claimable (now : Z) (r : DownloadJob) : bool :=
  String.eqb (status r) "queued" && (available_at r <=? now).

(** [DownloadQueueStore.claim_next]: the UPDATE is keyed on the rowid and on
    [status='queued'] and returns the updated row. *)
Definition claim_next (now : Z) (wid : string) (t : Table) : option DownloadJob * Table :=
  match first_min created_at (filter (claimable now) t) with
  | None => (None, t)
  | Some row =>
      let hit r := (id r =? id row) && String.eqb (status r) "queued" in
      let upd r := mkJob (id r) (job_id r) (url r) (nome r) (pasta r) (expected_total r)
                         (batch_size r) "downloading" (tries r) (available_at r)
                         (last_error r) (result_json r) (summary_json r) wid now now
                         (chapter r) (progress r) (total_images r) "starting"
                         (created_at r) now in
      (option_map upd (select_one hit t), update_where hit upd t)
  end.

(** [CASE WHEN ?='' THEN state ELSE ? END] *)
Definition state_or (new old : string) : string :=
  if String.eqb new EmptyString then old else new.

(** [DownloadQueueStore.heartbeat] *)
Definition heartbeat (now : Z) (jid : string) (chapter_ progress_ total_ : Z)
    (state_ : string) (t : Table) : Table :=
  update_where (fun r => has_job_id jid r && active r)
    (fun r => mkJob (id r) (job_id r) (url r) (nome r) (pasta r) (expected_total r)
                    (batch_size r) (status r) (tries r) (available_at r) (last_error r)
                    (result_json r) (summary_json r) (worker_id r)
                    (processing_started_at r) now chapter_ progress_ total_
                    (state_or state_ (state r)) (created_at r) now) t.

(** [DownloadQueueStore.set_status] *)
Definition set_status (now : Z) (jid status_ state_ : string) (t : Table) : Table :=
  update_where (has_job_id jid)
    (fun r => mkJob (id r) (job_id r) (url r) (nome r) (pasta r) (expected_total r)
                    (batch_size r) status_ (tries r) (available_at r) (last_error r)
                    (result_json r) (summary_json r) (worker_id r)
                    (processing_started_at r) (heartbeat_at r) (chapter r) (progress r)
                    (total_images r) (state_or state_ (state r)) (created_at r) now) t.

(** [DownloadQueueStore.mark_done]; [result] and [summary] are the serialised
    documents. *)
Definition mark_done (now : Z) (jid result summary : string) (t : Table) : Table :=
  update_where (has_job_id jid)
    (fun r => mkJob (id r) (job_id r) (url r) (nome r) (pasta r) (expected_total r)
                    (batch_size r) "done" (tries r) (available_at r) (last_error r)
                    result summary (worker_id r) (processing_started_at r)
                    (heartbeat_at r) (chapter r) (progress r) (total_images r)
                    "completed" (created_at r) now) t.

(** A Python string is represented by its UTF-8 bytes: a byte [10xxxxxx]
    continues the character begun by the byte before it. *)
Definition continues (c : ascii) : bool :=
  ((128 <=? N_of_ascii c) && (N_of_ascii c <=? 191))%N.

(** [s[:n]]: the first [n] characters of [s], each with all its bytes. *)
Fixpoint take_chars (n : nat) (s : string) : string :=
  match s with
  | EmptyString => EmptyString
  | String c s' =>
      if continues c then String c (take_chars n s')
      else match n with
           | O => EmptyString
           | S n' => String c (take_chars n' s')
           end
  end.

(** [str(error)[:2000]] *)
Definition clip (error : string) : string := take_chars 2000 error.

(** [DownloadQueueStore.mark_failed] *)
Definition mark_failed (now : Z) (jid error : string) (next_available_at : Z)
    (t : Table) : Table :=
  update_where (has_job_id jid)
    (fun r => mkJob (id r) (job_id r) (url r) (nome r) (pasta r) (expected_total r)
                    (batch_size r) "queued" (tries r + 1) next_available_at (clip error)
                    (result_json r) (summary_json r) (worker_id r)
                    (processing_started_at r) (heartbeat_at r) (chapter r) (progress r)
                    (total_images r) "error" (created_at r) now) t.

(** [DownloadQueueStore.fail_permanently] *)
Definition fail_permanently (now : Z) (jid error : string) (t : Table) : Table :=
  update_where (has_job_id jid)
    (fun r => mkJob (id r) (job_id r) (url r) (nome r) (pasta r) (expected_total r)
                    (batch_size r) "failed" (tries r + 1) (available_at r) (clip error)
                    (result_json r) (summary_json r) (worker_id r)
                    (processing_started_at r) (heartbeat_at r) (chapter r) (progress r)
                    (total_images r) "failed" (created_at r) now) t.

Definition stale (cutoff : Z) (r : DownloadJob) : bool :=
  active r && (0 <? heartbeat_at r) && (heartbeat_at r <? cutoff).

Definition requeue_stale (now : Z) (r : DownloadJob) : DownloadJob :=
  mkJob (id r) (job_id r) (url r) (nome r) (pasta r) (expected_total r) (batch_size r)
        "queued" (tries r) (now + 5) (last_error r) (result_json r) (summary_json r)
        EmptyString 0 0 (chapter r) (progress r) (total_images r) "reclaimed"
        (created_at r) now.

(** [DownloadQueueStore.reclaim_stale_downloading]: one conditional UPDATE;
    returns the row count. *)
Definition reclaim_stale_downloading (now timeout_seconds : Z) (t : Table) : Z * Table :=
  let cutoff := now - timeout_seconds in
  (Z.of_nat (List.length (filter (stale cutoff) t)),
   update_where (stale cutoff) (requeue_stale now) t).

End DownloadStore.

(** ** [download/app.py]: chapter classification *)

(** The label computed in [run_download_bot] from the number of extracted
    images; [min_ok] is [MIN_IMAGES_PER_CHAPTER] and [min_partial] is
    [MIN_IMAGES_PARTIAL] (both read from the process environment). *)
Definition classify (min_ok min_partial found_n : Z) : string :=
  if found_n >=? min_ok then "ok"
  else if found_n >=? min_partial then "partial"
  else "broken".

(** ** [download/app.py]: [download_with_retry] *)

Module Fetch.

(** The file system as far as the function sees it: the size of the regular
    file at a path, if there is one. *)
Definition fs := string -> option Z.

Definition write_file (path : string) (size : Z) (s : fs) : fs :=
  fun p => if String.eqb p path then Some size else s p.

Definition remove_file (path : string) (s : fs) : fs :=
  fun p => if String.eqb p path then None else s p.

(** [os.rename(src, dst)] when it succeeds. *)
Definition rename_file (src dst : string) (s : fs) : fs :=
  fun p => if String.eqb p src then None
           else if String.eqb p dst then s src
           else s p.

(** What [requests.get(..., stream=True)] and the body iterator do in one
    attempt: the connection fails, or a response arrives whose body yields
    the chunks of the given sizes and then either ends or raises. *)
Inductive http_result :=
| ConnError
| Response (status_ok : bool) (content_type : string) (chunks : list Z) (stream_ok : bool).

(** The environment of one attempt: the HTTP exchange and whether [open],
    [os.rename] and [os.remove] succeed. *)
Record attempt_env := mkEnv {
  http : http_result;
  open_ok : bool;
  rename_ok : bool;
  remove_ok : bool
}.

Definition tmp_of (filepath : string) : string := (filepath ++ ".tmp")%string.

(** [total_size]: empty chunks are skipped, the others are written. *)
Definition total_size (chunks : list Z) : Z :=
  fold_left (fun acc c => if c =? 0 then acc else acc + c) chunks 0.

(** The [try] block of one attempt: [inr s] when it reaches [return True],
    [inl s] when an exception is raised, with the file system at that
    point. *)
Definition try_block (e : attempt_env) (filepath : string) (s : fs) : fs + fs :=
  match http e with
  | ConnError => inl s
  | Response status_ok content_type chunks stream_ok =>
      if negb status_ok then inl s
      else if negb (prefix "image/" content_type) then inl s
      else if negb (open_ok e) then inl s
      else
        let s1 := write_file (tmp_of filepath) (total_size chunks) s in
        if negb stream_ok then inl s1
        else if total_size chunks =? 0 then inl s1
        else if rename_ok e then inr (rename_file (tmp_of filepath) filepath s1)
        else inl s1
  end.

(** The [except] handler: the temporary file is removed if it exists; a
    failing [os.remove] is swallowed. *)
Definition except_block (e : attempt_env) (filepath : string) (s : fs) : fs :=
  match s (tmp_of filepath) with
  | Some _ => if remove_ok e then remove_file (tmp_of filepath) s else s
  | None => s
  end.

(** [for attempt in range(attempt, attempt + remaining)]; the sleep between
    attempts and the log lines leave the file system alone. *)
Fixpoint attempts (remaining : nat) (attempt : Z) (env : Z -> attempt_env)
    (filepath : string) (s : fs) : bool * fs :=
  match remaining with
  | O => (false, s)
  | S k =>
      match try_block (env attempt) filepath s with
      | inr s' => (true, s')
      | inl s' => attempts k (attempt + 1) env filepath
                    (except_block (env attempt) filepath s')
      end
  end.

(** [download_with_retry(url, filepath, cookies_dict, headers, max_retries)];
    [env n] is what the [n]-th attempt meets. *)
Definition download_with_retry (env : Z -> attempt_env) (filepath : string)
    (max_retries : Z) (s : fs) : bool * fs :=
  attempts (Z.to_nat max_retries) 1 env filepath s.

End Fetch.

(** ** [download/app.py]: [normalize_url]

    [normalize_url] is a composition of [urllib.parse] functions, embedded
    here as CPython 3.11 defines them.  A Python string is represented by its
    UTF-8 bytes. *)

Module Url.

Local Open Scope string_scope.

Definition code (c : ascii) : N := N_of_ascii c.

Definition between (lo hi : N) (c : ascii) : bool :=
  ((lo <=? code c) && (code c <=? hi))%N.

Definition is_char (k : ascii) (c : ascii) : bool := Ascii.eqb c k.

Definition is_lower (c : ascii) : bool := between 97 122 c.
Definition is_upper (c : ascii) : bool := between 65 90 c.
Definition is_digit (c : ascii) : bool := between 48 57 c.
Definition is_alpha (c : ascii) : bool := is_lower c || is_upper c.

(** [scheme_chars] *)
Definition is_scheme_char (c : ascii) : bool :=
  is_alpha c || is_digit c || is_char "+" c || is_char "-" c || is_char "." c.

Definition lower_char (c : ascii) : ascii :=
  if is_upper c then ascii_of_N (code c + 32) else c.

Fixpoint map_string (f : ascii -> ascii) (s : string) : string :=
  match s with
  | EmptyString => EmptyString
  | String c s' => String (f c) (map_string f s')
  end.

(** [str.lower] on the ASCII letters. *)
Definition lower (s : string) : string := map_string lower_char s.

Fixpoint forall_chars (p : ascii -> bool) (s : string) : bool :=
  match s with
  | EmptyString => true
  | String c s' => p c && forall_chars p s'
  end.

Fixpoint exists_char (p : ascii -> bool) (s : string) : bool :=
  match s with
  | EmptyString => false
  | String c s' => p c || exists_char p s'
  end.

Fixpoint filter_chars (p : ascii -> bool) (s : string) : string :=
  match s with
  | EmptyString => EmptyString
  | String c s' => if p c then String c (filter_chars p s') else filter_chars p s'
  end.

(** [s.lstrip(chars)] *)
Fixpoint lstrip (p : ascii -> bool) (s : string) : string :=
  match s with
  | EmptyString => EmptyString
  | String c s' => if p c then lstrip p s' else s
  end.

(** The part of [s] before the first character satisfying [d], and the rest
    of [s] from that character on. *)
Fixpoint break_at (d : ascii -> bool) (s : string) : string * string :=
  match s with
  | EmptyString => (EmptyString, EmptyString)
  | String c s' =>
      if d c then (EmptyString, s)
      else let (a, b) := break_at d s' in (String c a, b)
  end.

(** [a, b = s.split(sep, 1)] when [sep] occurs in [s]; [(s, '')] otherwise. *)
Definition split_once (sep : ascii) (s : string) : string * string :=
  let (a, b) := break_at (is_char sep) s in
  (a, match b with String _ b' => b' | EmptyString => EmptyString end).

(** [s.split(sep)] *)
Fixpoint split_all (sep : ascii) (s : string) : list string :=
  match s with
  | EmptyString => [EmptyString]
  | String c s' =>
      match split_all sep s' with
      | cur :: more => if is_char sep c then EmptyString :: cur :: more
                       else String c cur :: more
      | [] => [String c EmptyString]
      end
  end.

Definition drop2 (s : string) : string :=
  match s with String _ (String _ s') => s' | _ => EmptyString end.

Record SplitResult := mkSplit {
  scheme : string;
  netloc : string;
  path : string;
  query : string;
  fragment : string
}.

(** [_WHATWG_C0_CONTROL_OR_SPACE] and [_UNSAFE_URL_BYTES_TO_REMOVE] *)
Definition is_c0_or_space (c : ascii) : bool := (code c <=? 32)%N.
Definition is_unsafe (c : ascii) : bool :=
  ((code c =? 9) || (code c =? 13) || (code c =? 10))%N.

Definition is_netloc_delim (c : ascii) : bool :=
  is_char "/" c || is_char "?" c || is_char "#" c.

Definition split_scheme (url : string) : string * string :=
  let (pre, post) := break_at (is_char ":") url in
  match pre, post with
  | String c0 _, String _ rest =>
      if between 0 127 c0 && is_alpha c0 && forall_chars is_scheme_char pre
      then (lower pre, rest) else (EmptyString, url)
  | _, _ => (EmptyString, url)
  end.

(** [_splitnetloc(url, 2)] when [url[:2] == '//'] *)
Definition split_netloc (url : string) : string * string :=
  if prefix "//" url then break_at is_netloc_delim (drop2 url)
  else (EmptyString, url).

Definition brackets_mismatch (nl : string) : bool :=
  let lb := exists_char (is_char "[") nl in
  let rb := exists_char (is_char "]") nl in
  (lb && negb rb) || (rb && negb lb).

Section WithNetlocCheck.

(** [_check_bracketed_netloc] for a bracketed host and [_checknetloc] for a
    host that is not ASCII: [false] when they raise [ValueError]. *)
Variable netloc_ok : string -> bool.

Definition netloc_accepted (nl : string) : bool :=
  if exists_char (is_char "[") nl || negb (forall_chars (between 0 127) nl)
  then netloc_ok nl else true.

(** [urlsplit(url)]; [None] when it raises [ValueError]. *)
Definition urlsplit (url : string) : option SplitResult :=
  let url := filter_chars (fun c => negb (is_unsafe c)) (lstrip is_c0_or_space url) in
  let (scheme_, url) := split_scheme url in
  let (netloc_, url) := split_netloc url in
  if brackets_mismatch netloc_ then None
  else
    let (url, fragment_) := split_once "#" url in
    let (url, query_) := split_once "?" url in
    if netloc_accepted netloc_
    then Some (mkSplit scheme_ netloc_ url query_ fragment_)
    else None.

End WithNetlocCheck.

Definition hex_val (c : ascii) : option N :=
  if is_digit c then Some (code c - 48)%N
  else if between 65 70 c then Some (code c - 55)%N
  else if between 97 102 c then Some (code c - 87)%N
  else None.

(** [unquote_to_bytes]: [%XX] becomes the byte, any other [%] stays. *)
Fixpoint percent_decode (s : string) : string :=
  match s with
  | EmptyString => EmptyString
  | String c s' =>
      if is_char "%" c then
        match s' with
        | String h1 (String h2 s'') =>
            match hex_val h1, hex_val h2 with
            | Some a, Some b => String (ascii_of_N (16 * a + b)) (percent_decode s'')
            | _, _ => String c (percent_decode s')
            end
        | _ => String c (percent_decode s')
        end
      else String c (percent_decode s')
  end.

(** U+FFFD in UTF-8. *)
Definition replacement : string :=
  String (ascii_of_N 239) (String (ascii_of_N 191) (String (ascii_of_N 189) EmptyString)).

Definition is_cont (c : ascii) : bool := between 128 191 c.

(** The range of the second byte after the lead byte [b] of a three- or
    four-byte sequence. *)
Definition second_ok (b c : ascii) : bool :=
  if (code b =? 224)%N then between 160 191 c
  else if (code b =? 237)%N then between 128 159 c
  else if (code b =? 240)%N then between 144 191 c
  else if (code b =? 244)%N then between 128 143 c
  else is_cont c.

(** [bytes.decode('utf-8', 'replace')] followed by the UTF-8 encoding of the
    result: every maximal ill-formed part becomes U+FFFD. *)
Fixpoint utf8_replace (s : string) : string :=
  match s with
  | EmptyString => EmptyString
  | String b r0 =>
      if between 0 127 b then String b (utf8_replace r0)
      else if between 194 223 b then
        match r0 with
        | String c1 r1 =>
            if is_cont c1 then String b (String c1 (utf8_replace r1))
            else replacement ++ utf8_replace r0
        | EmptyString => replacement
        end
      else if between 224 239 b then
        match r0 with
        | String c1 r1 =>
            if second_ok b c1 then
              match r1 with
              | String c2 r2 =>
                  if is_cont c2 then String b (String c1 (String c2 (utf8_replace r2)))
                  else replacement ++ utf8_replace r1
              | EmptyString => replacement
              end
            else replacement ++ utf8_replace r0
        | EmptyString => replacement
        end
      else if between 240 244 b then
        match r0 with
        | String c1 r1 =>
            if second_ok b c1 then
              match r1 with
              | String c2 r2 =>
                  if is_cont c2 then
                    match r2 with
                    | String c3 r3 =>
                        if is_cont c3
                        then String b (String c1 (String c2 (String c3 (utf8_replace r3))))
                        else replacement ++ utf8_replace r2
                    | EmptyString => replacement
                    end
                  else replacement ++ utf8_replace r1
              | EmptyString => replacement
              end
            else replacement ++ utf8_replace r0
        | EmptyString => replacement
        end
      else replacement ++ utf8_replace r0
  end.

(** [unquote(s)] with the defaults [encoding='utf-8', errors='replace'] *)
Definition unquote (s : string) : string :=
  if exists_char (is_char "%") s then utf8_replace (percent_decode s) else s.

Definition plus_to_space (s : string) : string :=
  map_string (fun c => if is_char "+" c then " "%char else c) s.

(** The body of the loop of [parse_qsl]: an empty field is skipped, any
    other gives one pair. *)
Definition field_pairs (name_value : string) : list (string * string) :=
  if String.eqb name_value EmptyString then []
  else let (n, v) := split_once "=" name_value in
       [(unquote (plus_to_space n), unquote (plus_to_space v))].

(** [parse_qsl(qs, keep_blank_values=True)] *)
Definition parse_qsl (qs : string) : list (string * string) :=
  if String.eqb qs EmptyString then []
  else flat_map field_pairs (split_all "&" qs).

Definition hex_digit (n : N) : ascii :=
  if (n <? 10)%N then ascii_of_N (48 + n) else ascii_of_N (55 + n).

(** [_ALWAYS_SAFE] *)
Definition always_safe (c : ascii) : bool :=
  is_alpha c || is_digit c || is_char "_" c || is_char "." c || is_char "-" c
  || is_char "~" c.

(** [quote_plus(s)] *)
Fixpoint quote_plus (s : string) : string :=
  match s with
  | EmptyString => EmptyString
  | String c s' =>
      if always_safe c then String c (quote_plus s')
      else if is_char " " c then String "+" (quote_plus s')
      else String "%" (String (hex_digit (code c / 16))
                         (String (hex_digit (code c mod 16)) (quote_plus s')))
  end.

(** ['&'.join(l)] *)
Fixpoint join_amp (l : list string) : string :=
  match l with
  | [] => EmptyString
  | [x] => x
  | x :: l' => x ++ "&" ++ join_amp l'
  end.

(** [urlencode(pairs, doseq=True)] for string values *)
Definition urlencode (pairs : list (string * string)) : string :=
  join_amp (map (fun kv => quote_plus (fst kv) ++ "=" ++ quote_plus (snd kv)) pairs).

(** [uses_netloc], without its empty entry (the test is guarded by a
    non-empty scheme). *)
Definition uses_netloc : list string :=
  ["ftp"; "http"; "gopher"; "nntp"; "telnet"; "imap"; "wais"; "file"; "mms"; "https";
   "shttp"; "snews"; "prospero"; "rtsp"; "rtspu"; "rsync"; "svn"; "svn+ssh"; "sftp";
   "nfs"; "git"; "git+ssh"; "ws"; "wss"].

Definition nonempty (s : string) : bool := negb (String.eqb s EmptyString).

(** [urlunsplit((scheme, netloc, url, query, fragment))] *)
Definition urlunsplit (scheme_ netloc_ url query_ fragment_ : string) : string :=
  let url :=
    if nonempty netloc_
       || (nonempty scheme_ && existsb (String.eqb scheme_) uses_netloc
           && negb (prefix "//" url))
    then "//" ++ netloc_ ++ (if nonempty url && negb (prefix "/" url) then "/" ++ url else url)
    else url in
  let url := if nonempty scheme_ then scheme_ ++ ":" ++ url else url in
  let url := if nonempty query_ then url ++ "?" ++ query_ else url in
  if nonempty fragment_ then url ++ "#" ++ fragment_ else url.

(** The tracking parameters dropped by [normalize_url]. *)
Definition is_tracking (lk : string) : bool :=
  prefix "utm_" lk
  || existsb (String.eqb lk) ["ref"; "fbclid"; "gclid"; "mc_cid"; "mc_eid"].

(** [normalize_url]; the [except] branch is taken when [urlsplit] raises. *)
Definition normalize_url (netloc_ok : string -> bool) (url : string) : string :=
  if String.eqb url EmptyString then EmptyString
  else
    match urlsplit netloc_ok url with
    | Some parts =>
        let keep_q := filter (fun kv => negb (is_tracking (lower (fst kv))))
                             (parse_qsl (query parts)) in
        urlunsplit (scheme parts) (netloc parts) (path parts) (urlencode keep_q) EmptyString
    | None => fst (split_once "#" url)
    end.

End Url.

(** ** [download/app.py]: [run_download_bot] and the hand-over to the upload queue

    The browser, the extraction heuristics and the image downloads are
    inputs of the model (record [Env]); the control flow of the chapter loop,
    every [save_progress], the two calls of [adicionar_fila_upload] and the
    batch continuation are those of the source.  Logging, the login, the
    optional AI assistance and the cover download are left out; the browser
    is assumed not to raise. *)

Module Crawl.

Local Open Scope string_scope.
Local Open Scope Z_scope.

(** The job dictionary, as far as [run_download_bot] and
    [adicionar_fila_upload] read it. *)
Record Job := mkJob {
  id : string;
  job_id : option string;
  url : string;
  nome : string;
  expected_total : Z;
  batch_size : Z;
  force_url : bool;
  pasta : option string
}.

(** An entry of [capitulos_baixados]. *)
Record Chapter := mkChapter {
  numero : Z;
  chapter_url : string;
  imagens : Z;
  chapter_status : string
}.

(** The dictionary stored per work in [PROGRESS_FILE]; a key that was not
    written is [None]. *)
Record ProgressData := mkProgress {
  ultimo_capitulo_url : option string;
  capitulos_baixados : list Chapter;
  p_expected_total : option Z;
  p_batch_size : option Z;
  p_upload_enqueued : option bool;
  stopped_reason : option string;
  stopped_at_url : option string;
  stop_reason : option string;
  stop_url : option string
}.

(** What the browser shows at a position. *)
Record Page := mkPage {
  imgs : list string;            (* the extracted image URLs *)
  blocked : bool;                (* [is_probably_blocked(page)] *)
  next_url : option string       (* [page.url] after a click on the enabled
                                    next button; [None] without such a button *)
}.

Record Env := mkEnvironment {
  site : string -> Page;
  keep_going : nat -> bool;      (* the n-th answer of [_should_continue()] *)
  image_ok : string -> Z -> bool;  (* the file exists or its download succeeds *)
  netloc_ok : string -> bool;
  MIN_IMAGES_PER_CHAPTER : Z;
  MIN_IMAGES_PARTIAL : Z;
  BATCH_SIZE_DEFAULT : Z;
  DOWNLOADS_DIR : string;
  resolve : string -> string;    (* [Path.resolve] *)
  payload_of : Job -> string -> string -> string -> string;  (* [json.dumps] *)
  result_of : option string -> Z -> string; (* the serialised result *)
  summary_of : Job -> string                (* the serialised validation *)
}.

(** The persistent state shared by the runs: the progress file, the two
    queues, and the job ids handed to [QUEUE_STORE.enqueue] so far, oldest
    first. *)
Record World := mkWorld {
  progress_file : string -> option ProgressData;
  upload_queue : QueueStore.Table;
  download_queue : DownloadStore.Table;
  handoffs : list string
}.

(** The local variables of one run. *)
Record Run := mkRun {
  capitulo : Z;
  capitulos : list Chapter;
  visited_urls : list string;
  upload_enqueued : bool;
  batch_counter : Z;
  total_imagens : Z;
  imagens_falhas : Z;
  page_url : string;
  calls : nat
}.

Record Result := mkResult {
  r_capitulos : Z;
  r_imagens : Z;
  r_imagens_falhas : Z;
  r_stopped_reason : option string;
  r_resume_url : option string;
  r_requeued_job : option string
}.

Definition truthy (s : string) : bool := negb (String.eqb s EmptyString).

Definition or_else (o : option string) (d : string) : string :=
  match o with
  | Some s => if truthy s then s else d
  | None => d
  end.

Definition mem (x : string) (l : list string) : bool := existsb (String.eqb x) l.

Definition path_join (dir name : string) : string := dir ++ "/" ++ name.

Definition empty_progress : ProgressData :=
  mkProgress None [] None None None None None None None.

(** [load_progress] *)
Definition load_progress (obra : string) (w : World) : ProgressData :=
  match progress_file w obra with Some d => d | None => empty_progress end.

(** [save_progress] *)
Definition save_progress (obra : string) (d : ProgressData) (w : World) : World :=
  mkWorld (fun o => if String.eqb o obra then Some d else progress_file w o)
          (upload_queue w) (download_queue w) (handoffs w).

(** [clear_progress] *)
Definition clear_progress (obra : string) (w : World) : World :=
  mkWorld (fun o => if String.eqb o obra then None else progress_file w o)
          (upload_queue w) (download_queue w) (handoffs w).

Section WithEnv.

Variable env : Env.
Variable now : Z.

Definition norm (u : string) : string := Url.normalize_url (netloc_ok env) u.

(** [int(job.get('batch_size') or BATCH_SIZE_DEFAULT)] *)
Definition batch_of (job : Job) : Z :=
  if batch_size job =? 0 then BATCH_SIZE_DEFAULT env else batch_size job.

(** The job id chosen by [adicionar_fila_upload]. *)
Definition upload_job_id (obra : string) (job : Job) : string :=
  or_else (job_id job) (or_else (Some (id job)) (obra ++ "-" ++ str_of_Z now)).

(** [adicionar_fila_upload]: the store does not fail, so the call returns
    [True]. *)
Definition adicionar_fila_upload (obra : string) (job : Job) (w : World) : World :=
  let jid := upload_job_id obra job in
  let pasta_absoluta := resolve env (or_else (pasta job) (path_join (DOWNLOADS_DIR env) obra)) in
  mkWorld (progress_file w)
          (QueueStore.enqueue now jid obra pasta_absoluta
             (payload_of env job obra pasta_absoluta jid) (upload_queue w))
          (download_queue w)
          (handoffs w ++ [jid])%list.

(** The image loop of one chapter: the number of images counted as
    downloaded, the number of failures, the calls of [_should_continue]
    made, and whether the loop was left on a stop request. *)
Fixpoint image_loop (current_url : string) (l : list string) (i : Z) (n : nat)
    (ok failed : Z) : Z * Z * nat * bool :=
  match l with
  | [] => (ok, failed, n, false)
  | _ :: l' =>
      if negb (keep_going env n) then (ok, failed, S n, true)
      else if image_ok env current_url i
           then image_loop current_url l' (i + 1) (S n) (ok + 1) failed
           else image_loop current_url l' (i + 1) (S n) ok (failed + 1)
  end.

(** How one pass through the body of the [while] loop ends. *)
Inductive flow :=
| Continue (r : Run) (w : World)
| Break (reason stop_at : option string) (r : Run) (w : World)
| Return (res : Result) (w : World).

(** The body of [while _should_continue():]. *)
Definition iteration (job : Job) (r : Run) (w : World) : flow :=
  let obra := nome job in
  if (0 <? expected_total job) && (expected_total job <? capitulo r)
  then Break (Some "expected_total_reached") (Some (page_url r)) r w
  else
    let current_url := page_url r in
    let current_url_norm := norm current_url in
    if mem current_url_norm (visited_urls r)
    then Break (Some "url_repetida") (Some current_url) r
           (save_progress obra
              (mkProgress (Some current_url) (capitulos r) None None None
                          (Some "url_repetida") (Some current_url) None None) w)
    else
      let visited := current_url_norm :: visited_urls r in
      let pg := site env current_url in
      let found_n := Z.of_nat (List.length (imgs pg)) in
      let status := classify (MIN_IMAGES_PER_CHAPTER env) (MIN_IMAGES_PARTIAL env) found_n in
      if String.eqb status "broken" && blocked pg
      then
        let caps := (capitulos r ++ [mkChapter (capitulo r) current_url 0 "blocked"])%list in
        Break (Some "blocked") (Some current_url)
          (mkRun (capitulo r) caps visited (upload_enqueued r) (batch_counter r)
                 (total_imagens r) (imagens_falhas r) current_url (calls r))
          (save_progress obra
             (mkProgress (Some current_url) caps (Some (expected_total job))
                         (Some (batch_of job)) None None None
                         (Some "blocked") (Some current_url)) w)
      else
        let '(ok, failed, n, stopped) :=
          image_loop current_url (imgs pg) 1 (calls r) 0 0 in
        let w := if stopped
                 then save_progress obra
                        (mkProgress (Some current_url) (capitulos r) None None None
                                    None None None None) w
                 else w in
        let caps := (capitulos r ++ [mkChapter (capitulo r) current_url ok status])%list in
        let r1 := mkRun (capitulo r) caps visited (upload_enqueued r) (batch_counter r)
                        (total_imagens r + ok) (imagens_falhas r + failed) current_url (S n) in
        if negb (keep_going env n) then Break None None r1 w
        else
          match next_url pg with
          | None => Break None None r1 (clear_progress obra w)
          | Some new_url =>
              let new_url_norm := norm new_url in
              if String.eqb new_url_norm current_url_norm || mem new_url_norm visited
              then Break (Some "next_nao_avancou") (Some new_url)
                     (mkRun (capitulo r) caps visited (upload_enqueued r) (batch_counter r)
                            (total_imagens r1) (imagens_falhas r1) new_url (S n))
                     (save_progress obra
                        (mkProgress (Some new_url) caps None None None
                                    (Some "next_nao_avancou") (Some new_url) None None) w)
              else
                let saved flag :=
                  mkProgress (Some new_url) caps (Some (expected_total job))
                             (Some (batch_of job)) (Some flag) None None None None in
                let w := save_progress obra (saved (upload_enqueued r)) w in
                let '(flag, w) :=
                  if negb (upload_enqueued r) && (1 <=? Z.of_nat (List.length caps))
                  then (true, save_progress obra (saved true)
                                (adicionar_fila_upload obra job w))
                  else (upload_enqueued r, w) in
                let r2 := mkRun (capitulo r + 1) caps visited flag (batch_counter r + 1)
                                (total_imagens r1) (imagens_falhas r1) new_url (S n) in
                if (0 <? batch_of job) && (batch_of job <=? batch_counter r2)
                then
                  let next_job_id := id job ++ "-cont-" ++ str_of_Z now in
                  let dq := snd (DownloadStore.enqueue now new_url obra
                                   (resolve env (path_join (DOWNLOADS_DIR env) obra))
                                   (expected_total job) (batch_of job)
                                   (Some next_job_id) EmptyString (download_queue w)) in
                  Return (mkResult (Z.of_nat (List.length caps)) (total_imagens r2)
                                   (imagens_falhas r2) (Some "batch_requeued")
                                   (Some new_url) (Some next_job_id))
                         (mkWorld (progress_file w) (upload_queue w) dq (handoffs w))
                else Continue r2 w
          end.

(** The [while] loop; [fuel] bounds the number of chapters visited. *)
Fixpoint chapters (fuel : nat) (job : Job) (r : Run) (w : World) : option flow :=
  match fuel with
  | O => None
  | S k =>
      if keep_going env (calls r)
      then
        match iteration job
                (mkRun (capitulo r) (capitulos r) (visited_urls r) (upload_enqueued r)
                       (batch_counter r) (total_imagens r) (imagens_falhas r)
                       (page_url r) (S (calls r))) w with
        | Continue r' w' => chapters k job r' w'
        | other => Some other
        end
      else Some (Break None None r w)
  end.

(** [run_download_bot(job)]; [None] when [fuel] chapters did not suffice. *)
Definition run_download_bot (fuel : nat) (job : Job) (w : World) : option (Result * World) :=
  let obra := nome job in
  let progress_data := load_progress obra w in
  let caps := capitulos_baixados progress_data in
  let flag := match p_upload_enqueued progress_data with Some b => b | None => false end in
  let visited := filter truthy (map (fun c => norm (chapter_url c)) caps) in
  let start :=
    match ultimo_capitulo_url progress_data with
    | Some u => if truthy u && negb (force_url job) then u else url job
    | None => url job
    end in
  let r0 := mkRun (Z.of_nat (List.length caps) + 1) caps visited flag 0 0 0 start O in
  match chapters fuel job r0 w with
  | None => None
  | Some (Continue _ _) => None
  | Some (Return res w') => Some (res, w')
  | Some (Break reason stop_at r w') =>
      let res := mkResult (Z.of_nat (List.length (capitulos r))) (total_imagens r)
                          (imagens_falhas r) reason
                          (match reason with Some _ => stop_at | None => None end) None in
      match reason with
      | Some _ => Some (res, w')
      | None => Some (res, adicionar_fila_upload obra job w')
      end
  end.

(** One pass of [download_worker_loop] that finds a job: claim, run,
    validate, complete. *)
Definition download_worker_iteration (fuel : nat) (worker : string) (w : World)
    : option World :=
  match DownloadStore.claim_next now worker (download_queue w) with
  | (None, _) => Some w
  | (Some job_row, dq) =>
      let jid := DownloadStore.job_id job_row in
      let job := mkJob jid (Some jid) (DownloadStore.url job_row) (DownloadStore.nome job_row)
                       (DownloadStore.expected_total job_row)
                       (if DownloadStore.batch_size job_row =? 0 then BATCH_SIZE_DEFAULT env
                        else DownloadStore.batch_size job_row)
                       false None in
      let dq := DownloadStore.set_status now jid "downloading" "running" dq in
      match run_download_bot fuel job
              (mkWorld (progress_file w) (upload_queue w) dq (handoffs w)) with
      | None => None
      | Some (res, w') =>
          let dq := DownloadStore.set_status now jid "validating" "validating"
                      (download_queue w') in
          let dq := DownloadStore.mark_done now jid
                      (result_of env (r_stopped_reason res) (r_capitulos res))
                      (summary_of env job) dq in
          Some (mkWorld (progress_file w') (upload_queue w') dq (handoffs w'))
      end
  end.

End WithEnv.

End Crawl.

(** ** Sequences of queue operations *)

Module QueueOps.
Import QueueStore.

(** A call of a method of [QueueStore]. *)
Inductive op :=
| Enqueue (ts : Z) (job_id obra pasta_ payload : string)
| ClaimNext (ts : Z) (worker : option string) (uuid : string)
| Heartbeat (ts : Z) (job_id wid : string)
| MarkDone (ts : Z) (job_id : string)
| MarkFailed (ts : Z) (job_id error : string) (requeue : bool) (max_tries : Z)
| ReclaimStale (now timeout_seconds : Z).

Definition step (o : op) (t : Table) : Table :=
  match o with
  | Enqueue ts j ob pa pl => enqueue ts j ob pa pl t
  | ClaimNext ts w u => snd (claim_next ts w u t)
  | Heartbeat ts j w => heartbeat ts j w t
  | MarkDone ts j => mark_done ts j t
  | MarkFailed ts j e rq m => snd (mark_failed ts j e rq m t)
  | ReclaimStale now tmo => snd (reclaim_stale_processing now tmo t)
  end.

Definition run (ops : list op) (t : Table) : Table :=
  fold_left (fun t o => step o t) ops t.

(** The job is in the active state ([processing]). *)
Definition is_active (job_id : string) (t : Table) : bool :=
  match lookup job_id t with
  | Some r => String.eqb (status r) "processing"
  | None => false
  end.

(** The job is active in [t] and after every operation of [ops]. *)
Fixpoint stays_active (job_id : string) (ops : list op) (t : Table) : bool :=
  is_active job_id t
  && match ops with
     | [] => true
     | o :: ops' => stays_active job_id ops' (step o t)
     end.

End QueueOps.

Module DownloadOps.
Import DownloadStore.

(** A call of a method of [DownloadQueueStore]. *)
Inductive op :=
| Enqueue (now : Z) (url_ nome_ pasta_ : string) (expected batch : Z)
          (jid : option string) (uuid : string)
| ClaimNext (now : Z) (wid : string)
| Heartbeat (now : Z) (jid : string) (chapter_ progress_ total_ : Z) (state_ : string)
| SetStatus (now : Z) (jid status_ state_ : string)
| MarkDone (now : Z) (jid result summary : string)
| MarkFailed (now : Z) (jid error : string) (next_available_at : Z)
| FailPermanently (now : Z) (jid error : string)
| ReclaimStale (now timeout_seconds : Z).

Definition step (o : op) (t : Table) : Table :=
  match o with
  | Enqueue now u n p e b j uu => snd (enqueue now u n p e b j uu t)
  | ClaimNext now w => snd (claim_next now w t)
  | Heartbeat now j c p tot s => heartbeat now j c p tot s t
  | SetStatus now j st s => set_status now j st s t
  | MarkDone now j r s => mark_done now j r s t
  | MarkFailed now j e a => mark_failed now j e a t
  | FailPermanently now j e => fail_permanently now j e t
  | ReclaimStale now tmo => snd (reclaim_stale_downloading now tmo t)
  end.

Definition run (ops : list op) (t : Table) : Table :=
  fold_left (fun t o => step o t) ops t.

(** The job is in an active state ([downloading] or [validating]). *)
Definition is_active (jid : string) (t : Table) : bool :=
  match get_job_by_job_id jid t with
  | Some r => active r
  | None => false
  end.

Fixpoint stays_active (jid : string) (ops : list op) (t : Table) : bool :=
  is_active jid t
  && match ops with
     | [] => true
     | o :: ops' => stays_active jid ops' (step o t)
     end.

End DownloadOps.

(** ** The properties as the specification words them

    These statements follow the specification, not the code; they are
    compared with the code in the second half of the file. *)

Module Spec.

(** Re-enqueuing a queued, active or failed job overwrites its target and
    resets it to [queued] — read on the download queue. *)
Definition reenqueue_resets_download : Prop :=
  forall now url_ nome_ pasta_ expected batch jid uuid t r,
    jid <> EmptyString ->
    DownloadStore.get_job_by_job_id jid t = Some r ->
    In (DownloadStore.status r) ["queued"; "downloading"; "validating"; "failed"]%string ->
    exists r',
      DownloadStore.get_job_by_job_id jid
        (snd (DownloadStore.enqueue now url_ nome_ pasta_ expected batch (Some jid) uuid t))
      = Some r'
      /\ DownloadStore.url r' = url_
      /\ DownloadStore.status r' = "queued"%string.



(** [reclaim_stale(timeout=T)] reverts every active job whose heartbeat is
    older than [T] — read on the download queue. *)
Definition reclaim_reverts_every_stale_download : Prop :=
  forall now T t r,
    In r t ->
    DownloadStore.active r = true ->
    now - DownloadStore.heartbeat_at r > T ->
    exists r',
      DownloadStore.get_job_by_job_id (DownloadStore.job_id r)
        (snd (DownloadStore.reclaim_stale_downloading now T t)) = Some r'
      /\ DownloadStore.status r' = "queued"%string.

(** When the bounded-retry fetch returns, the destination is not an empty
    file and the temporary sibling is gone. *)
Definition fetch_leaves_no_partial_artifact : Prop :=
  forall env filepath max_retries s,
    let s' := snd (Fetch.download_with_retry env filepath max_retries s) in
    s' filepath <> Some 0 /\ s' (Fetch.tmp_of filepath) = None.


(** [complete] sets [done] and clears the owner and heartbeat fields — read
    on the download queue. *)
Definition mark_done_clears_owner_download : Prop :=
  forall now jid result summary t r,
    DownloadStore.get_job_by_job_id jid t = Some r ->
    exists r',
      DownloadStore.get_job_by_job_id jid (DownloadStore.mark_done now jid result summary t)
      = Some r'
      /\ DownloadStore.status r' = "done"%string
      /\ DownloadStore.worker_id r' = EmptyString
      /\ DownloadStore.heartbeat_at r' = 0.

End Spec.

(** ** Consecutive failures of one job *)



(** ** Sample data *)

Module Sample.
Local Open Scope string_scope.
Local Open Scope Z_scope.

(** An upload job as [QueueStore.enqueue] inserts it. *)
Definition upload_job (jid status_ : string) (tries_ : Z) : QueueStore.Job :=
  QueueStore.mkJob jid "obra" "/d/obra" "{}" status_ tries_ None 10 10 None None None None.

(** A download job as [DownloadQueueStore.enqueue] inserts it, in a given
    status and with a given owner and heartbeat. *)
Definition download_job (rowid : Z) (jid status_ wid : string) (hb : Z)
    : DownloadStore.DownloadJob :=
  DownloadStore.mkJob rowid jid "https://s/c1" "obra" "/d/obra" 0 0 status_ 0 10
    EmptyString EmptyString EmptyString wid hb hb 0 0 0 "idle" 10 10.

Definition two_queued : list QueueOps.op :=
  [QueueOps.Enqueue 10 "a" "obra-a" "/d/a" "{}";
   QueueOps.Enqueue 11 "b" "obra-b" "/d/b" "{}"].

Definition two_downloads : list DownloadOps.op :=
  [DownloadOps.Enqueue 10 "https://s/a" "a" "/d/a" 0 0 (Some "a") EmptyString;
   DownloadOps.Enqueue 11 "https://s/b" "b" "/d/b" 0 0 (Some "b") EmptyString].

(** A download job that was claimed, failed for good. *)
Definition failed_download : DownloadStore.Table :=
  DownloadOps.run
    [DownloadOps.Enqueue 10 "https://s/a" "a" "/d/a" 0 0 (Some "a") EmptyString;
     DownloadOps.ClaimNext 20 "w1";
     DownloadOps.FailPermanently 30 "a" "boom"] [].

(** A download job in the hands of worker [w1]. *)
Definition claimed_download : DownloadStore.Table :=
  DownloadOps.run
    [DownloadOps.Enqueue 10 "https://s/a" "a" "/d/a" 0 0 (Some "a") EmptyString;
     DownloadOps.ClaimNext 20 "w1"] [].

(** A download job that was reclaimed from a silent worker, which then came
    back and set the status [validating], as [download_worker_loop] does
    after [run_download_bot] returns. *)
Definition orphaned_download : DownloadStore.Table :=
  DownloadOps.run
    [DownloadOps.Enqueue 10 "https://s/a" "a" "/d/a" 0 0 (Some "a") EmptyString;
     DownloadOps.ClaimNext 20 "w1";
     DownloadOps.ReclaimStale 1000 600;
     DownloadOps.SetStatus 1010 "a" "validating" "validating"] [].

End Sample.

(** ** Stale jobs, in the words of the specification *)

(** An upload job is overdue when it is [processing] and either has no
    heartbeat or its heartbeat is more than [T] seconds old. *)
Definition upload_overdue (now T : Z) (r : QueueStore.Job) : bool :=
  String.eqb (QueueStore.status r) "processing"
  && match QueueStore.heartbeat_at r with
     | None => true
     | Some h => now - h >? T
     end.

(** A download job is overdue when it is active, has a heartbeat, and that
    heartbeat is more than [T] seconds old. *)
Definition download_overdue (now T : Z) (r : DownloadStore.DownloadJob) : bool :=
  DownloadStore.active r
  && (0 <? DownloadStore.heartbeat_at r)
  && (now - DownloadStore.heartbeat_at r >? T).

(** ** A work of five chapters *)

Module Scenario.
Import Crawl.
Local Open Scope string_scope.
Local Open Scope Z_scope.

(** Five positions, three images each, no block; the last one has no next
    button. *)
Definition pages (u : string) : Page :=
  if String.eqb u "https://s/c1" then mkPage ["a"; "b"; "c"] false (Some "https://s/c2")
  else if String.eqb u "https://s/c2" then mkPage ["a"; "b"; "c"] false (Some "https://s/c3")
  else if String.eqb u "https://s/c3" then mkPage ["a"; "b"; "c"] false (Some "https://s/c4")
  else if String.eqb u "https://s/c4" then mkPage ["a"; "b"; "c"] false (Some "https://s/c5")
  else mkPage ["a"; "b"; "c"] false None.

(** Nobody asks to stop, every image downloads, thresholds 3 and 1, no
    default batch size. *)
Definition env : Env :=
  mkEnvironment pages (fun _ => true) (fun _ _ => true) (fun _ => true) 3 1 0 "downloads"
    (fun p => p) (fun _ _ _ jid => jid) (fun _ _ => "{}") (fun _ => "{}").

Definition empty_world : World := mkWorld (fun _ => None) [] [] [].

(** Scenario A: [expected_total = 5], [batch_size = 0]. *)
Definition job_a : Job := mkJob "J1" (Some "J1") "https://s/c1" "obra" 5 0 false None.

(** The same work submitted with [batch_size = 2]. *)
Definition batch_world : World :=
  mkWorld (fun _ => None) []
    (snd (DownloadStore.enqueue 90 "https://s/c1" "obra" "downloads/obra" 0 2
            (Some "J1") EmptyString []))
    [].

Definition worker_passes (n : nat) (w : World) : option World :=
  Nat.iter n (fun o => match o with
                       | Some w' => download_worker_iteration env 100 20 "w" w'
                       | None => None
                       end) (Some w).

(** A resumed run: two chapters are recorded, the hand-over flag is set, and
    the upload worker is processing the job handed over earlier. *)
Definition resumed_world : World :=
  mkWorld
    (fun o => if String.eqb o "obra"
              then Some (mkProgress (Some "https://s/c3")
                           [mkChapter 1 "https://s/c1" 3 "ok";
                            mkChapter 2 "https://s/c2" 3 "ok"]
                           (Some 5) (Some 0) (Some true) None None None None)
              else None)
    [QueueStore.mkJob "J1" "obra" "downloads/obra" "J1" "processing" 0 None 100 150 None
       (Some 150) (Some "uploader") (Some 150)]
    [] ["J1"].

End Scenario.

(** ** Well-formed tables and auxiliary notions used in the statements *)

(** The primary key [id] of table [jobs] is unique. *)
Definition queue_wf (t : QueueStore.Table) : Prop := NoDup (map QueueStore.id t).

(** The rowid and the [job_id] of table [download_jobs] are unique. *)
Definition download_wf (t : DownloadStore.Table) : Prop :=
  NoDup (map DownloadStore.id t) /\ NoDup (map DownloadStore.job_id t).

(** [s] is empty or begins with a character satisfying [d]. *)
Definition headed (d : ascii -> bool) (s : string) : Prop :=
  match s with
  | EmptyString => True
  | String c _ => d c = true
  end.

(** Two file systems agree away from the destination and its temporary
    sibling. *)
Definition same_elsewhere (filepath : string) (s s' : Fetch.fs) : Prop :=
  forall p, p <> filepath -> p <> Fetch.tmp_of filepath -> s' p = s p.

(** ** [shared/download_store.py]: the table [flags] and the counters *)

Module DownloadFlags.

(** A row of table [flags]; [key] is the primary key. *)
Record Flag := mkFlag {
  key : string;
  value : string;
  updated_at : Z
}.

Definition Flags := list Flag.

Definition has_key (k : string) (r : Flag) : bool := String.eqb (key r) k.

(** [set_flag]: [INSERT ... ON CONFLICT(key) DO UPDATE SET value, updated_at]. *)
Definition set_flag (now : Z) (k v : string) (t : Flags) : Flags :=
  match select_one (has_key k) t with
  | Some _ => update_where (has_key k) (fun r => mkFlag (key r) v now) t
  | None => (t ++ [mkFlag k v now])%list
  end.

(** [get_flag] *)
Definition get_flag (k default : string) (t : Flags) : string :=
  match select_one (has_key k) t with
  | Some row => value row
  | None => default
  end.

(** [_should_continue] of [download/app.py]: in worker mode the stop flag of
    the store decides, otherwise [bot_status['running']]. *)
Definition _should_continue (RUN_MODE : string) (running : bool) (t : Flags) : bool :=
  if String.eqb RUN_MODE "worker"
  then negb (String.eqb (get_flag "download_stop_requested" "0" t) "1")
  else running.

(** The routes [/api/stop] and [/api/resume]. *)
Definition stop_download (now : Z) (t : Flags) : Flags :=
  set_flag now "download_stop_requested" "1" t.

Definition resume_download (now : Z) (t : Flags) : Flags :=
  set_flag now "download_stop_requested" "0" t.

End DownloadFlags.

Module DownloadCounts.
Import DownloadStore.

(** [count_status] *)
Definition count_status (status_ : string) (t : Table) : Z :=
  Z.of_nat (List.length (filter (fun r => String.eqb (status r) status_) t)).

(** [count_all] *)
Definition count_all (t : Table) : Z := Z.of_nat (List.length t).

(** [count_queued_ready] *)
Definition count_queued_ready (now : Z) (t : Table) : Z :=
  Z.of_nat (List.length (filter (claimable now) t)).

End DownloadCounts.

(** ** [shared/queue_store.py]: the table [runtime] *)

Module QueueRuntime.

(** A row of table [runtime]; [key] is the primary key. *)
Record Entry := mkEntry {
  key : string;
  value_json : string;
  updated_at : Z
}.

Definition Runtime := list Entry.

Definition has_key (k : string) (r : Entry) : bool := String.eqb (key r) k.

Section WithJson.

(** The values and their serialisation ([json.dumps], [json.loads]). *)
Context {V : Type}.
Variable dumps : V -> string.
Variable loads : string -> V.

(** [set_runtime] *)
Definition set_runtime (ts : Z) (k : string) (v : V) (t : Runtime) : Runtime :=
  match select_one (has_key k) t with
  | Some _ => update_where (has_key k) (fun r => mkEntry (key r) (dumps v) ts) t
  | None => (t ++ [mkEntry k (dumps v) ts])%list
  end.

(** [get_runtime] *)
Definition get_runtime (k : string) (default : V) (t : Runtime) : V :=
  match select_one (has_key k) t with
  | Some row => loads (value_json row)
  | None => default
  end.

End WithJson.

End QueueRuntime.

(** ** [upload/app.py]: one pass of [fila_watcher] *)

Module UploadWorker.
Import QueueStore.

(** The reclaim at the head of a pass, made when more than a minute has
    passed since [last_reclaim]; an exception of the store call is caught
    and logged ([reclaim_raises]), and [last_reclaim] is updated either
    way.  Returns the new [last_reclaim] and the table. *)
Definition periodic_reclaim (now : Z) (reclaim_raises : bool) (last_reclaim : Z)
    (t : Table) : Z * Table :=
  if now - last_reclaim >? 60
  then (now, if reclaim_raises then t else snd (reclaim_stale_processing now 600 t))
  else (last_reclaim, t).



(** [k] failed uploads of the same job in a row, written at the times
    [tss]. *)
Definition failed_uploads (tss : list Z) (job_id : string) (t : Table) : Table :=
  fold_left (fun t ts => snd (mark_failed ts job_id "Falha no upload" true 5 t)) tss t.

End UploadWorker.

(** ** [download/app.py]: the loop of [download_worker_loop] *)

Module DownloadWorker.
Import DownloadStore.

(** [_backoff_seconds] *)
Definition _backoff_seconds (tries : Z) : Z :=
  let base := 60 in
  let s := base * 2 ^ (Z.max 0 tries) in
  Z.min s 3600.

(** The handler [except Exception as e] of the loop; [jid] is the [job_id]
    of the local variable [job], if that variable is bound. *)
Definition on_exception (now : Z) (jid : option string) (error : string) (t : Table)
    : Table :=
  match jid with
  | Some j =>
      if String.eqb j EmptyString then t
      else
        let tries_ := match get_job_by_job_id j t with
                      | Some row => tries row
                      | None => 0
                      end in
        let next_at := now + _backoff_seconds tries_ in
        if tries_ >=? 5 then fail_permanently now j error t
        else mark_failed now j error next_at t
  | None => t
  end.


(** What one pass of the loop meets: nothing raises and the run returns its
    result and the validation summary, or an [Exception] is raised (a
    [KeyboardInterrupt] ends the loop; the store calls of the handler itself
    are taken to return)
    - by the reclaim ([AtReclaim]),
    - by [get_flag] or [claim_next], before a job is taken ([AtClaim]),
    - after a job was taken and before the local variable [job] is bound to
      it, by [set_flag] or by the construction of the dictionary
      ([AfterClaim]),
    - by the [set_status] that starts the download ([AtStart]),
    - by [run_download_bot] or by the [set_status] that starts the
      validation ([InRun]),
    - by the validation or by [mark_done] ([AtFinish]). *)
Inductive fault :=
| NoFault (result summary : string)
| AtReclaim (error : string)
| AtClaim (error : string)
| AfterClaim (error : string)
| AtStart (error : string)
| InRun (error : string)
| AtFinish (error : string).

(** The local variables that survive a pass: [last_reclaim] and [job]. *)
Record Locals := mkLocals {
  last_reclaim : Z;
  job : option string
}.

(** The reclaim made at most once a minute at the head of the loop. *)
Definition periodic_reclaim (now : Z) (l : Locals) (t : Table) : Locals * Table :=
  if now - last_reclaim l >? 60
  then (mkLocals now (job l), snd (reclaim_stale_downloading now 600 t))
  else (l, t).

(** The body of [while True]; the flag [download_running] is [running].  A
    store call that raises writes nothing. *)
Definition worker_pass (now : Z) (worker_id : string) (running : bool) (f : fault)
    (l : Locals) (t : Table) : Locals * Table :=
  match f with
  | AtReclaim e => (l, on_exception now (job l) e t)
  | _ =>
      let '(l1, t1) := periodic_reclaim now l t in
      match f with
      | AtClaim e => (l1, on_exception now (job l1) e t1)
      | _ =>
          if negb running then (l1, t1)
          else
            match claim_next now worker_id t1 with
            | (None, t2) => (l1, t2)
            | (Some job_row, t2) =>
                match f with
                | AfterClaim e => (l1, on_exception now (job l1) e t2)
                | _ =>
                    let jid := job_id job_row in
                    let l2 := mkLocals (last_reclaim l1) (Some jid) in
                    let t3 := set_status now jid "downloading" "running" t2 in
                    let t4 := set_status now jid "validating" "validating" t3 in
                    match f with
                    | NoFault result summary => (l2, mark_done now jid result summary t4)
                    | AtStart e => (l2, on_exception now (Some jid) e t2)
                    | AtFinish e => (l2, on_exception now (Some jid) e t4)
                    | AtReclaim e | AtClaim e | AfterClaim e | InRun e =>
                        (l2, on_exception now (Some jid) e t3)
                    end
                end
            end
      end
  end.

End DownloadWorker.

(** ** [download/app.py]: an image of a chapter *)

Module Images.
Import Fetch.

(** The body of the image loop of [run_download_bot]: a file that is there
    and not empty is counted as it is; otherwise [download_with_retry]
    decides, with the default [MAX_RETRIES = 3].  Returns whether the image
    is counted as downloaded. *)
Definition fetch_image (env : Z -> attempt_env) (arquivo : string) (s : fs) : bool * fs :=
  match s arquivo with
  | Some n => if 0 <? n then (true, s) else download_with_retry env arquivo 3 s
  | None => download_with_retry env arquivo 3 s
  end.

(** Every chunk received has a length. *)
Definition chunks_sized (e : attempt_env) : Prop :=
  match http e with
  | ConnError => True
  | Response _ _ chunks _ => Forall (fun c => 0 <= c) chunks
  end.

End Images.

(** ** Operations that rewrite a given job *)

(** The calls of [QueueStore] that name [jid] as the job to rewrite. *)
Definition rewrites_upload (jid : string) (o : QueueOps.op) : bool :=
  match o with
  | QueueOps.Enqueue _ j _ _ _ => String.eqb j jid
  | QueueOps.MarkDone _ j => String.eqb j jid
  | QueueOps.MarkFailed _ j _ _ _ => String.eqb j jid
  | _ => false
  end.

(** The calls of [DownloadQueueStore] that name [jid] as the job to
    rewrite. *)
Definition rewrites_download (jid : string) (o : DownloadOps.op) : bool :=
  match o with
  | DownloadOps.SetStatus _ j _ _ => String.eqb j jid
  | DownloadOps.MarkDone _ j _ _ => String.eqb j jid
  | DownloadOps.MarkFailed _ j _ _ => String.eqb j jid
  | DownloadOps.FailPermanently _ j _ => String.eqb j jid
  | _ => false
  end.

(** A job that is finished for good. *)
Definition terminal (status_ : string) : bool :=
  String.eqb status_ "done" || String.eqb status_ "failed".

(** ** Invariants of the chapter loop *)

Module CrawlInv.
Import Crawl.

Section WithRun.

Variable env : Env.
Variable now : Z.
Variable job : Job.

(** The world in which the run starts. *)
Variable w0 : World.

(** The key under which a recorded chapter enters [visited_urls]. *)
Definition key (c : Chapter) : string := norm env (chapter_url c).

(** The chapters recorded by earlier runs, and the keys the run starts
    with. *)
Definition caps0 : list Chapter := capitulos_baixados (load_progress (nome job) w0).

Definition visited0 : list string := filter truthy (map key caps0).

(** What the record says about a chapter: a position recorded as blocked
    has no images; otherwise the status is the classification of the number
    of images found at its URL, and the images counted as downloaded are
    among those found. *)
Definition recorded_ok (c : Chapter) : Prop :=
  (chapter_status c = "blocked"%string /\ imagens c = 0)
  \/ (chapter_status c
       = classify (MIN_IMAGES_PER_CHAPTER env) (MIN_IMAGES_PARTIAL env)
           (Z.of_nat (List.length (imgs (site env (chapter_url c)))))
       /\ 0 <= imagens c <= Z.of_nat (List.length (imgs (site env (chapter_url c))))).

(** Chapters appended by the run: their keys are pairwise distinct, none of
    them is a key the run started with, and each is recorded as found. *)
Definition fresh (new : list Chapter) : Prop :=
  NoDup (map key new)
  /\ (forall c, In c new -> ~ In (key c) visited0)
  /\ (forall c, In c new -> recorded_ok c).

(** A list of chapters that extends the one the run started with. *)
Definition extends (l : list Chapter) : Prop :=
  exists new, l = (caps0 ++ new)%list /\ fresh new.

(** What the run keeps of the world: the record of this work only grows,
    the records of other works and the rows of the download queue stay. *)
Definition world_inv (w : World) : Prop :=
  (forall d, progress_file w (nome job) = Some d -> extends (capitulos_baixados d))
  /\ (forall o, o <> nome job -> progress_file w o = progress_file w0 o)
  /\ (forall jid r,
         DownloadStore.get_job_by_job_id jid (download_queue w0) = Some r ->
         DownloadStore.get_job_by_job_id jid (download_queue w) = Some r).

(** The number [n] of chapters on record respects the two limits of the
    job. *)
Definition bounds (n : Z) : Prop :=
  Z.of_nat (List.length caps0) <= n
  /\ (0 < expected_total job ->
      n <= Z.max (Z.of_nat (List.length caps0)) (expected_total job))
  /\ (0 < batch_of env job -> n <= Z.of_nat (List.length caps0) + batch_of env job).

(** The invariant of the [while] loop. *)
Definition run_inv (r : Run) (w : World) : Prop :=
  capitulo r = Z.of_nat (List.length (capitulos r)) + 1
  /\ (exists new,
         capitulos r = (caps0 ++ new)%list /\ fresh new
         /\ (forall c, In c new -> In (key c) (visited_urls r))
         /\ Z.of_nat (List.length new) = batch_counter r)
  /\ (forall u, In u visited0 -> In u (visited_urls r))
  /\ (0 < batch_of env job -> batch_counter r < batch_of env job)
  /\ (0 < expected_total job ->
      Z.of_nat (List.length (capitulos r))
      <= Z.max (Z.of_nat (List.length caps0)) (expected_total job))
  /\ world_inv w.

Definition flow_ok (f : flow) : Prop :=
  match f with
  | Continue r w => run_inv r w
  | Break _ _ r w => bounds (Z.of_nat (List.length (capitulos r))) /\ world_inv w
  | Return res w => bounds (r_capitulos res) /\ world_inv w
  end.

End WithRun.

End CrawlInv.

(** ** [download/app.py]: the routes that submit downloads *)

Module DownloadApi.
Import DownloadStore.

Local Open Scope string_scope.
Local Open Scope Z_scope.

(** An entry of [catalogo.json], [total_capitulos] already converted to an
    integer. *)
Record Obra := mkObra {
  title : string;
  primeiro_capitulo_url : string;
  total_capitulos : Z
}.

Section WithClock.

(** [datetime.now().strftime('%Y%m%d%H%M%S')] and
    [datetime.now().strftime('%Y%m%d_%H%M%S')] at a clock reading in
    seconds. *)
Variable stamp : Z -> string.
Variable stamp_name : Z -> string.

(** The name made of the alphanumeric characters, spaces, hyphens and
    underscores of a string, stripped, with [_] for each space. *)
Variable sanitize : string -> string.

Variable resolve : string -> string.
Variable DOWNLOADS_DIR : string.
Variable BATCH_SIZE_DEFAULT : Z.

(** [start_download] on a parsed request body ([url] and [nome] stripped);
    [None] is the answer 400, [Some job_id] the answer [success]. *)
Definition start_download (now : Z) (url_ nome_ : string) (expected_total_ batch_size_ : Z)
    (uuid : string) (t : Table) : option string * Table :=
  if String.eqb url_ EmptyString then (None, t)
  else
    let nome1 := if String.eqb nome_ EmptyString then "obra_" ++ stamp_name now else nome_ in
    let nome2 := sanitize nome1 in
    let batch := if batch_size_ =? 0 then BATCH_SIZE_DEFAULT else batch_size_ in
    let job_id_ := stamp now in
    let pasta_ := resolve (Crawl.path_join DOWNLOADS_DIR nome2) in
    (Some job_id_,
     snd (enqueue now url_ nome2 pasta_ expected_total_ batch (Some job_id_) uuid t)).

(** An entry of the catalogue that is imported. *)
Definition importable (o : Obra) : bool :=
  negb (String.eqb (primeiro_capitulo_url o) EmptyString)
  && negb (String.eqb (title o) EmptyString).

(** The loop of [import_catalogo]; [clock i] is the clock reading and
    [uuids i] the fresh uuid while the [i]-th entry is handled. *)
Fixpoint import_loop (clock : nat -> Z) (uuids : nat -> string) (i : nat)
    (obras : list Obra) (added : Z) (t : Table) : Z * Table :=
  match obras with
  | [] => (added, t)
  | obra :: rest =>
      if negb (importable obra) then import_loop clock uuids (S i) rest added t
      else
        let now := clock i in
        let nome_ := sanitize (title obra) in
        let job_id_ := stamp now ++ str_of_Z added in
        let pasta_ := resolve (Crawl.path_join DOWNLOADS_DIR nome_) in
        let t' := snd (enqueue now (primeiro_capitulo_url obra) nome_ pasta_
                         (total_capitulos obra) BATCH_SIZE_DEFAULT (Some job_id_)
                         (uuids i) t) in
        import_loop clock uuids (S i) rest (added + 1) t'
  end.

(** No row of the queue has a job id that an import hands out from the
    count [added] on. *)
Definition unused_from (clock : nat -> Z) (added : Z) (t : Table) : Prop :=
  forall r i a, In r t -> added <= a -> job_id r <> stamp (clock i) ++ str_of_Z a.

(** [import_catalogo]: the number reported as [imported] and the queue. *)
Definition import_catalogo (clock : nat -> Z) (uuids : nat -> string) (obras : list Obra)
    (t : Table) : Z * Table :=
  import_loop clock uuids 0 obras 0 t.

End WithClock.

End DownloadApi.

(** * Facts *)

(** ** SQL helpers *)

Section SqlFacts.
Context {Row : Type}.
Implicit Types (t : list Row) (p q : Row -> bool) (f g : Row -> Row).

Lemma first_min_In (key : Row -> Z) t r : first_min key t = Some r -> In r t.
Proof.
  revert r; induction t as [|a t IH]; simpl; intros r H; [discriminate|].
  destruct (first_min key t) as [m|].
  - destruct (key a <=? key m); inversion H; subst; auto.
  - inversion H; auto.
Qed.

Lemma find_map_preserve q g t :
  (forall r, q (g r) = q r) ->
  find q (map g t) = option_map g (find q t).
Proof.
  intros Hq; induction t as [|a t IH]; simpl; [reflexivity|].
  rewrite Hq. destruct (q a); [reflexivity|exact IH].
Qed.

Lemma find_update_where q p f t :
  (forall r, q (f r) = q r) ->
  find q (update_where p f t)
  = option_map (fun r => if p r then f r else r) (find q t).
Proof.
  intros Hq. unfold update_where. apply find_map_preserve.
  intros r. destruct (p r); auto.
Qed.

Lemma map_update_where {K} (k : Row -> K) p f t :
  (forall r, k (f r) = k r) ->
  map k (update_where p f t) = map k t.
Proof.
  intros Hk. unfold update_where. rewrite map_map. apply map_ext.
  intros r. destruct (p r); auto.
Qed.

Lemma update_where_none p f t :
  (forall r, In r t -> p r = false) -> update_where p f t = t.
Proof.
  intros H. unfold update_where. rewrite <- (map_id t) at 2. apply map_ext_in.
  intros r Hr. rewrite (H r Hr). reflexivity.
Qed.

Lemma find_some_unique {K} (k : Row -> K) (eqb : K -> K -> bool) t r :
  (forall x y, eqb x y = true <-> x = y) ->
  NoDup (map k t) -> In r t ->
  find (fun x => eqb (k x) (k r)) t = Some r.
Proof.
  intros Heq. induction t as [|a t IH]; simpl; intros Hnd Hin; [contradiction|].
  inversion Hnd as [|? ? Hna Hnd']; subst.
  destruct Hin as [->|Hin].
  - assert (E : eqb (k r) (k r) = true) by (apply Heq; reflexivity).
    rewrite E. reflexivity.
  - destruct (eqb (k a) (k r)) eqn:E.
    + apply Heq in E. exfalso. apply Hna. rewrite E. apply in_map. exact Hin.
    + apply IH; assumption.
Qed.

Lemma find_none_not_in {K} (k : Row -> K) (eqb : K -> K -> bool) t x :
  (forall a b, eqb a b = true <-> a = b) ->
  find (fun r => eqb (k r) x) t = None -> ~ In x (map k t).
Proof.
  intros Heq Hf Hin. apply in_map_iff in Hin. destruct Hin as [r [Hk Hr]].
  pose proof (find_none _ _ Hf r Hr) as E. simpl in E.
  assert (eqb (k r) x = true) by (apply Heq; exact Hk). congruence.
Qed.

End SqlFacts.

(** ** [QueueStore] *)

Module QueueFacts.
Import QueueStore QueueOps.

Lemma lookup_In jid t r : lookup jid t = Some r -> In r t /\ id r = jid.
Proof.
  unfold lookup, select_one. intros H. apply find_some in H. destruct H as [Hin Hid].
  split; [exact Hin|]. unfold has_id in Hid. apply String.eqb_eq. exact Hid.
Qed.

Lemma lookup_unique t r : queue_wf t -> In r t -> lookup (id r) t = Some r.
Proof.
  intros Hwf Hin. unfold lookup, select_one, has_id.
  apply (find_some_unique id String.eqb); auto. apply String.eqb_eq.
Qed.

Lemma has_id_preserved jid (f : Job -> Job) :
  (forall r, id (f r) = id r) -> forall r, has_id jid (f r) = has_id jid r.
Proof. intros H r. unfold has_id. rewrite H. reflexivity. Qed.

(** Reading a row after an UPDATE keyed on the id. *)
Lemma lookup_update jid jid' (f : Job -> Job) t :
  (forall r, id (f r) = id r) ->
  lookup jid' (update_where (has_id jid) f t)
  = if String.eqb jid' jid then option_map f (lookup jid t) else lookup jid' t.
Proof.
  intros Hid. unfold lookup, select_one.
  rewrite find_update_where by (apply has_id_preserved; exact Hid).
  destruct (String.eqb jid' jid) eqn:E.
  - apply String.eqb_eq in E. subst jid'.
    destruct (find (has_id jid) t) as [r|] eqn:F; simpl; [|reflexivity].
    apply find_some in F. destruct F as [_ F]. rewrite F. reflexivity.
  - destruct (find (has_id jid') t) as [r|] eqn:F; simpl; [|reflexivity].
    apply find_some in F. destruct F as [_ F]. unfold has_id in *.
    apply String.eqb_eq in F. rewrite F, E. reflexivity.
Qed.

Lemma reclaim_fold_ids now rows acc :
  map id (snd (fold_left
    (fun acc r => (fst acc + 1, update_where (has_id (id r)) (requeue_stale now) (snd acc)))
    rows acc)) = map id (snd acc).
Proof.
  revert acc; induction rows as [|a rows IH]; intros acc; simpl; [reflexivity|].
  rewrite IH. simpl. apply map_update_where. reflexivity.
Qed.

Lemma step_ids o t :
  map id (step o t) = map id t
  \/ exists r, step o t = (t ++ [r])%list /\ ~ In (id r) (map id t).
Proof.
  destruct o; simpl.
  - unfold enqueue. destruct (lookup job_id t) as [row|] eqn:L.
    + left. destruct (String.eqb (status row) "done"); [reflexivity|].
      apply map_update_where. reflexivity.
    + right. eexists; split; [reflexivity|]. simpl.
      apply (find_none_not_in id String.eqb); [apply String.eqb_eq|exact L].
  - left. unfold claim_next.
    destruct (first_min created_at (filter (claimable ts) t)); simpl; [|reflexivity].
    apply map_update_where. reflexivity.
  - left. apply map_update_where. reflexivity.
  - left. apply map_update_where. reflexivity.
  - left. unfold mark_failed.
    destruct (requeue && (_ <? max_tries)); simpl; apply map_update_where; reflexivity.
  - left. unfold reclaim_stale_processing. apply reclaim_fold_ids.
Qed.

Lemma queue_step_wf o t : queue_wf t -> queue_wf (step o t).
Proof.
  unfold queue_wf. intros H. destruct (step_ids o t) as [E|[r [E Hn]]].
  - rewrite E. exact H.
  - rewrite E, map_app. simpl. apply NoDup_app; [exact H|repeat constructor; simpl; tauto|].
    intros x Hx [Hx'|[]]. subst. contradiction.
Qed.

Lemma queue_run_wf ops t : queue_wf t -> queue_wf (run ops t).
Proof.
  revert t; induction ops as [|o ops IH]; intros t H; simpl; [exact H|].
  apply IH. apply queue_step_wf. exact H.
Qed.


(** What a successful claim did: the row chosen was queued and due, it is
    now [processing] under the caller, and no other row changed. *)
Lemma queue_claim_next_spec ts worker uuid t j t' :
  queue_wf t ->
  claim_next ts worker uuid t = (Some j, t') ->
  exists r,
    lookup (id j) t = Some r
    /\ status r = "queued"%string
    /\ null_or (fun a => a <=? ts) (available_at r) = true
    /\ id j = id r
    /\ status j = "processing"%string
    /\ worker_id j = Some (wid_or worker uuid)
    /\ heartbeat_at j = Some ts
    /\ lookup (id j) t' = Some j
    /\ forall jid, jid <> id j -> lookup jid t' = lookup jid t.
Proof.
  intros Hwf H. unfold claim_next in H. cbv zeta in H.
  destruct (first_min created_at (filter (claimable ts) t)) as [row|] eqn:F;
    [|inversion H].
  apply first_min_In in F. apply filter_In in F. destruct F as [Hin Hc].
  unfold claimable in Hc. apply andb_prop in Hc. destruct Hc as [Hq Ha].
  apply String.eqb_eq in Hq.
  rewrite lookup_update in H by reflexivity. rewrite String.eqb_refl in H.
  rewrite (lookup_unique t row Hwf Hin) in H. simpl in H.
  injection H as Hj Ht. subst j t'. cbn [id status worker_id heartbeat_at].
  exists row. split; [apply lookup_unique; assumption|].
  repeat (split; [solve [auto]|]). split.
  - rewrite lookup_update by reflexivity. rewrite String.eqb_refl.
    rewrite (lookup_unique t row Hwf Hin). reflexivity.
  - intros jid Hne. rewrite lookup_update by reflexivity.
    apply String.eqb_neq in Hne. rewrite Hne. reflexivity.
Qed.


End QueueFacts.

(** ** [DownloadStore] *)

Module DownloadFacts.
Import DownloadStore DownloadOps.

Lemma get_In jid t r : get_job_by_job_id jid t = Some r -> In r t /\ job_id r = jid.
Proof.
  unfold get_job_by_job_id, select_one. intros H. apply find_some in H.
  destruct H as [Hin Hid]. split; [exact Hin|]. apply String.eqb_eq. exact Hid.
Qed.

Lemma get_unique t r :
  NoDup (map job_id t) -> In r t -> get_job_by_job_id (job_id r) t = Some r.
Proof.
  intros Hnd Hin. unfold get_job_by_job_id, select_one, has_job_id.
  apply (find_some_unique job_id String.eqb); auto. apply String.eqb_eq.
Qed.

Lemma same_rowid t a b : NoDup (map id t) -> In a t -> In b t -> id a = id b -> a = b.
Proof.
  intros Hnd Ha Hb E.
  pose proof (find_some_unique id Z.eqb t a Z.eqb_eq Hnd Ha) as Fa.
  pose proof (find_some_unique id Z.eqb t b Z.eqb_eq Hnd Hb) as Fb.
  rewrite E in Fa. congruence.
Qed.

Lemma has_job_id_preserved jid (f : DownloadJob -> DownloadJob) :
  (forall r, job_id (f r) = job_id r) -> forall r, has_job_id jid (f r) = has_job_id jid r.
Proof. intros H r. unfold has_job_id. rewrite H. reflexivity. Qed.

(** Reading a row after an UPDATE that keeps the [job_id]. *)
Lemma get_update jid p (f : DownloadJob -> DownloadJob) t :
  (forall r, job_id (f r) = job_id r) ->
  get_job_by_job_id jid (update_where p f t)
  = option_map (fun r => if p r then f r else r) (get_job_by_job_id jid t).
Proof.
  intros H. unfold get_job_by_job_id, select_one.
  apply find_update_where. apply has_job_id_preserved. exact H.
Qed.

Lemma rowid_below_next t r : In r t -> id r < next_rowid t.
Proof.
  unfold next_rowid. induction t as [|a t IH]; cbn [fold_right In]; [contradiction|].
  intros [->|Hin]; [lia|]. specialize (IH Hin). lia.
Qed.

Lemma step_keys o t :
  (map id (step o t) = map id t /\ map job_id (step o t) = map job_id t)
  \/ exists r, step o t = (t ++ [r])%list
               /\ ~ In (id r) (map id t) /\ ~ In (job_id r) (map job_id t).
Proof.
  destruct o; simpl;
    try (left; split; apply map_update_where; reflexivity).
  - unfold enqueue; simpl.
    destruct (get_job_by_job_id (jid_or jid uuid) t) eqn:G; [left; auto|].
    right. eexists; split; [reflexivity|]. simpl. split.
    + intros Hin. apply in_map_iff in Hin. destruct Hin as [r [E Hr]].
      apply rowid_below_next in Hr. lia.
    + apply (find_none_not_in job_id String.eqb); [apply String.eqb_eq|exact G].
  - left. unfold claim_next.
    destruct (first_min created_at (filter (claimable now) t)); simpl; [|auto].
    split; apply map_update_where; reflexivity.
Qed.

Lemma download_step_wf o t : download_wf t -> download_wf (step o t).
Proof.
  unfold download_wf. intros [H1 H2]. destruct (step_keys o t) as [[E1 E2]|[r [E [N1 N2]]]].
  - rewrite E1, E2. auto.
  - rewrite E, !map_app. simpl. split.
    + apply NoDup_app; [exact H1|repeat constructor; simpl; tauto|].
      intros x Hx [Hx'|[]]. subst. contradiction.
    + apply NoDup_app; [exact H2|repeat constructor; simpl; tauto|].
      intros x Hx [Hx'|[]]. subst. contradiction.
Qed.

Lemma download_run_wf ops t : download_wf t -> download_wf (run ops t).
Proof.
  revert t; induction ops as [|o ops IH]; intros t H; simpl; [exact H|].
  apply IH. apply download_step_wf. exact H.
Qed.


(** What a successful claim did. *)
Lemma download_claim_next_spec now wid t j t' :
  download_wf t ->
  claim_next now wid t = (Some j, t') ->
  exists r,
    get_job_by_job_id (job_id j) t = Some r
    /\ status r = "queued"%string
    /\ available_at r <= now
    /\ job_id j = job_id r
    /\ status j = "downloading"%string
    /\ worker_id j = wid
    /\ heartbeat_at j = now
    /\ get_job_by_job_id (job_id j) t' = Some j
    /\ forall jid, jid <> job_id j -> get_job_by_job_id jid t' = get_job_by_job_id jid t.
Proof.
  intros [Hid Hjid] H. unfold claim_next in H.
  destruct (first_min created_at (filter (claimable now) t)) as [row|] eqn:F;
    [|inversion H].
  apply first_min_In in F. apply filter_In in F. destruct F as [Hin Hc].
  unfold claimable in Hc. apply andb_prop in Hc. destruct Hc as [Hq Ha].
  cbv zeta in H.
  set (hit := fun r : DownloadJob => (id r =? id row) && String.eqb (status r) "queued") in *.
  assert (Hrow : hit row = true) by (unfold hit; rewrite Z.eqb_refl, Hq; reflexivity).
  assert (Hsel : select_one hit t = Some row).
  { unfold select_one. destruct (find hit t) as [r0|] eqn:F0.
    - apply find_some in F0. destruct F0 as [Hin0 H0]. unfold hit in H0.
      apply andb_prop in H0. destruct H0 as [H0 _]. apply Z.eqb_eq in H0.
      f_equal. apply (same_rowid t); auto.
    - pose proof (find_none _ _ F0 row Hin). congruence. }
  rewrite Hsel in H. simpl in H. injection H as Hj Ht. subst j t'.
  cbn [job_id status worker_id heartbeat_at].
  apply String.eqb_eq in Hq. apply Z.leb_le in Ha.
  exists row. split; [apply get_unique; assumption|].
  repeat (split; [solve [auto]|]). split.
  - rewrite get_update by reflexivity. rewrite (get_unique t row Hjid Hin). simpl.
    rewrite Hrow. reflexivity.
  - intros jid Hne. rewrite get_update by reflexivity.
    destruct (get_job_by_job_id jid t) as [r|] eqn:G; simpl; [|reflexivity].
    apply get_In in G. destruct G as [Hr Hrj].
    destruct (hit r) eqn:Hh; [|reflexivity].
    unfold hit in Hh. apply andb_prop in Hh. destruct Hh as [Hh _].
    apply Z.eqb_eq in Hh. assert (r = row) by (apply (same_rowid t); auto).
    subst r. congruence.
Qed.


End DownloadFacts.

(** ** C1: a claim takes a queued, due job, and an active job is not claimed *)



(** ** C2: re-enqueuing an existing job *)

(** C2, as the specification words it, fails on the download queue: a job
    that was claimed and failed for good, when enqueued again with another
    target, keeps its target and stays failed. *)
Lemma reenqueue_resets_download_fails : ~ Spec.reenqueue_resets_download.
Proof.
  intros H.
  destruct (DownloadStore.get_job_by_job_id "a" Sample.failed_download) as [r|] eqn:G;
    [|vm_compute in G; discriminate].
  pose proof G as G0. vm_compute in G0. injection G0 as <-.
  destruct (H 50 "https://s/other"%string "a"%string "/d/a"%string 0 0
              "a"%string EmptyString Sample.failed_download _ ltac:(discriminate) G)
    as [r' [G' [U _]]].
  - simpl. auto.
  - vm_compute in G'. injection G' as <-. vm_compute in U. discriminate.
Qed.

(** C2, amended.  [QueueStore.enqueue] of an existing job leaves the table
    as it is when the job is [done]; in every other status it overwrites
    name, folder and payload, sets [queued], clears [available_at] and
    touches no other job.  [DownloadQueueStore.enqueue] of an existing
    [job_id] leaves the table as it is, whatever the status. *)
Theorem enqueue_existing_job :
  (forall ts jid obra pasta_ payload t r,
      QueueStore.lookup jid t = Some r ->
      (QueueStore.status r = "done"%string ->
       QueueStore.enqueue ts jid obra pasta_ payload t = t)
      /\ (QueueStore.status r <> "done"%string ->
          QueueStore.lookup jid (QueueStore.enqueue ts jid obra pasta_ payload t)
          = Some (QueueStore.mkJob (QueueStore.id r) obra pasta_ payload "queued"
                    (QueueStore.tries r) (QueueStore.last_error r) (QueueStore.created_at r)
                    ts None (QueueStore.processing_started_at r) (QueueStore.worker_id r)
                    (QueueStore.heartbeat_at r))
          /\ forall jid', jid' <> jid ->
               QueueStore.lookup jid' (QueueStore.enqueue ts jid obra pasta_ payload t)
               = QueueStore.lookup jid' t))
  /\
  (forall now url_ nome_ pasta_ expected batch jid uuid t r,
      DownloadStore.get_job_by_job_id (DownloadStore.jid_or jid uuid) t = Some r ->
      DownloadStore.enqueue now url_ nome_ pasta_ expected batch jid uuid t
      = (DownloadStore.jid_or jid uuid, t)).
Proof.
  split.
  - intros ts jid obra pasta_ payload t r L. unfold QueueStore.enqueue. rewrite L. split.
    + intros Hs. rewrite Hs. reflexivity.
    + intros Hs. apply String.eqb_neq in Hs. rewrite Hs. split.
      * rewrite QueueFacts.lookup_update by reflexivity.
        rewrite String.eqb_refl, L. reflexivity.
      * intros jid' Hne. rewrite QueueFacts.lookup_update by reflexivity.
        apply String.eqb_neq in Hne. rewrite Hne. reflexivity.
  - intros now url_ nome_ pasta_ expected batch jid uuid t r G.
    unfold DownloadStore.enqueue. rewrite G. reflexivity.
Qed.

(** C2 at work: a processing upload job is reset to [queued] with the new
    payload; a downloading download job is left alone. *)
Lemma enqueue_existing_job_witness :
  QueueStore.lookup "j1"
    (QueueStore.enqueue 50 "j1" "obra2" "/d/obra2" "{2}"
       [Sample.upload_job "j1" "processing" 1])
  = Some (QueueStore.mkJob "j1" "obra2" "/d/obra2" "{2}" "queued" 1 None 10 50 None
            None None None)
  /\ DownloadStore.enqueue 50 "https://s/other" "obra" "/d/obra" 0 0 (Some "j1"%string)
       EmptyString [Sample.download_job 1 "j1" "downloading" "w1" 40]
     = ("j1"%string, [Sample.download_job 1 "j1" "downloading" "w1" 40]).
Proof.
  destruct enqueue_existing_job as [HQ HD]. split.
  - apply (HQ 50 "j1"%string "obra2"%string "/d/obra2"%string "{2}"%string
              [Sample.upload_job "j1" "processing" 1]
              (Sample.upload_job "j1" "processing" 1)).
    + reflexivity.
    + vm_compute. discriminate.
  - apply (HD 50 "https://s/other"%string "obra"%string "/d/obra"%string 0 0
              (Some "j1"%string) EmptyString
              [Sample.download_job 1 "j1" "downloading" "w1" 40]
              (Sample.download_job 1 "j1" "downloading" "w1" 40)).
    reflexivity.
Defined.

(** ** C3: the tries counter *)

Lemma reclaim_fold_tries now rows acc :
  map QueueStore.tries (snd (fold_left
    (fun acc r => (fst acc + 1,
                   update_where (QueueStore.has_id (QueueStore.id r))
                     (QueueStore.requeue_stale now) (snd acc)))
    rows acc)) = map QueueStore.tries (snd acc).
Proof.
  revert acc; induction rows as [|a rows IH]; intros acc; simpl; [reflexivity|].
  rewrite IH. simpl. apply map_update_where. reflexivity.
Qed.

(** C3.  A failure transition of a stored job — [QueueStore.mark_failed],
    [DownloadQueueStore.mark_failed] or [fail_permanently] — adds exactly one
    to its [tries]; a reclaim of stale jobs leaves the [tries] of every row,
    reverted or not, as it was. *)
Theorem tries_counts_failures_only :
  (forall ts jid error requeue max_tries t r,
      QueueStore.lookup jid t = Some r ->
      let res := QueueStore.mark_failed ts jid error requeue max_tries t in
      fst (fst res) = QueueStore.tries r + 1
      /\ option_map QueueStore.tries (QueueStore.lookup jid (snd res))
         = Some (QueueStore.tries r + 1))
  /\ (forall now jid error next_at t r,
         DownloadStore.get_job_by_job_id jid t = Some r ->
         option_map DownloadStore.tries
           (DownloadStore.get_job_by_job_id jid
              (DownloadStore.mark_failed now jid error next_at t))
         = Some (DownloadStore.tries r + 1))
  /\ (forall now jid error t r,
         DownloadStore.get_job_by_job_id jid t = Some r ->
         option_map DownloadStore.tries
           (DownloadStore.get_job_by_job_id jid
              (DownloadStore.fail_permanently now jid error t))
         = Some (DownloadStore.tries r + 1))
  /\ (forall now timeout_seconds t,
         let t' := snd (QueueStore.reclaim_stale_processing now timeout_seconds t) in
         map QueueStore.id t' = map QueueStore.id t
         /\ map QueueStore.tries t' = map QueueStore.tries t)
  /\ (forall now timeout_seconds t,
         let t' := snd (DownloadStore.reclaim_stale_downloading now timeout_seconds t) in
         map DownloadStore.job_id t' = map DownloadStore.job_id t
         /\ map DownloadStore.tries t' = map DownloadStore.tries t).
Proof.
  split; [|split; [|split; [|split]]].
  - intros ts jid error requeue max_tries t r H res.
    unfold res, QueueStore.mark_failed. rewrite H.
    destruct (requeue && (_ <? max_tries)); simpl;
      (split; [reflexivity|]);
      rewrite QueueFacts.lookup_update by reflexivity;
      rewrite String.eqb_refl, H; reflexivity.
  - intros now jid error next_at t r H.
    unfold DownloadStore.mark_failed. rewrite DownloadFacts.get_update by reflexivity.
    rewrite H. simpl. destruct (DownloadFacts.get_In _ _ _ H) as [_ E].
    unfold DownloadStore.has_job_id. rewrite E, String.eqb_refl. reflexivity.
  - intros now jid error t r H.
    unfold DownloadStore.fail_permanently. rewrite DownloadFacts.get_update by reflexivity.
    rewrite H. simpl. destruct (DownloadFacts.get_In _ _ _ H) as [_ E].
    unfold DownloadStore.has_job_id. rewrite E, String.eqb_refl. reflexivity.
  - intros now timeout_seconds t t'. split.
    + apply QueueFacts.reclaim_fold_ids.
    + apply reclaim_fold_tries.
  - intros now timeout_seconds t t'. split; apply map_update_where; reflexivity.
Qed.

(** C3 at work: a job at two tries goes to three on each failure path. *)
Lemma tries_counts_failures_only_witness :
  option_map QueueStore.tries
    (QueueStore.lookup "j1"
       (snd (QueueStore.mark_failed 50 "j1" "boom" true 5
               [Sample.upload_job "j1" "processing" 2]))) = Some 3
  /\ option_map DownloadStore.tries
       (DownloadStore.get_job_by_job_id "j1"
          (DownloadStore.mark_failed 50 "j1" "boom" 110
             [Sample.download_job 1 "j1" "downloading" "w1" 40])) = Some 1
  /\ option_map DownloadStore.tries
       (DownloadStore.get_job_by_job_id "j1"
          (DownloadStore.fail_permanently 50 "j1" "boom"
             [Sample.download_job 1 "j1" "downloading" "w1" 40])) = Some 1.
Proof.
  destruct tries_counts_failures_only as [HQ [HD [HP _]]]. split; [|split].
  - apply (proj2 (HQ 50 "j1"%string "boom"%string true 5
                    [Sample.upload_job "j1" "processing" 2]
                    (Sample.upload_job "j1" "processing" 2) eq_refl)).
  - apply (HD 50 "j1"%string "boom"%string 110
              [Sample.download_job 1 "j1" "downloading" "w1" 40]
              (Sample.download_job 1 "j1" "downloading" "w1" 40) eq_refl).
  - apply (HP 50 "j1"%string "boom"%string
              [Sample.download_job 1 "j1" "downloading" "w1" 40]
              (Sample.download_job 1 "j1" "downloading" "w1" 40) eq_refl).
Defined.

(** ** C4: the backoff *)



Lemma mark_failed_requeued ts jid error max_tries t r :
  QueueStore.lookup jid t = Some r ->
  QueueStore.tries r + 1 < max_tries ->
  exists r',
    QueueStore.lookup jid (snd (QueueStore.mark_failed ts jid error true max_tries t)) = Some r'
    /\ QueueStore.tries r' = QueueStore.tries r + 1
    /\ QueueStore.status r' = "queued"%string
    /\ QueueStore.available_at r'
       = Some (ts + QueueStore._compute_backoff_seconds (QueueStore.tries r + 1)).
Proof.
  intros L Hlt. unfold QueueStore.mark_failed. rewrite L.
  apply Z.ltb_lt in Hlt. rewrite Hlt. simpl.
  rewrite QueueFacts.lookup_update by reflexivity. rewrite String.eqb_refl, L. simpl.
  eexists. split; [reflexivity|]. simpl. auto.
Qed.





(** ** C5: which jobs a reclaim reverts *)

Lemma older_than now T h : (h <? now - T) = (now - h >? T).
Proof.
  rewrite Z.gtb_ltb. destruct (Z.ltb_spec h (now - T)), (Z.ltb_spec T (now - h));
    try reflexivity; lia.
Qed.

Lemma upload_stale_overdue now T r :
  QueueStore.stale (now - T) r = upload_overdue now T r.
Proof.
  unfold QueueStore.stale, upload_overdue. f_equal.
  destruct (QueueStore.heartbeat_at r); simpl; [apply older_than|reflexivity].
Qed.

Lemma download_stale_overdue now T r :
  DownloadStore.stale (now - T) r = download_overdue now T r.
Proof.
  unfold DownloadStore.stale, download_overdue. f_equal. apply older_than.
Qed.

Lemma NoDup_map_filter {A K} (k : A -> K) (p : A -> bool) l :
  NoDup (map k l) -> NoDup (map k (filter p l)).
Proof.
  induction l as [|a l IH]; simpl; intros H; [constructor|].
  inversion H as [|? ? Hn Hd]; subst. destruct (p a); simpl; [|auto].
  constructor; [|auto]. intros Hin. apply Hn.
  apply in_map_iff in Hin. destruct Hin as [x [E Hx]].
  apply filter_In in Hx. rewrite <- E. apply in_map. tauto.
Qed.

(** The per-id UPDATEs of [reclaim_stale_processing] amount to one pass over
    the table when the ids of the selected rows are distinct. *)
Lemma reclaim_fold now rows n t :
  NoDup (map QueueStore.id rows) ->
  fold_left
    (fun acc r => (fst acc + 1,
                   update_where (QueueStore.has_id (QueueStore.id r))
                     (QueueStore.requeue_stale now) (snd acc)))
    rows (n, t)
  = (n + Z.of_nat (List.length rows),
     map (fun x => if existsb (fun r => String.eqb (QueueStore.id r) (QueueStore.id x)) rows
                   then QueueStore.requeue_stale now x else x) t).
Proof.
  revert n t; induction rows as [|a rows IH]; intros n t Hnd.
  - simpl. rewrite Z.add_0_r, map_id. reflexivity.
  - inversion Hnd as [|? ? Hna Hnd']; subst.
    cbn [fold_left fst snd]. rewrite IH by exact Hnd'. f_equal.
    + cbn [List.length]. lia.
    + unfold update_where. rewrite map_map. apply map_ext. intros x.
      cbn [existsb]. unfold QueueStore.has_id.
      rewrite (String.eqb_sym (QueueStore.id a) (QueueStore.id x)).
      destruct (String.eqb (QueueStore.id x) (QueueStore.id a)) eqn:E; simpl.
      * apply String.eqb_eq in E.
        destruct (existsb _ rows) eqn:Ex; [|reflexivity].
        apply existsb_exists in Ex. destruct Ex as [r [Hr Er]].
        apply String.eqb_eq in Er. simpl in Er. exfalso. apply Hna.
        rewrite <- E, <- Er. apply in_map. exact Hr.
      * reflexivity.
Qed.

Lemma selected_iff_stale cutoff t x :
  queue_wf t -> In x t ->
  existsb (fun r => String.eqb (QueueStore.id r) (QueueStore.id x))
    (filter (QueueStore.stale cutoff) t)
  = QueueStore.stale cutoff x.
Proof.
  intros Hwf Hx. destruct (QueueStore.stale cutoff x) eqn:S.
  - apply existsb_exists. exists x. split; [apply filter_In; auto|apply String.eqb_refl].
  - destruct (existsb _ _) eqn:Ex; [|reflexivity].
    apply existsb_exists in Ex. destruct Ex as [r [Hr Er]].
    apply filter_In in Hr. destruct Hr as [Hr Sr]. apply String.eqb_eq in Er.
    pose proof (QueueFacts.lookup_unique t r Hwf Hr) as L1.
    pose proof (QueueFacts.lookup_unique t x Hwf Hx) as L2.
    rewrite Er in L1. congruence.
Qed.

(** C5, as the specification words it, fails on the download queue: a job
    that was reclaimed and then set to [validating] by its former worker is
    active with [heartbeat_at = 0]; its heartbeat is as old as can be, and no
    reclaim reverts it. *)
Lemma reclaim_reverts_every_stale_download_fails :
  ~ Spec.reclaim_reverts_every_stale_download.
Proof.
  intros H.
  destruct (DownloadStore.get_job_by_job_id "a" Sample.orphaned_download) as [r|] eqn:G;
    [|vm_compute in G; discriminate].
  pose proof G as G0. vm_compute in G0. injection G0 as <-.
  destruct (H 2000 600 Sample.orphaned_download _
              (proj1 (DownloadFacts.get_In _ _ _ G)))
    as [r' [G' S]].
  - reflexivity.
  - simpl. lia.
  - vm_compute in G'. injection G' as <-. vm_compute in S. discriminate.
Qed.

(** C5, amended.  [reclaim_stale_processing] reverts exactly the
    [processing] jobs whose heartbeat is missing or more than [T] seconds
    old; [reclaim_stale_downloading] reverts exactly the [downloading] or
    [validating] jobs whose heartbeat is set (positive) and more than [T]
    seconds old.  A reverted job is [queued] with [available_at] a few seconds
    ahead (30, respectively 5), without owner, start time or heartbeat, and
    with its [tries]; every other row is left as it was; the number of
    reverted jobs is returned. *)
Theorem reclaim_reverts_exactly_overdue :
  (forall now T t,
      queue_wf t ->
      QueueStore.reclaim_stale_processing now T t
      = (Z.of_nat (List.length (filter (upload_overdue now T) t)),
         map (fun r => if upload_overdue now T r then QueueStore.requeue_stale now r else r) t))
  /\ (forall now r,
         let r' := QueueStore.requeue_stale now r in
         QueueStore.id r' = QueueStore.id r
         /\ QueueStore.status r' = "queued"%string
         /\ QueueStore.available_at r' = Some (now + 30)
         /\ QueueStore.worker_id r' = None
         /\ QueueStore.processing_started_at r' = None
         /\ QueueStore.heartbeat_at r' = None
         /\ QueueStore.tries r' = QueueStore.tries r)
  /\ (forall now T t,
         DownloadStore.reclaim_stale_downloading now T t
         = (Z.of_nat (List.length (filter (download_overdue now T) t)),
            map (fun r => if download_overdue now T r
                          then DownloadStore.requeue_stale now r else r) t))
  /\ (forall now r,
         let r' := DownloadStore.requeue_stale now r in
         DownloadStore.job_id r' = DownloadStore.job_id r
         /\ DownloadStore.status r' = "queued"%string
         /\ DownloadStore.available_at r' = now + 5
         /\ DownloadStore.worker_id r' = EmptyString
         /\ DownloadStore.processing_started_at r' = 0
         /\ DownloadStore.heartbeat_at r' = 0
         /\ DownloadStore.tries r' = DownloadStore.tries r).
Proof.
  split; [|split; [|split]].
  - intros now T t Hwf. unfold QueueStore.reclaim_stale_processing. cbv zeta.
    rewrite reclaim_fold by (apply NoDup_map_filter; exact Hwf).
    rewrite (filter_ext _ _ (upload_stale_overdue now T)). f_equal.
    apply map_ext_in. intros x Hx.
    rewrite <- (filter_ext _ _ (upload_stale_overdue now T)).
    rewrite (selected_iff_stale _ t x Hwf Hx), upload_stale_overdue. reflexivity.
  - intros now r r'. unfold r'. simpl. repeat split.
  - intros now T t. unfold DownloadStore.reclaim_stale_downloading. cbv zeta.
    rewrite (filter_ext _ _ (download_stale_overdue now T)). f_equal.
    unfold update_where. apply map_ext. intros r.
    rewrite download_stale_overdue. reflexivity.
  - intros now r r'. unfold r'. simpl. repeat split.
Qed.

(** C5 at work: of three upload jobs — one with an old heartbeat, one with a
    fresh heartbeat, one queued — only the first is reverted. *)
Lemma reclaim_reverts_exactly_overdue_witness :
  let old := QueueStore.mkJob "a" "o" "/d" "{}" "processing" 0 None 10 10 None
               (Some 100) (Some "w1"%string) (Some 100) in
  let fresh := QueueStore.mkJob "b" "o" "/d" "{}" "processing" 0 None 11 11 None
                 (Some 900) (Some "w2"%string) (Some 900) in
  let waiting := Sample.upload_job "c" "queued" 0 in
  QueueStore.reclaim_stale_processing 1000 600 [old; fresh; waiting]
  = (1, [QueueStore.requeue_stale 1000 old; fresh; waiting]).
Proof.
  intros old fresh waiting.
  rewrite (proj1 reclaim_reverts_exactly_overdue 1000 600 [old; fresh; waiting]).
  - reflexivity.
  - unfold queue_wf. simpl. repeat constructor; simpl; intuition discriminate.
Defined.

(** ** C10: completing a job *)

(** C10, as the specification words it, fails on the download queue: a job
    claimed by [w1] and then completed still names [w1] as its owner and
    keeps its heartbeat. *)
Lemma mark_done_clears_owner_download_fails : ~ Spec.mark_done_clears_owner_download.
Proof.
  intros H.
  destruct (DownloadStore.get_job_by_job_id "a" Sample.claimed_download) as [r|] eqn:G;
    [|vm_compute in G; discriminate].
  destruct (H 50 "a"%string "{}"%string "{}"%string Sample.claimed_download r G)
    as [r' [G' [_ [W _]]]].
  vm_compute in G'. injection G' as <-. vm_compute in W. discriminate.
Qed.

(** C10, amended.  [mark_done] has no precondition on status or owner, on
    either queue.  [QueueStore.mark_done] sets [done] and clears
    [worker_id], [heartbeat_at] and [processing_started_at];
    [DownloadQueueStore.mark_done] sets [done] and the state [completed] and
    stores result and summary, and leaves [worker_id], [heartbeat_at] and
    [processing_started_at] as they were. *)
Theorem mark_done_unconditional :
  (forall ts jid t r,
      QueueStore.lookup jid t = Some r ->
      QueueStore.lookup jid (QueueStore.mark_done ts jid t)
      = Some (QueueStore.mkJob (QueueStore.id r) (QueueStore.obra_nome r) (QueueStore.pasta r)
                (QueueStore.payload_json r) "done" (QueueStore.tries r)
                (QueueStore.last_error r) (QueueStore.created_at r) ts
                (QueueStore.available_at r) None None None))
  /\
  (forall now jid result summary t r,
      DownloadStore.get_job_by_job_id jid t = Some r ->
      exists r',
        DownloadStore.get_job_by_job_id jid (DownloadStore.mark_done now jid result summary t)
        = Some r'
        /\ DownloadStore.status r' = "done"%string
        /\ DownloadStore.state r' = "completed"%string
        /\ DownloadStore.result_json r' = result
        /\ DownloadStore.summary_json r' = summary
        /\ DownloadStore.worker_id r' = DownloadStore.worker_id r
        /\ DownloadStore.heartbeat_at r' = DownloadStore.heartbeat_at r
        /\ DownloadStore.processing_started_at r' = DownloadStore.processing_started_at r
        /\ DownloadStore.tries r' = DownloadStore.tries r).
Proof.
  split.
  - intros ts jid t r L. unfold QueueStore.mark_done.
    rewrite QueueFacts.lookup_update by reflexivity.
    rewrite String.eqb_refl, L. reflexivity.
  - intros now jid result summary t r G. unfold DownloadStore.mark_done.
    rewrite DownloadFacts.get_update by reflexivity. rewrite G. simpl.
    destruct (DownloadFacts.get_In _ _ _ G) as [_ E].
    unfold DownloadStore.has_job_id at 1. rewrite E, String.eqb_refl.
    eexists. split; [reflexivity|]. simpl. repeat split.
Qed.

(** C10 at work.  Worker [w1] claims job ["a"] and goes silent; the job is
    reclaimed and claimed again by [w2]; a late [mark_done] from [w1] still
    completes it.  On the download queue a completed job keeps its owner. *)
Lemma mark_done_unconditional_witness :
  (let t := QueueOps.run
              [QueueOps.Enqueue 10 "a" "obra-a" "/d/a" "{}";
               QueueOps.ClaimNext 20 (Some "w1"%string) EmptyString;
               QueueOps.ReclaimStale 1000 600;
               QueueOps.ClaimNext 1100 (Some "w2"%string) EmptyString] [] in
   option_map QueueStore.worker_id (QueueStore.lookup "a" t) = Some (Some "w2"%string)
   /\ option_map (fun r => (QueueStore.status r, QueueStore.worker_id r))
        (QueueStore.lookup "a" (QueueStore.mark_done 1200 "a" t))
      = Some ("done"%string, None))
  /\ option_map (fun r => (DownloadStore.status r, DownloadStore.worker_id r))
       (DownloadStore.get_job_by_job_id "j1"
          (DownloadStore.mark_done 50 "j1" "{}" "{}"
             [Sample.download_job 1 "j1" "queued" "w9" 40]))
     = Some ("done"%string, "w9"%string).
Proof.
  destruct mark_done_unconditional as [HQ HD]. split.
  - intros t. split; [reflexivity|].
    destruct (QueueStore.lookup "a" t) as [r|] eqn:L; [|vm_compute in L; discriminate].
    rewrite (HQ 1200 "a"%string t r L). reflexivity.
  - destruct (HD 50 "j1"%string "{}"%string "{}"%string
                [Sample.download_job 1 "j1" "queued" "w9" 40]
                (Sample.download_job 1 "j1" "queued" "w9" 40) eq_refl)
      as [r' [G [S [_ [_ [_ [W _]]]]]]].
    rewrite G. simpl. rewrite S, W. reflexivity.
Defined.

(** ** C8: the chapter label *)

(** C8.  With the thresholds 3 (ok) and 1 (partial), a chapter with [n]
    extracted images is [ok] from three images on, [partial] with one or two
    and [broken] with none; the counts 0, 1, 2, 3, 5 give broken, partial,
    partial, ok, ok. *)
Theorem classify_thresholds :
  (forall n, 3 <= n -> classify 3 1 n = "ok"%string)
  /\ (forall n, 1 <= n < 3 -> classify 3 1 n = "partial"%string)
  /\ (forall n, n < 1 -> classify 3 1 n = "broken"%string)
  /\ map (classify 3 1) [0; 1; 2; 3; 5]
     = ["broken"; "partial"; "partial"; "ok"; "ok"]%string.
Proof.
  unfold classify. repeat split.
  - intros n H. rewrite Z.geb_leb. apply Z.leb_le in H. rewrite H. reflexivity.
  - intros n [H1 H2]. rewrite !Z.geb_leb.
    destruct (Z.leb_spec 3 n); [lia|]. destruct (Z.leb_spec 1 n); [reflexivity|lia].
  - intros n H. rewrite !Z.geb_leb.
    destruct (Z.leb_spec 3 n); [lia|]. destruct (Z.leb_spec 1 n); [lia|reflexivity].
Qed.

(** C8 at work on the counts 7, 2 and 0. *)
Lemma classify_thresholds_witness :
  classify 3 1 7 = "ok"%string
  /\ classify 3 1 2 = "partial"%string
  /\ classify 3 1 0 = "broken"%string.
Proof.
  destruct classify_thresholds as [Hok [Hpartial [Hbroken _]]]. split; [|split].
  - apply Hok. lia.
  - apply Hpartial. lia.
  - apply Hbroken. lia.
Defined.

(** ** C7: the bounded-retry fetch *)

Module FetchFacts.
Import Fetch.

Lemma append_length (a b : string) :
  String.length (a ++ b) = (String.length a + String.length b)%nat.
Proof. induction a as [|c a IH]; simpl; [reflexivity|rewrite IH; reflexivity]. Qed.

(** The temporary sibling is another path than the destination. *)
Lemma tmp_differs filepath : String.eqb filepath (tmp_of filepath) = false.
Proof.
  apply String.eqb_neq. intros E. apply (f_equal String.length) in E.
  unfold tmp_of in E. rewrite append_length in E. simpl in E. lia.
Qed.

Lemma tmp_differs' filepath : String.eqb (tmp_of filepath) filepath = false.
Proof. rewrite String.eqb_sym. apply tmp_differs. Qed.

Lemma same_elsewhere_refl filepath s : same_elsewhere filepath s s.
Proof. intros p _ _. reflexivity. Qed.

Lemma same_elsewhere_trans filepath s1 s2 s3 :
  same_elsewhere filepath s1 s2 -> same_elsewhere filepath s2 s3 ->
  same_elsewhere filepath s1 s3.
Proof. intros H1 H2 p Hp Ht. rewrite H2, H1 by assumption. reflexivity. Qed.

Lemma write_tmp filepath n s :
  write_file (tmp_of filepath) n s filepath = s filepath
  /\ write_file (tmp_of filepath) n s (tmp_of filepath) = Some n
  /\ same_elsewhere filepath s (write_file (tmp_of filepath) n s).
Proof.
  unfold write_file. rewrite tmp_differs, String.eqb_refl.
  split; [reflexivity|]. split; [reflexivity|].
  intros p _ Ht. apply String.eqb_neq in Ht. rewrite Ht. reflexivity.
Qed.

(** An attempt that returns [True] has renamed a non-empty temporary file
    onto the destination. *)
Lemma try_block_success e filepath s s' :
  try_block e filepath s = inr s' ->
  (exists n, n <> 0 /\ s' filepath = Some n)
  /\ s' (tmp_of filepath) = None
  /\ same_elsewhere filepath s s'.
Proof.
  unfold try_block. destruct (http e) as [|status_ok ct chunks stream_ok]; [discriminate|].
  destruct status_ok; simpl; [|discriminate].
  destruct (prefix "image/" ct); simpl; [|discriminate].
  destruct (open_ok e); simpl; [|discriminate].
  destruct stream_ok; simpl; [|discriminate].
  destruct (total_size chunks =? 0) eqn:Z0; [discriminate|].
  destruct (rename_ok e); [|discriminate].
  intros H. injection H as <-. apply Z.eqb_neq in Z0.
  unfold rename_file, write_file.
  rewrite tmp_differs, !String.eqb_refl. split; [|split].
  - exists (total_size chunks). auto.
  - reflexivity.
  - intros p Hp Ht. apply String.eqb_neq in Hp, Ht. rewrite Ht, Hp. reflexivity.
Qed.

(** An attempt that raises has touched nothing but the temporary file. *)
Lemma try_block_failure e filepath s s' :
  try_block e filepath s = inl s' ->
  s' filepath = s filepath /\ same_elsewhere filepath s s'.
Proof.
  pose proof (same_elsewhere_refl filepath s) as R.
  unfold try_block. destruct (http e) as [|status_ok ct chunks stream_ok].
  { intros H; injection H as <-; auto. }
  destruct status_ok; simpl; [|intros H; injection H as <-; auto].
  destruct (prefix "image/" ct); simpl; [|intros H; injection H as <-; auto].
  destruct (open_ok e); simpl; [|intros H; injection H as <-; auto].
  destruct (write_tmp filepath (total_size chunks) s) as [W1 [_ W3]].
  destruct stream_ok; simpl; [|intros H; injection H as <-; auto].
  destruct (total_size chunks =? 0); [intros H; injection H as <-; auto|].
  destruct (rename_ok e); [discriminate|intros H; injection H as <-; auto].
Qed.

Lemma except_block_spec e filepath s :
  except_block e filepath s filepath = s filepath
  /\ same_elsewhere filepath s (except_block e filepath s)
  /\ (remove_ok e = true -> except_block e filepath s (tmp_of filepath) = None).
Proof.
  unfold except_block. destruct (s (tmp_of filepath)) eqn:T.
  - destruct (remove_ok e); unfold remove_file.
    + rewrite tmp_differs, String.eqb_refl. split; [reflexivity|]. split; [|reflexivity].
      intros p _ Ht. apply String.eqb_neq in Ht. rewrite Ht. reflexivity.
    + split; [reflexivity|]. split; [apply same_elsewhere_refl|discriminate].
  - split; [reflexivity|]. split; [apply same_elsewhere_refl|auto].
Qed.

(** The loop over the attempts. *)
Lemma attempts_spec k : forall attempt env filepath s,
  let r := attempts k attempt env filepath s in
  (fst r = true ->
   (exists n, n <> 0 /\ snd r filepath = Some n) /\ snd r (tmp_of filepath) = None)
  /\ (fst r = false ->
      snd r filepath = s filepath
      /\ (k <> O -> remove_ok (env (attempt + Z.of_nat k - 1)) = true ->
          snd r (tmp_of filepath) = None))
  /\ same_elsewhere filepath s (snd r).
Proof.
  induction k as [|k IH]; intros attempt env filepath s; cbn [attempts].
  - cbv zeta. simpl. split; [discriminate|]. split; [|apply same_elsewhere_refl].
    intros _. split; [reflexivity|]. intros H; contradiction.
  - destruct (try_block (env attempt) filepath s) as [s1|s1] eqn:T.
    + destruct (try_block_failure _ _ _ _ T) as [F1 F2].
      destruct (except_block_spec (env attempt) filepath s1) as [E1 [E2 E3]].
      specialize (IH (attempt + 1) env filepath (except_block (env attempt) filepath s1)).
      cbv zeta in IH |- *. destruct IH as [IH1 [IH2 IH3]].
      split; [exact IH1|]. split.
      * intros Hf. destruct (IH2 Hf) as [D1 D2]. split; [congruence|].
        intros _ Hrm. destruct k as [|k'].
        -- simpl in *. replace (attempt + 1 - 1) with attempt in Hrm by lia. auto.
        -- apply D2; [discriminate|].
           replace (attempt + 1 + Z.of_nat (S k') - 1)
             with (attempt + Z.of_nat (S (S k')) - 1) by lia.
           exact Hrm.
      * eapply same_elsewhere_trans; [exact F2|].
        eapply same_elsewhere_trans; [exact E2|exact IH3].
    + destruct (try_block_success _ _ _ _ T) as [S1 [S2 S3]].
      cbv zeta. simpl. split; [auto|]. split; [discriminate|exact S3].
Qed.

Lemma attempts_all_fail k : forall attempt env filepath s,
  (forall n s0, attempt <= n < attempt + Z.of_nat k ->
                exists s1, try_block (env n) filepath s0 = inl s1) ->
  fst (attempts k attempt env filepath s) = false.
Proof.
  induction k as [|k IH]; intros attempt env filepath s H; cbn [attempts]; [reflexivity|].
  destruct (H attempt s ltac:(lia)) as [s1 E]. rewrite E.
  apply IH. intros n s0 Hn. apply H. lia.
Qed.

End FetchFacts.

(** C7, as the specification words it, fails: an empty file that is already
    at the destination (the caller downloads exactly when the file is
    missing or empty) is still there after three failed attempts. *)
Lemma fetch_leaves_no_partial_artifact_fails : ~ Spec.fetch_leaves_no_partial_artifact.
Proof.
  intros H.
  destruct (H (fun _ => Fetch.mkEnv Fetch.ConnError true true true)
              "cap_001/001.jpg"%string 3
              (fun p => if String.eqb p "cap_001/001.jpg" then Some 0 else None))
    as [D _].
  apply D. reflexivity.
Qed.

(** C7, amended.  [download_with_retry] always returns a boolean.  When it
    returns [True] the destination holds a non-empty file and the temporary
    sibling is gone.  When it returns [False] the destination is exactly as
    it was before the call, and the temporary sibling is gone provided at
    least one attempt was made and the last [os.remove] did not fail.  It
    returns [False] when every one of the [max_retries] attempts fails.  No
    other path is touched. *)
Theorem download_with_retry_outcome :
  forall env filepath max_retries s,
    let r := Fetch.download_with_retry env filepath max_retries s in
    (fst r = true ->
     (exists n, n <> 0 /\ snd r filepath = Some n)
     /\ snd r (Fetch.tmp_of filepath) = None)
    /\ (fst r = false ->
        snd r filepath = s filepath
        /\ (1 <= max_retries -> Fetch.remove_ok (env max_retries) = true ->
            snd r (Fetch.tmp_of filepath) = None))
    /\ ((forall n s0, 1 <= n <= max_retries ->
                      exists s1, Fetch.try_block (env n) filepath s0 = inl s1) ->
        fst r = false)
    /\ (forall p, p <> filepath -> p <> Fetch.tmp_of filepath -> snd r p = s p).
Proof.
  intros env filepath max_retries s r. unfold r, Fetch.download_with_retry.
  destruct (FetchFacts.attempts_spec (Z.to_nat max_retries) 1 env filepath s)
    as [H1 [H2 H3]].
  split; [exact H1|]. split; [|split; [|exact H3]].
  - intros Hf. destruct (H2 Hf) as [D1 D2]. split; [exact D1|].
    intros Hm Hrm. apply D2.
    + intros E. apply (f_equal Z.of_nat) in E. rewrite Z2Nat.id in E by lia. simpl in E. lia.
    + rewrite Z2Nat.id by lia. replace (1 + max_retries - 1) with max_retries by lia.
      exact Hrm.
  - intros Hall. apply FetchFacts.attempts_all_fail.
    intros n s0 Hn. apply Hall.
    lia.
Qed.

(** C7 at work: the first attempt receives an empty body, the second one
    4096 + 904 bytes; the call returns [True], the destination holds 5000
    bytes and the temporary file is gone.  With three refused connections the
    call returns [False] and creates nothing. *)
Lemma download_with_retry_outcome_witness :
  (let env n := if n =? 1
                then Fetch.mkEnv (Fetch.Response true "image/jpeg" [] true) true true true
                else Fetch.mkEnv (Fetch.Response true "image/jpeg" [4096; 904] true)
                       true true true in
   let r := Fetch.download_with_retry env "cap_001/001.jpg" 3 (fun _ => None) in
   fst r = true
   /\ snd r "cap_001/001.jpg"%string = Some 5000
   /\ snd r (Fetch.tmp_of "cap_001/001.jpg") = None)
  /\
  (let env (n : Z) := Fetch.mkEnv Fetch.ConnError true true true in
   let r := Fetch.download_with_retry env "cap_001/001.jpg" 3 (fun _ => None) in
   fst r = false
   /\ snd r "cap_001/001.jpg"%string = None
   /\ snd r (Fetch.tmp_of "cap_001/001.jpg") = None).
Proof.
  split.
  - intros env r. split; [reflexivity|]. split; [reflexivity|].
    apply (proj1 (download_with_retry_outcome env "cap_001/001.jpg"%string 3
                    (fun _ => None))). reflexivity.
  - intros env r.
    destruct (download_with_retry_outcome env "cap_001/001.jpg"%string 3 (fun _ => None))
      as [_ [HF [HA _]]].
    assert (F : fst r = false).
    { apply HA. intros n s0 _. exists s0. reflexivity. }
    split; [exact F|]. destruct (HF F) as [D T]. split; [exact D|].
    apply T; [lia|reflexivity].
Defined.

(** ** C6: the hand-over to the upload queue *)

(** C6 evaluated on the code.  (1) Scenario A completes with five chapters
    and the progress record deleted, and [adicionar_fila_upload] has been
    called twice: once behind the [upload_enqueued] flag after the first
    chapter, once without any guard on the completion path; the upload queue
    holds one row only because the job id is the same.  (2) With
    [batch_size = 2] the work is finished by a continuation job under another
    id, whose completion path hands the work over again: the upload queue
    holds two jobs for the same work.  (3) A resumed run that finds the flag
    set still hands the work over on completion and puts the job the upload
    worker is processing back to [queued]. *)
Theorem upload_handoff_repeats :
  (exists res w,
      Crawl.run_download_bot Scenario.env 100 20 Scenario.job_a Scenario.empty_world
      = Some (res, w)
      /\ Crawl.r_capitulos res = 5
      /\ Crawl.r_stopped_reason res = None
      /\ Crawl.progress_file w "obra"%string = None
      /\ Crawl.handoffs w = ["J1"; "J1"]%string
      /\ map QueueStore.id (Crawl.upload_queue w) = ["J1"]%string)
  /\ (exists w,
         Scenario.worker_passes 3 Scenario.batch_world = Some w
         /\ map DownloadStore.status (Crawl.download_queue w) = ["done"; "done"; "done"]%string
         /\ Crawl.handoffs w = ["J1"; "J1-cont-100-cont-100"]%string
         /\ map (fun r => (QueueStore.id r, QueueStore.obra_nome r)) (Crawl.upload_queue w)
            = [("J1", "obra"); ("J1-cont-100-cont-100", "obra")]%string)
  /\ (exists res w,
         Crawl.run_download_bot Scenario.env 200 20 Scenario.job_a Scenario.resumed_world
         = Some (res, w)
         /\ Crawl.r_capitulos res = 5
         /\ Crawl.handoffs w = ["J1"; "J1"]%string
         /\ map (fun r => (QueueStore.id r, QueueStore.status r)) (Crawl.upload_queue w)
            = [("J1", "queued")]%string).
Proof.
  split; [|split].
  - eexists. eexists. split; [vm_compute; reflexivity|]. repeat split.
  - eexists. split; [vm_compute; reflexivity|]. repeat split.
  - eexists. eexists. split; [vm_compute; reflexivity|]. repeat split.
Qed.

(** ** C9: the keys of the visited set *)

Module UrlFacts.
Import Url.
Local Open Scope string_scope.


Lemma append_nil_r (a : string) : a ++ EmptyString = a.
Proof. induction a as [|x a IH]; simpl; [reflexivity|rewrite IH; reflexivity]. Qed.

Lemma exists_char_append d a b :
  exists_char d (a ++ b) = exists_char d a || exists_char d b.
Proof.
  induction a as [|x a IH]; simpl; [reflexivity|].
  rewrite IH. apply orb_assoc.
Qed.



(** [break_at] cuts [s] in front of the first character satisfying [d]. *)
Lemma break_at_spec d s :
  s = fst (break_at d s) ++ snd (break_at d s)
  /\ exists_char d (fst (break_at d s)) = false
  /\ headed d (snd (break_at d s)).
Proof.
  induction s as [|x s IH]; simpl; [auto|].
  destruct (d x) eqn:D; simpl; [auto|].
  destruct (break_at d s) as [a b]. simpl in *. destruct IH as [E [N H]].
  rewrite D, N, <- E. auto.
Qed.















(** *** No fragment in a key *)










(** *** Tracking parameters *)




(** *** The pairs of a query *)









End UrlFacts.




(** * Further properties of the stores *)

Section MoreSqlFacts.
Context {Row : Type}.
Implicit Types (t : list Row) (p q : Row -> bool) (f g : Row -> Row).

Lemma first_min_none (key : Row -> Z) t : first_min key t = None <-> t = [].
Proof.
  split; [|intros ->; reflexivity].
  destruct t as [|a t]; [reflexivity|]. simpl.
  destruct (first_min key t) as [m|]; [destruct (key a <=? key m)|]; discriminate.
Qed.

Lemma first_min_le (key : Row -> Z) t m :
  first_min key t = Some m -> forall r, In r t -> key m <= key r.
Proof.
  revert m; induction t as [|a t IH]; simpl; intros m H r Hr; [contradiction|].
  destruct (first_min key t) as [m'|] eqn:F.
  - specialize (IH m' eq_refl).
    destruct (Z.leb_spec (key a) (key m')); injection H as <-.
    + destruct Hr as [->|Hr]; [lia|]. specialize (IH r Hr). lia.
    + destruct Hr as [->|Hr]; [lia|]. apply IH; exact Hr.
  - injection H as <-. apply first_min_none in F. subst t.
    destruct Hr as [->|[]]. lia.
Qed.

Lemma filter_nil_iff p t : filter p t = [] <-> forall r, In r t -> p r = false.
Proof.
  induction t as [|a t IH]; simpl; [tauto|]. destruct (p a) eqn:E.
  - split; [discriminate|]. intros H. specialize (H a (or_introl eq_refl)). congruence.
  - rewrite IH. split; [intros H r [<-|Hr]; auto|intros H r Hr; auto].
Qed.

Lemma find_app_none q t l : find q t = None -> find q (t ++ l) = find q l.
Proof.
  induction t as [|a t IH]; simpl; [reflexivity|].
  destruct (q a); [discriminate|exact IH].
Qed.

Lemma find_app_some q t l r : find q t = Some r -> find q (t ++ l) = Some r.
Proof.
  induction t as [|a t IH]; simpl; [discriminate|].
  destruct (q a); [auto|exact IH].
Qed.

Lemma find_in_some q t r : In r t -> q r = true -> find q t <> None.
Proof. intros Hin Hq F. pose proof (find_none _ _ F r Hin). congruence. Qed.

End MoreSqlFacts.

Module QueueMore.
Import QueueStore QueueOps.

(** The row written by a claim. *)
Lemma queue_claim_row ts worker uuid t j t' :
  queue_wf t ->
  claim_next ts worker uuid t = (Some j, t') ->
  exists row,
    first_min created_at (filter (claimable ts) t) = Some row
    /\ In row t /\ claimable ts row = true
    /\ id j = id row /\ created_at j = created_at row.
Proof.
  intros Hwf H. unfold claim_next in H. cbv zeta in H.
  destruct (first_min created_at (filter (claimable ts) t)) as [row|] eqn:F;
    [|inversion H].
  pose proof (first_min_In _ _ _ F) as Hin. apply filter_In in Hin.
  destruct Hin as [Hin Hc].
  rewrite QueueFacts.lookup_update in H by reflexivity. rewrite String.eqb_refl in H.
  rewrite (QueueFacts.lookup_unique t row Hwf Hin) in H. simpl in H.
  injection H as Hj Ht. subst j. exists row. auto.
Qed.

Lemma queue_claim_none ts worker uuid t :
  fst (claim_next ts worker uuid t) = None
  <-> filter (claimable ts) t = [].
Proof.
  unfold claim_next. cbv zeta.
  destruct (first_min created_at (filter (claimable ts) t)) as [row|] eqn:F.
  - split.
    + simpl. rewrite QueueFacts.lookup_update by reflexivity. rewrite String.eqb_refl.
      apply first_min_In in F. apply filter_In in F. destruct F as [Hin _].
      destruct (lookup (id row) t) eqn:L; [discriminate|].
      exfalso. unfold lookup, select_one in L.
      apply (find_in_some (has_id (id row)) t row Hin); [|exact L].
      unfold has_id. apply String.eqb_refl.
    + intros E. rewrite E in F. discriminate.
  - apply first_min_none in F. tauto.
Qed.

(** Reading a row after a reclaim. *)
Lemma queue_reclaim_map now T t :
  queue_wf t ->
  snd (reclaim_stale_processing now T t)
  = map (fun x => if stale (now - T) x then requeue_stale now x else x) t.
Proof.
  intros Hwf. unfold reclaim_stale_processing. cbv zeta.
  rewrite reclaim_fold by (apply NoDup_map_filter; exact Hwf). simpl.
  apply map_ext_in. intros x Hx. rewrite selected_iff_stale by assumption. reflexivity.
Qed.

Lemma queue_reclaim_lookup now T jid t :
  queue_wf t ->
  lookup jid (snd (reclaim_stale_processing now T t))
  = option_map (fun x => if stale (now - T) x then requeue_stale now x else x)
      (lookup jid t).
Proof.
  intros Hwf. rewrite queue_reclaim_map by exact Hwf.
  unfold lookup, select_one. apply find_map_preserve.
  intros r. destruct (stale (now - T) r); reflexivity.
Qed.

Lemma queue_heartbeat_lookup ts jid wid jid' t :
  lookup jid' (heartbeat ts jid wid t)
  = option_map
      (fun r => if has_id jid r
                   && match worker_id r with Some w => String.eqb w wid | None => false end
                   && String.eqb (status r) "processing"
                then mkJob (id r) (obra_nome r) (pasta r) (payload_json r) (status r)
                       (tries r) (last_error r) (created_at r) ts (available_at r)
                       (processing_started_at r) (worker_id r) (Some ts)
                else r)
      (lookup jid' t).
Proof.
  unfold heartbeat, lookup, select_one. apply find_update_where. reflexivity.
Qed.

(** A claim leaves alone every row that is not due. *)
Lemma queue_claim_other ts worker uuid t jid r :
  queue_wf t -> lookup jid t = Some r -> claimable ts r = false ->
  lookup jid (snd (claim_next ts worker uuid t)) = Some r.
Proof.
  intros Hwf L Hc. destruct (claim_next ts worker uuid t) as [[j|] t'] eqn:C.
  - destruct (QueueFacts.queue_claim_next_spec _ _ _ _ _ _ Hwf C)
      as [r0 [L0 [Hs [Ha [_ [_ [_ [_ [_ Hrest]]]]]]]]].
    simpl. rewrite Hrest; [exact L|].
    intros E. subst jid. rewrite L in L0. injection L0 as <-.
    unfold claimable in Hc. rewrite Hs, Ha in Hc. discriminate.
  - unfold claim_next in C. cbv zeta in C.
    destruct (first_min created_at (filter (claimable ts) t)); [|injection C as <-; exact L].
    rewrite QueueFacts.lookup_update in C by reflexivity.
    rewrite String.eqb_refl in C. injection C as C1 <-. simpl.
    rewrite QueueFacts.lookup_update by reflexivity.
    destruct (String.eqb jid (id j)) eqn:E; [|exact L].
    apply String.eqb_eq in E. subst jid. rewrite L in C1. discriminate.
Qed.

End QueueMore.

Module DownloadMore.
Import DownloadStore DownloadOps.

Lemma download_claim_row now wid t j t' :
  download_wf t ->
  claim_next now wid t = (Some j, t') ->
  exists row,
    first_min created_at (filter (claimable now) t) = Some row
    /\ In row t /\ claimable now row = true
    /\ job_id j = job_id row /\ created_at j = created_at row.
Proof.
  intros [Hid Hjid] H. unfold claim_next in H.
  destruct (first_min created_at (filter (claimable now) t)) as [row|] eqn:F;
    [|inversion H].
  pose proof (first_min_In _ _ _ F) as Hin. apply filter_In in Hin.
  destruct Hin as [Hin Hc]. cbv zeta in H.
  set (hit := fun r : DownloadJob => (id r =? id row) && String.eqb (status r) "queued") in *.
  destruct (select_one hit t) as [r0|] eqn:S; [|discriminate].
  unfold select_one in S. apply find_some in S. destruct S as [Hin0 H0].
  unfold hit in H0. apply andb_prop in H0. destruct H0 as [H0 _]. apply Z.eqb_eq in H0.
  assert (r0 = row) by (apply (DownloadFacts.same_rowid t); auto). subst r0.
  simpl in H. injection H as Hj Ht. subst j. exists row. auto.
Qed.

Lemma download_claim_none now wid t :
  fst (claim_next now wid t) = None <-> filter (claimable now) t = [].
Proof.
  unfold claim_next.
  destruct (first_min created_at (filter (claimable now) t)) as [row|] eqn:F.
  - split.
    + cbv zeta. simpl.
      apply first_min_In in F. apply filter_In in F. destruct F as [Hin Hc].
      unfold claimable in Hc. apply andb_prop in Hc. destruct Hc as [Hq _].
      match goal with |- option_map _ (select_one ?h t) = None -> _ => set (hit := h) end.
      destruct (select_one hit t) eqn:S; [discriminate|]. exfalso.
      apply (find_in_some hit t row Hin); [|exact S].
      unfold hit. rewrite Z.eqb_refl, Hq. reflexivity.
    + intros E. rewrite E in F. discriminate.
  - apply first_min_none in F. tauto.
Qed.

(** A claim leaves alone every row that is not due. *)
Lemma download_claim_other now wid t jid r :
  download_wf t -> get_job_by_job_id jid t = Some r -> claimable now r = false ->
  get_job_by_job_id jid (snd (claim_next now wid t)) = Some r.
Proof.
  intros Hwf L Hc. destruct (claim_next now wid t) as [[j|] t'] eqn:C.
  - destruct (DownloadFacts.download_claim_next_spec _ _ _ _ _ Hwf C)
      as [r0 [L0 [Hs [Ha [_ [_ [_ [_ [_ Hrest]]]]]]]]].
    simpl. rewrite Hrest; [exact L|].
    intros E. subst jid. rewrite L in L0. injection L0 as <-.
    unfold claimable in Hc. rewrite Hs in Hc. apply Z.leb_le in Ha.
    rewrite Ha in Hc. discriminate.
  - pose proof (proj1 (download_claim_none now wid t)) as N. rewrite C in N.
    specialize (N eq_refl). unfold claim_next in C. rewrite N in C. simpl in C.
    injection C as <-. exact L.
Qed.

Lemma download_reclaim_get now T jid t :
  get_job_by_job_id jid (snd (reclaim_stale_downloading now T t))
  = option_map (fun x => if stale (now - T) x then requeue_stale now x else x)
      (get_job_by_job_id jid t).
Proof.
  unfold reclaim_stale_downloading. cbv zeta. simpl.
  apply DownloadFacts.get_update. reflexivity.
Qed.

End DownloadMore.

(** X1.  Starting from empty tables, whatever calls of the two stores are
    made and in whatever order, the primary key [id] of table [jobs], the
    rowid of table [download_jobs] and its [job_id] stay unique, and every
    stored row is the one that a lookup by its key returns. *)
Theorem job_keys_stay_unique (qops : list QueueOps.op) (dops : list DownloadOps.op) :
  (queue_wf (QueueOps.run qops [])
   /\ forall r, In r (QueueOps.run qops []) ->
                QueueStore.lookup (QueueStore.id r) (QueueOps.run qops []) = Some r)
  /\ (download_wf (DownloadOps.run dops [])
      /\ forall r, In r (DownloadOps.run dops []) ->
                   DownloadStore.get_job_by_job_id (DownloadStore.job_id r)
                     (DownloadOps.run dops []) = Some r).
Proof.
  assert (Q : queue_wf (QueueOps.run qops [])).
  { apply QueueFacts.queue_run_wf. constructor. }
  assert (D : download_wf (DownloadOps.run dops [])).
  { apply DownloadFacts.download_run_wf. split; constructor. }
  split; split; auto.
  - intros r Hr. apply QueueFacts.lookup_unique; assumption.
  - intros r Hr. apply DownloadFacts.get_unique; [apply D|exact Hr].
Qed.

(** X2.  [claim_next] returns no job exactly when no queued job is due, and
    then it leaves the table as it was; on the download queue this is
    exactly when [count_queued_ready] is zero. *)
Theorem claim_next_none_iff_nothing_due :
  (forall ts worker uuid t,
      (fst (QueueStore.claim_next ts worker uuid t) = None
       <-> forall r, In r t -> QueueStore.claimable ts r = false)
      /\ (fst (QueueStore.claim_next ts worker uuid t) = None ->
          snd (QueueStore.claim_next ts worker uuid t) = t))
  /\ (forall now wid t,
         (fst (DownloadStore.claim_next now wid t) = None
          <-> DownloadCounts.count_queued_ready now t = 0)
         /\ (fst (DownloadStore.claim_next now wid t) = None ->
             snd (DownloadStore.claim_next now wid t) = t)).
Proof.
  split.
  - intros ts worker uuid t. split.
    + rewrite QueueMore.queue_claim_none. apply filter_nil_iff.
    + intros H. apply QueueMore.queue_claim_none in H.
      unfold QueueStore.claim_next. rewrite H. reflexivity.
  - intros now wid t. split.
    + rewrite DownloadMore.download_claim_none. unfold DownloadCounts.count_queued_ready.
      destruct (filter (DownloadStore.claimable now) t); simpl; split;
        try reflexivity; try discriminate; lia.
    + intros H. apply DownloadMore.download_claim_none in H.
      unfold DownloadStore.claim_next. rewrite H. reflexivity.
Qed.

(** X3.  [claim_next] serves the oldest job first: the job it returns was
    created no later than any other queued job that is due. *)
Theorem claim_next_oldest_first :
  (forall ts worker uuid t j t',
      queue_wf t ->
      QueueStore.claim_next ts worker uuid t = (Some j, t') ->
      forall r, In r t -> QueueStore.claimable ts r = true ->
                QueueStore.created_at j <= QueueStore.created_at r)
  /\ (forall now wid t j t',
         download_wf t ->
         DownloadStore.claim_next now wid t = (Some j, t') ->
         forall r, In r t -> DownloadStore.claimable now r = true ->
                   DownloadStore.created_at j <= DownloadStore.created_at r).
Proof.
  split.
  - intros ts worker uuid t j t' Hwf C r Hr Hc.
    destruct (QueueMore.queue_claim_row _ _ _ _ _ _ Hwf C) as [row [F [_ [_ [_ E]]]]].
    rewrite E. apply (first_min_le _ _ _ F). apply filter_In. auto.
  - intros now wid t j t' Hwf C r Hr Hc.
    destruct (DownloadMore.download_claim_row _ _ _ _ _ Hwf C) as [row [F [_ [_ [_ E]]]]].
    rewrite E. apply (first_min_le _ _ _ F). apply filter_In. auto.
Qed.

(** X3 at work: of two due jobs the one enqueued first is claimed, on both
    queues. *)
Lemma claim_next_oldest_first_witness :
  (exists j, fst (QueueStore.claim_next 20 (Some "w"%string) EmptyString
                    (QueueOps.run Sample.two_queued [])) = Some j
             /\ QueueStore.created_at j <= 11)
  /\ (exists j, fst (DownloadStore.claim_next 20 "w"
                       (DownloadOps.run Sample.two_downloads [])) = Some j
                /\ DownloadStore.created_at j <= 11).
Proof.
  destruct claim_next_oldest_first as [HQ HD]. split.
  - destruct (QueueStore.claim_next 20 (Some "w"%string) EmptyString
                (QueueOps.run Sample.two_queued [])) as [[j|] t'] eqn:C;
      [|vm_compute in C; discriminate].
    exists j. split; [reflexivity|].
    refine (HQ 20 (Some "w"%string) EmptyString _ j t' _ C
              (QueueStore.mkJob "b" "obra-b" "/d/b" "{}" "queued" 0 None 11 11 None None
                 None None) _ _).
    + apply QueueFacts.queue_run_wf. constructor.
    + vm_compute. auto.
    + reflexivity.
  - destruct (DownloadStore.claim_next 20 "w"
                (DownloadOps.run Sample.two_downloads [])) as [[j|] t'] eqn:C;
      [|vm_compute in C; discriminate].
    exists j. split; [reflexivity|].
    refine (HD 20 "w"%string _ j t' _ C
              (DownloadStore.mkJob 2 "b" "https://s/b" "b" "/d/b" 0 0 "queued" 0 11
                 EmptyString EmptyString EmptyString EmptyString 0 0 0 0 0 "idle" 11 11)
              _ _).
    + apply DownloadFacts.download_run_wf. split; constructor.
    + vm_compute. auto.
    + reflexivity.
Defined.

(** ** Heartbeats *)

(** X4.  [QueueStore.heartbeat] is accepted only from the worker that owns
    the job while the job is [processing]: then the job survives every
    reclaim made within the timeout of that heartbeat, still [processing]
    under the same worker and with the same [tries]; from any other worker,
    or on a job that is not [processing], the call changes nothing. *)
Theorem heartbeat_protects_upload_job :
  forall ts now T jid wid t r,
    queue_wf t ->
    QueueStore.lookup jid t = Some r ->
    (QueueStore.status r = "processing"%string ->
     QueueStore.worker_id r = Some wid ->
     now - ts <= T ->
     exists r',
       QueueStore.lookup jid
         (snd (QueueStore.reclaim_stale_processing now T
                 (QueueStore.heartbeat ts jid wid t))) = Some r'
       /\ QueueStore.status r' = "processing"%string
       /\ QueueStore.worker_id r' = Some wid
       /\ QueueStore.heartbeat_at r' = Some ts
       /\ QueueStore.tries r' = QueueStore.tries r)
    /\ (QueueStore.status r <> "processing"%string \/ QueueStore.worker_id r <> Some wid ->
        QueueStore.heartbeat ts jid wid t = t).
Proof.
  intros ts now T jid wid t r Hwf L. split.
  - intros Hs Hw Ht.
    assert (Hwf' : queue_wf (QueueStore.heartbeat ts jid wid t)).
    { apply (QueueFacts.queue_step_wf (QueueOps.Heartbeat ts jid wid)). exact Hwf. }
    rewrite QueueMore.queue_reclaim_lookup by exact Hwf'.
    rewrite QueueMore.queue_heartbeat_lookup, L. simpl.
    destruct (QueueFacts.lookup_In _ _ _ L) as [_ Hid].
    unfold QueueStore.has_id. rewrite Hid, String.eqb_refl, Hw, String.eqb_refl, Hs.
    simpl. unfold QueueStore.stale. simpl.
    destruct (Z.ltb_spec ts (now - T)); [lia|].
    eexists. split; [reflexivity|]. simpl. auto.
  - intros Hno. unfold QueueStore.heartbeat. apply update_where_none.
    intros x Hx. destruct (QueueStore.has_id jid x) eqn:E; [|reflexivity].
    unfold QueueStore.has_id in E. apply String.eqb_eq in E.
    pose proof (QueueFacts.lookup_unique t x Hwf Hx) as Lx. rewrite E, L in Lx.
    injection Lx as <-. simpl.
    destruct Hno as [Hs|Hw].
    + apply String.eqb_neq in Hs. rewrite Hs. apply andb_false_r.
    + destruct (QueueStore.worker_id r) as [w|]; [|reflexivity].
      destruct (String.eqb w wid) eqn:Ew; [|reflexivity].
      apply String.eqb_eq in Ew. subst w. contradiction.
Qed.

(** X4 at work: a job claimed by [w1] at 20 and kept alive at 500 is still
    with [w1] after the reclaim made at 1000 with the timeout 600; the
    heartbeat of another worker is ignored. *)
Lemma heartbeat_protects_upload_job_witness :
  let t := QueueOps.run (Sample.two_queued ++ [QueueOps.ClaimNext 20 (Some "w1"%string)
                                                 EmptyString]) [] in
  (exists r',
      QueueStore.lookup "a"
        (snd (QueueStore.reclaim_stale_processing 1000 600
                (QueueStore.heartbeat 500 "a" "w1" t))) = Some r'
      /\ QueueStore.status r' = "processing"%string
      /\ QueueStore.worker_id r' = Some "w1"%string
      /\ QueueStore.heartbeat_at r' = Some 500
      /\ QueueStore.tries r' = 0)
  /\ QueueStore.heartbeat 500 "a" "w2" t = t.
Proof.
  intros t.
  assert (Hwf : queue_wf t) by (apply QueueFacts.queue_run_wf; constructor).
  split.
  - refine (proj1 (heartbeat_protects_upload_job 500 1000 600 "a"%string "w1"%string t
                     (QueueStore.mkJob "a" "obra-a" "/d/a" "{}" "processing" 0 None 10 20
                        None (Some 20) (Some "w1"%string) (Some 20)) Hwf _) _ _ _);
      [reflexivity|reflexivity|reflexivity|lia].
  - refine (proj2 (heartbeat_protects_upload_job 500 1000 600 "a"%string "w2"%string t
                     (QueueStore.mkJob "a" "obra-a" "/d/a" "{}" "processing" 0 None 10 20
                        None (Some 20) (Some "w1"%string) (Some 20)) Hwf _) _);
      [reflexivity|right; discriminate].
Defined.

(** X5.  [DownloadQueueStore.heartbeat] refreshes an active job
    ([downloading] or [validating]) whoever calls it, writing the progress
    fields; the job then survives every reclaim made within the timeout of
    that heartbeat.  On a job that is not active — queued again after a
    reclaim, done or failed — the call changes nothing. *)
Theorem heartbeat_protects_download_job :
  forall now0 now T jid chapter_ progress_ total_ state_ t r,
    download_wf t ->
    DownloadStore.get_job_by_job_id jid t = Some r ->
    (DownloadStore.active r = true ->
     now - now0 <= T ->
     exists r',
       DownloadStore.get_job_by_job_id jid
         (snd (DownloadStore.reclaim_stale_downloading now T
                 (DownloadStore.heartbeat now0 jid chapter_ progress_ total_ state_ t)))
       = Some r'
       /\ DownloadStore.status r' = DownloadStore.status r
       /\ DownloadStore.worker_id r' = DownloadStore.worker_id r
       /\ DownloadStore.heartbeat_at r' = now0
       /\ DownloadStore.chapter r' = chapter_
       /\ DownloadStore.progress r' = progress_
       /\ DownloadStore.total_images r' = total_)
    /\ (DownloadStore.active r = false ->
        DownloadStore.heartbeat now0 jid chapter_ progress_ total_ state_ t = t).
Proof.
  intros now0 now T jid c p tot st t r [Hid Hjid] L.
  destruct (DownloadFacts.get_In _ _ _ L) as [Hin Hj]. split.
  - intros Ha Ht. rewrite DownloadMore.download_reclaim_get.
    unfold DownloadStore.heartbeat. rewrite DownloadFacts.get_update by reflexivity.
    rewrite L. simpl. unfold DownloadStore.has_job_id. rewrite Hj, String.eqb_refl, Ha.
    simpl. unfold DownloadStore.stale. simpl.
    destruct (Z.ltb_spec now0 (now - T)); [lia|]. rewrite andb_false_r.
    eexists. split; [reflexivity|]. simpl. repeat split.
  - intros Ha. unfold DownloadStore.heartbeat. apply update_where_none.
    intros x Hx. destruct (DownloadStore.has_job_id jid x) eqn:E; [|reflexivity].
    unfold DownloadStore.has_job_id in E. apply String.eqb_eq in E.
    pose proof (DownloadFacts.get_unique t x Hjid Hx) as Lx. rewrite E, L in Lx.
    injection Lx as <-. simpl. exact Ha.
Qed.

(** X5 at work: the job of [claimed_download] is kept alive at 500 and
    survives the reclaim at 1000; after the reclaim of [orphaned_download]
    and a new failure the heartbeat of the old worker is ignored. *)
Lemma heartbeat_protects_download_job_witness :
  (exists r',
      DownloadStore.get_job_by_job_id "a"
        (snd (DownloadStore.reclaim_stale_downloading 1000 600
                (DownloadStore.heartbeat 500 "a" 3 40 17 "running"
                   Sample.claimed_download))) = Some r'
      /\ DownloadStore.status r' = "downloading"%string
      /\ DownloadStore.worker_id r' = "w1"%string
      /\ DownloadStore.heartbeat_at r' = 500
      /\ DownloadStore.chapter r' = 3
      /\ DownloadStore.progress r' = 40
      /\ DownloadStore.total_images r' = 17)
  /\ DownloadStore.heartbeat 500 "a" 3 40 17 "running" Sample.failed_download
     = Sample.failed_download.
Proof.
  split.
  - refine (proj1 (heartbeat_protects_download_job 500 1000 600 "a"%string 3 40 17
                     "running"%string Sample.claimed_download
                     (DownloadStore.mkJob 1 "a" "https://s/a" "a" "/d/a" 0 0 "downloading"
                        0 10 EmptyString EmptyString EmptyString "w1" 20 20 0 0 0
                        "starting" 10 20) _ _) _ _).
    + apply DownloadFacts.download_run_wf. split; constructor.
    + reflexivity.
    + reflexivity.
    + lia.
  - refine (proj2 (heartbeat_protects_download_job 500 1000 600 "a"%string 3 40 17
                     "running"%string Sample.failed_download
                     (DownloadStore.mkJob 1 "a" "https://s/a" "a" "/d/a" 0 0 "failed"
                        1 10 (DownloadStore.clip "boom") EmptyString EmptyString "w1" 20 20
                        0 0 0 "failed" 10 30) _ _) _).
    + apply DownloadFacts.download_run_wf. split; constructor.
    + reflexivity.
    + reflexivity.
Defined.

(** ** Waiting times *)

Lemma backoff_bounds n :
  60 <= QueueStore._compute_backoff_seconds n <= 3600.
Proof.
  unfold QueueStore._compute_backoff_seconds. cbv zeta.
  assert (1 <= 2 ^ Z.max 0 (n - 1)) by (apply (Z.pow_le_mono_r 2 0); lia).
  lia.
Qed.

(** A job whose [available_at] lies in the future is not handed out. *)
Lemma queue_not_due_not_claimed ts worker uuid t j t' jid r a :
  queue_wf t ->
  QueueStore.lookup jid t = Some r ->
  QueueStore.available_at r = Some a -> ts < a ->
  QueueStore.claim_next ts worker uuid t = (Some j, t') ->
  QueueStore.id j <> jid.
Proof.
  intros Hwf L Ha Hlt C E.
  destruct (QueueFacts.queue_claim_next_spec _ _ _ _ _ _ Hwf C) as [r0 [L0 [_ [Hd _]]]].
  rewrite E, L in L0. injection L0 as <-. rewrite Ha in Hd. simpl in Hd.
  apply Z.leb_le in Hd. lia.
Qed.

Lemma queue_due_is_claimed ts worker uuid t jid r :
  QueueStore.lookup jid t = Some r ->
  QueueStore.claimable ts r = true ->
  fst (QueueStore.claim_next ts worker uuid t) <> None.
Proof.
  intros L Hc N. apply QueueMore.queue_claim_none in N.
  destruct (QueueFacts.lookup_In _ _ _ L) as [Hin _].
  pose proof (proj1 (filter_nil_iff _ _) N r Hin). congruence.
Qed.

Lemma download_not_due_not_claimed now wid t j t' jid r :
  download_wf t ->
  DownloadStore.get_job_by_job_id jid t = Some r ->
  now < DownloadStore.available_at r ->
  DownloadStore.claim_next now wid t = (Some j, t') ->
  DownloadStore.job_id j <> jid.
Proof.
  intros Hwf L Hlt C E.
  destruct (DownloadFacts.download_claim_next_spec _ _ _ _ _ Hwf C)
    as [r0 [L0 [_ [Hd _]]]].
  rewrite E, L in L0. injection L0 as <-. lia.
Qed.

Lemma download_due_is_claimed now wid t jid r :
  DownloadStore.get_job_by_job_id jid t = Some r ->
  DownloadStore.claimable now r = true ->
  fst (DownloadStore.claim_next now wid t) <> None.
Proof.
  intros L Hc N. apply DownloadMore.download_claim_none in N.
  destruct (DownloadFacts.get_In _ _ _ L) as [Hin _].
  pose proof (proj1 (filter_nil_iff _ _) N r Hin). congruence.
Qed.

(** X6.  The backoff of the upload queue is enforced by [claim_next]: after
    a failure at [ts] that puts the job back to [queued], no claim made
    before [ts + backoff] returns that job, where the backoff lies between
    one minute and one hour; from that time on the job is due again and a
    claim does not come back empty. *)
Theorem failed_upload_waits_for_backoff :
  forall ts jid error max_tries t r,
    queue_wf t ->
    QueueStore.lookup jid t = Some r ->
    QueueStore.tries r + 1 < max_tries ->
    let t1 := snd (QueueStore.mark_failed ts jid error true max_tries t) in
    let due := ts + QueueStore._compute_backoff_seconds (QueueStore.tries r + 1) in
    ts + 60 <= due <= ts + 3600
    /\ (forall ts' worker uuid j t2,
           ts' < due ->
           QueueStore.claim_next ts' worker uuid t1 = (Some j, t2) ->
           QueueStore.id j <> jid)
    /\ (forall ts' worker uuid,
           due <= ts' -> fst (QueueStore.claim_next ts' worker uuid t1) <> None).
Proof.
  intros ts jid error max_tries t r Hwf L Hlt t1 due.
  destruct (mark_failed_requeued ts jid error max_tries t r L Hlt)
    as [r' [L' [_ [Hs Ha]]]].
  fold t1 in L'. fold due in Ha.
  assert (Hwf1 : queue_wf t1).
  { apply (QueueFacts.queue_step_wf (QueueOps.MarkFailed ts jid error true max_tries)).
    exact Hwf. }
  split; [|split].
  - pose proof (backoff_bounds (QueueStore.tries r + 1)). unfold due. lia.
  - intros ts' worker uuid j t2 Hts C.
    exact (queue_not_due_not_claimed _ _ _ _ _ _ _ _ _ Hwf1 L' Ha Hts C).
  - intros ts' worker uuid Hts. apply (queue_due_is_claimed _ _ _ _ _ _ L').
    unfold QueueStore.claimable. rewrite Hs, Ha. simpl. apply Z.leb_le. exact Hts.
Qed.

(** X6 at work: the first failure of a job at 1000 makes it wait until
    1060. *)
Lemma failed_upload_waits_for_backoff_witness :
  let t := QueueOps.run (Sample.two_queued ++ [QueueOps.ClaimNext 20 (Some "w1"%string)
                                                 EmptyString]) [] in
  let t1 := snd (QueueStore.mark_failed 1000 "a" "boom" true 5 t) in
  (forall j t2, QueueStore.claim_next 1059 None "u" t1 = (Some j, t2) ->
                QueueStore.id j <> "a"%string)
  /\ fst (QueueStore.claim_next 1060 None "u"
            (snd (QueueStore.mark_failed 1000 "a" "boom" true 5
                    [Sample.upload_job "a" "processing" 0]))) <> None.
Proof.
  intros t t1. split.
  - intros j t2.
    refine (proj1 (proj2 (failed_upload_waits_for_backoff 1000 "a"%string "boom"%string 5 t
                            (QueueStore.mkJob "a" "obra-a" "/d/a" "{}" "processing" 0 None
                               10 20 None (Some 20) (Some "w1"%string) (Some 20))
                            _ _ _)) 1059 None "u"%string j t2 _).
    + apply QueueFacts.queue_run_wf. constructor.
    + reflexivity.
    + simpl. lia.
    + vm_compute. reflexivity.
  - refine (proj2 (proj2 (failed_upload_waits_for_backoff 1000 "a"%string "boom"%string 5
                            [Sample.upload_job "a" "processing" 0]
                            (Sample.upload_job "a" "processing" 0) _ _ _))
              1060 None "u"%string _).
    + repeat constructor. simpl. tauto.
    + reflexivity.
    + simpl. lia.
    + vm_compute. discriminate.
Defined.

(** X7.  A job taken back from a silent worker is not handed out at once:
    after a reclaim at [now], no claim made before [now + 30] on the upload
    queue, or before [now + 5] on the download queue, returns a job that the
    reclaim reverted; from that time on such a job is due. *)
Theorem reclaimed_job_waits :
  (forall now T t r,
      queue_wf t -> In r t -> QueueStore.stale (now - T) r = true ->
      let t1 := snd (QueueStore.reclaim_stale_processing now T t) in
      (forall ts' worker uuid j t2,
          ts' < now + 30 ->
          QueueStore.claim_next ts' worker uuid t1 = (Some j, t2) ->
          QueueStore.id j <> QueueStore.id r)
      /\ (forall ts' worker uuid,
             now + 30 <= ts' -> fst (QueueStore.claim_next ts' worker uuid t1) <> None))
  /\ (forall now T t r,
         download_wf t -> In r t -> DownloadStore.stale (now - T) r = true ->
         let t1 := snd (DownloadStore.reclaim_stale_downloading now T t) in
         (forall now' wid j t2,
             now' < now + 5 ->
             DownloadStore.claim_next now' wid t1 = (Some j, t2) ->
             DownloadStore.job_id j <> DownloadStore.job_id r)
         /\ (forall now' wid,
                now + 5 <= now' -> fst (DownloadStore.claim_next now' wid t1) <> None)).
Proof.
  split.
  - intros now T t r Hwf Hin Hst t1.
    assert (Hwf1 : queue_wf t1).
    { apply (QueueFacts.queue_step_wf (QueueOps.ReclaimStale now T)). exact Hwf. }
    assert (L1 : QueueStore.lookup (QueueStore.id r) t1
                 = Some (QueueStore.requeue_stale now r)).
    { unfold t1. rewrite QueueMore.queue_reclaim_lookup by exact Hwf.
      rewrite (QueueFacts.lookup_unique t r Hwf Hin). simpl. rewrite Hst. reflexivity. }
    split.
    + intros ts' worker uuid j t2 Hts C.
      exact (queue_not_due_not_claimed _ _ _ _ _ _ _ _ _ Hwf1 L1 eq_refl Hts C).
    + intros ts' worker uuid Hts. apply (queue_due_is_claimed _ _ _ _ _ _ L1).
      unfold QueueStore.claimable. simpl. apply Z.leb_le. exact Hts.
  - intros now T t r Hwf Hin Hst t1.
    assert (Hwf1 : download_wf t1).
    { apply (DownloadFacts.download_step_wf (DownloadOps.ReclaimStale now T)). exact Hwf. }
    assert (L1 : DownloadStore.get_job_by_job_id (DownloadStore.job_id r) t1
                 = Some (DownloadStore.requeue_stale now r)).
    { unfold t1. rewrite DownloadMore.download_reclaim_get.
      rewrite (DownloadFacts.get_unique t r (proj2 Hwf) Hin). simpl. rewrite Hst.
      reflexivity. }
    split.
    + intros now' wid j t2 Hts C.
      refine (download_not_due_not_claimed _ _ _ _ _ _ _ Hwf1 L1 _ C). simpl. lia.
    + intros now' wid Hts. apply (download_due_is_claimed _ _ _ _ _ L1).
      unfold DownloadStore.claimable. simpl. apply Z.leb_le. exact Hts.
Qed.

(** X7 at work: a job claimed at 20 and reclaimed at 1000 can be claimed
    again at 1030 (upload) and at 1005 (download), not a second earlier. *)
Lemma reclaimed_job_waits_witness :
  (let t1 := snd (QueueStore.reclaim_stale_processing 1000 600
                    [QueueStore.mkJob "a" "obra-a" "/d/a" "{}" "processing" 0 None 10 20
                       None (Some 20) (Some "w1"%string) (Some 20)]) in
   (forall j t2, QueueStore.claim_next 1029 None "u" t1 = (Some j, t2) ->
                 QueueStore.id j <> "a"%string)
   /\ fst (QueueStore.claim_next 1030 None "u" t1) <> None)
  /\ (let t1 := snd (DownloadStore.reclaim_stale_downloading 1000 600
                       Sample.claimed_download) in
      (forall j t2, DownloadStore.claim_next 1004 "w2" t1 = (Some j, t2) ->
                    DownloadStore.job_id j <> "a"%string)
      /\ fst (DownloadStore.claim_next 1005 "w2" t1) <> None).
Proof.
  destruct reclaimed_job_waits as [HQ HD]. split.
  - intros t1.
    destruct (HQ 1000 600
                [QueueStore.mkJob "a" "obra-a" "/d/a" "{}" "processing" 0 None 10 20
                   None (Some 20) (Some "w1"%string) (Some 20)]
                (QueueStore.mkJob "a" "obra-a" "/d/a" "{}" "processing" 0 None 10 20
                   None (Some 20) (Some "w1"%string) (Some 20))) as [H1 H2].
    + repeat constructor. simpl. tauto.
    + simpl. auto.
    + reflexivity.
    + split.
      * intros j t2. apply (H1 1029 None "u"%string j t2). lia.
      * apply (H2 1030 None "u"%string). lia.
  - intros t1.
    destruct (HD 1000 600 Sample.claimed_download
                (DownloadStore.mkJob 1 "a" "https://s/a" "a" "/d/a" 0 0 "downloading"
                   0 10 EmptyString EmptyString EmptyString "w1" 20 20 0 0 0
                   "starting" 10 20)) as [H1 H2].
    + apply DownloadFacts.download_run_wf. split; constructor.
    + vm_compute. auto.
    + reflexivity.
    + split.
      * intros j t2. apply (H1 1004 "w2"%string j t2). lia.
      * apply (H2 1005 "w2"%string). lia.
Defined.

(** ** Finished jobs *)

Lemma terminal_status s :
  terminal s = true -> s = "done"%string \/ s = "failed"%string.
Proof.
  unfold terminal. intros H. apply orb_prop in H.
  destruct H as [H|H]; apply String.eqb_eq in H; auto.
Qed.

Lemma queue_terminal_step o t jid r :
  queue_wf t ->
  QueueStore.lookup jid t = Some r ->
  terminal (QueueStore.status r) = true ->
  rewrites_upload jid o = false ->
  QueueStore.lookup jid (QueueOps.step o t) = Some r.
Proof.
  intros Hwf L Ht Hn.
  assert (Hq : String.eqb (QueueStore.status r) "queued" = false).
  { destruct (terminal_status _ Ht) as [E|E]; rewrite E; reflexivity. }
  assert (Hp : String.eqb (QueueStore.status r) "processing" = false).
  { destruct (terminal_status _ Ht) as [E|E]; rewrite E; reflexivity. }
  destruct o; simpl in *.
  - rewrite String.eqb_sym in Hn. unfold QueueStore.enqueue.
    destruct (QueueStore.lookup job_id t) as [row|] eqn:Lj.
    + destruct (String.eqb (QueueStore.status row) "done"); [exact L|].
      rewrite QueueFacts.lookup_update by reflexivity. rewrite Hn. exact L.
    + unfold QueueStore.lookup, select_one in *. apply find_app_some. exact L.
  - apply QueueMore.queue_claim_other; auto.
    unfold QueueStore.claimable. rewrite Hq. reflexivity.
  - rewrite QueueMore.queue_heartbeat_lookup, L. simpl. rewrite Hp.
    rewrite andb_false_r. reflexivity.
  - rewrite String.eqb_sym in Hn.
    unfold QueueStore.mark_done. rewrite QueueFacts.lookup_update by reflexivity.
    rewrite Hn. exact L.
  - rewrite String.eqb_sym in Hn. unfold QueueStore.mark_failed.
    destruct (requeue && (_ <? max_tries)); simpl;
      rewrite QueueFacts.lookup_update by reflexivity; rewrite Hn; exact L.
  - rewrite QueueMore.queue_reclaim_lookup by exact Hwf. rewrite L. simpl.
    unfold QueueStore.stale. rewrite Hp. reflexivity.
Qed.

(** X8.  A finished upload job is left alone by everything that does not
    name it: while no [enqueue], [mark_done] or [mark_failed] is called with
    its id, a job that is [done] or [failed] keeps its row unchanged through
    any sequence of calls — claims, heartbeats (also with its id), reclaims,
    and any call made for other jobs. *)
Theorem finished_upload_job_untouched :
  forall ops t jid r,
    queue_wf t ->
    QueueStore.lookup jid t = Some r ->
    terminal (QueueStore.status r) = true ->
    forallb (fun o => negb (rewrites_upload jid o)) ops = true ->
    QueueStore.lookup jid (QueueOps.run ops t) = Some r.
Proof.
  induction ops as [|o ops IH]; intros t jid r Hwf L Ht Hn; simpl in *; [exact L|].
  apply andb_prop in Hn. destruct Hn as [Ho Hn]. apply negb_true_iff in Ho.
  apply IH; auto.
  - apply QueueFacts.queue_step_wf. exact Hwf.
  - apply queue_terminal_step; auto.
Qed.

(** X8 at work: a job that is done stays as it is while another job is
    enqueued, claimed, fails and is reclaimed, and under a late heartbeat of
    its former worker. *)
Lemma finished_upload_job_untouched_witness :
  let t := [Sample.upload_job "a" "done" 0] in
  QueueStore.lookup "a"
    (QueueOps.run [QueueOps.Enqueue 20 "b" "obra-b" "/d/b" "{}";
                   QueueOps.ClaimNext 30 (Some "w1"%string) EmptyString;
                   QueueOps.Heartbeat 35 "a" "w1";
                   QueueOps.MarkFailed 40 "b" "boom" true 5;
                   QueueOps.ClaimNext 200 (Some "w1"%string) EmptyString;
                   QueueOps.ReclaimStale 1000 600] t)
  = Some (Sample.upload_job "a" "done" 0).
Proof.
  intros t. apply finished_upload_job_untouched.
  - repeat constructor. simpl. tauto.
  - reflexivity.
  - reflexivity.
  - reflexivity.
Defined.

Lemma download_terminal_step o t jid r :
  download_wf t ->
  DownloadStore.get_job_by_job_id jid t = Some r ->
  terminal (DownloadStore.status r) = true ->
  rewrites_download jid o = false ->
  DownloadStore.get_job_by_job_id jid (DownloadOps.step o t) = Some r.
Proof.
  intros Hwf L Ht Hn.
  destruct (DownloadFacts.get_In _ _ _ L) as [Hin Hj].
  assert (Hq : String.eqb (DownloadStore.status r) "queued" = false).
  { destruct (terminal_status _ Ht) as [E|E]; rewrite E; reflexivity. }
  assert (Ha : DownloadStore.active r = false).
  { unfold DownloadStore.active.
    destruct (terminal_status _ Ht) as [E|E]; rewrite E; reflexivity. }
  assert (Hk : forall j, String.eqb j jid = false -> DownloadStore.has_job_id j r = false).
  { intros j E. unfold DownloadStore.has_job_id. rewrite Hj, String.eqb_sym. exact E. }
  destruct o; cbn [DownloadOps.step rewrites_download] in *.
  - unfold DownloadStore.enqueue. simpl.
    destruct (DownloadStore.get_job_by_job_id (DownloadStore.jid_or jid0 uuid) t);
      [exact L|].
    unfold DownloadStore.get_job_by_job_id, select_one in *. apply find_app_some. exact L.
  - apply DownloadMore.download_claim_other; auto.
    unfold DownloadStore.claimable. rewrite Hq. reflexivity.
  - unfold DownloadStore.heartbeat. rewrite DownloadFacts.get_update by reflexivity.
    rewrite L. simpl. rewrite Ha, andb_false_r. reflexivity.
  - unfold DownloadStore.set_status. rewrite DownloadFacts.get_update by reflexivity.
    rewrite L. simpl. rewrite (Hk _ Hn). reflexivity.
  - unfold DownloadStore.mark_done. rewrite DownloadFacts.get_update by reflexivity.
    rewrite L. simpl. rewrite (Hk _ Hn). reflexivity.
  - unfold DownloadStore.mark_failed. rewrite DownloadFacts.get_update by reflexivity.
    rewrite L. simpl. rewrite (Hk _ Hn). reflexivity.
  - unfold DownloadStore.fail_permanently. rewrite DownloadFacts.get_update by reflexivity.
    rewrite L. simpl. rewrite (Hk _ Hn). reflexivity.
  - rewrite DownloadMore.download_reclaim_get, L. simpl.
    unfold DownloadStore.stale. rewrite Ha. reflexivity.
Qed.

(** X9.  A finished download job is left alone by everything that does not
    name it: while no [set_status], [mark_done], [mark_failed] or
    [fail_permanently] is called with its [job_id], a job that is [done] or
    [failed] keeps its row unchanged through any sequence of calls — a new
    [enqueue] under the same [job_id], claims, heartbeats, reclaims, and any
    call made for other jobs. *)
Theorem finished_download_job_untouched :
  forall ops t jid r,
    download_wf t ->
    DownloadStore.get_job_by_job_id jid t = Some r ->
    terminal (DownloadStore.status r) = true ->
    forallb (fun o => negb (rewrites_download jid o)) ops = true ->
    DownloadStore.get_job_by_job_id jid (DownloadOps.run ops t) = Some r.
Proof.
  induction ops as [|o ops IH]; intros t jid r Hwf L Ht Hn; simpl in *; [exact L|].
  apply andb_prop in Hn. destruct Hn as [Ho Hn]. apply negb_true_iff in Ho.
  apply IH; auto.
  - apply DownloadFacts.download_step_wf. exact Hwf.
  - apply download_terminal_step; auto.
Qed.

(** X9 at work: the failed job of [failed_download] is not revived by a new
    submission under its [job_id], by a claim, a heartbeat or a reclaim. *)
Lemma finished_download_job_untouched_witness :
  DownloadStore.get_job_by_job_id "a"
    (DownloadOps.run [DownloadOps.Enqueue 50 "https://s/a" "a" "/d/a" 0 0
                        (Some "a"%string) EmptyString;
                      DownloadOps.ClaimNext 60 "w2";
                      DownloadOps.Heartbeat 70 "a" 1 10 3 "running";
                      DownloadOps.ReclaimStale 1000 600] Sample.failed_download)
  = DownloadStore.get_job_by_job_id "a" Sample.failed_download.
Proof.
  apply (finished_download_job_untouched _ Sample.failed_download "a"%string
           (DownloadStore.mkJob 1 "a" "https://s/a" "a" "/d/a" 0 0 "failed"
              1 10 (DownloadStore.clip "boom") EmptyString EmptyString "w1" 20 20
              0 0 0 "failed" 10 30)).
  - apply DownloadFacts.download_run_wf. split; constructor.
  - reflexivity.
  - reflexivity.
  - reflexivity.
Defined.

(** ** How often a job is retried *)

Lemma upload_failure_step ts jid t r :
  QueueStore.lookup jid t = Some r ->
  exists r1,
    QueueStore.lookup jid (snd (QueueStore.mark_failed ts jid "Falha no upload" true 5 t))
    = Some r1
    /\ QueueStore.tries r1 = QueueStore.tries r + 1
    /\ QueueStore.status r1
       = (if QueueStore.tries r1 <? 5 then "queued"%string else "failed"%string)
    /\ QueueStore.available_at r1
       = (if QueueStore.tries r1 <? 5
          then Some (ts + QueueStore._compute_backoff_seconds (QueueStore.tries r1))
          else None)
    /\ QueueStore.worker_id r1 = None
    /\ QueueStore.heartbeat_at r1 = None.
Proof.
  intros L. unfold QueueStore.mark_failed. rewrite L. cbn [andb].
  destruct (QueueStore.tries r + 1 <? 5) eqn:E; cbn [snd];
    rewrite QueueFacts.lookup_update by reflexivity;
    rewrite String.eqb_refl, L; simpl;
    eexists; (split; [reflexivity|]); simpl; rewrite E; auto.
Qed.

(** X10.  The upload worker gives a job five attempts: after any number of
    failed uploads of the same job in a row, [tries] has grown by that
    number, and the job is [queued] with a retry time while [tries] is
    below five and [failed] without one from the fifth failure on; in both
    cases it has no owner. *)
Theorem upload_fails_for_good_at_fifth_failure :
  forall tss jid t r,
    QueueStore.lookup jid t = Some r ->
    tss <> [] ->
    exists r',
      QueueStore.lookup jid (UploadWorker.failed_uploads tss jid t) = Some r'
      /\ QueueStore.tries r' = QueueStore.tries r + Z.of_nat (List.length tss)
      /\ QueueStore.status r'
         = (if QueueStore.tries r' <? 5 then "queued"%string else "failed"%string)
      /\ (QueueStore.available_at r' = None <-> 5 <= QueueStore.tries r')
      /\ QueueStore.worker_id r' = None.
Proof.
  induction tss as [|ts tss IH]; intros jid t r L Hne; [contradiction|].
  destruct (upload_failure_step ts jid t r L) as [r1 [L1 [T1 [S1 [A1 [W1 _]]]]]].
  unfold UploadWorker.failed_uploads. cbn [fold_left].
  destruct tss as [|ts2 tss].
  - cbn [fold_left List.length]. exists r1. split; [exact L1|].
    split; [lia|]. split; [exact S1|]. split; [|exact W1].
    rewrite A1. destruct (Z.ltb_spec (QueueStore.tries r1) 5); split;
      try discriminate; try lia; auto.
  - destruct (IH jid _ r1 L1 ltac:(discriminate)) as [r' [L' [T' R']]].
    exists r'. split; [exact L'|]. split; [|exact R'].
    rewrite T', T1. cbn [List.length]. lia.
Qed.

(** X10 at work: four failures leave a fresh job queued, the fifth one
    fails it for good. *)
Lemma upload_fails_for_good_at_fifth_failure_witness :
  (exists r',
      QueueStore.lookup "a"
        (UploadWorker.failed_uploads [100; 200; 400; 700] "a"
           [Sample.upload_job "a" "processing" 0]) = Some r'
      /\ QueueStore.status r' = "queued"%string)
  /\ (exists r',
         QueueStore.lookup "a"
           (UploadWorker.failed_uploads [100; 200; 400; 700; 1200] "a"
              [Sample.upload_job "a" "processing" 0]) = Some r'
         /\ QueueStore.status r' = "failed"%string
         /\ QueueStore.available_at r' = None).
Proof.
  split.
  - destruct (upload_fails_for_good_at_fifth_failure [100; 200; 400; 700] "a"%string
                [Sample.upload_job "a" "processing" 0]
                (Sample.upload_job "a" "processing" 0) eq_refl ltac:(discriminate))
      as [r' [L [T [S _]]]].
    exists r'. split; [exact L|]. rewrite S, T. reflexivity.
  - destruct (upload_fails_for_good_at_fifth_failure [100; 200; 400; 700; 1200] "a"%string
                [Sample.upload_job "a" "processing" 0]
                (Sample.upload_job "a" "processing" 0) eq_refl ltac:(discriminate))
      as [r' [L [T [S [A _]]]]].
    exists r'. split; [exact L|]. split.
    + rewrite S, T. reflexivity.
    + apply A. rewrite T. simpl. lia.
Defined.

(** [str(error)[:2000]] keeps a text of at most 2000 bytes whole, and it
    counts characters, not bytes. *)
Lemma take_chars_short s : forall n,
  (String.length s <= n)%nat -> DownloadStore.take_chars n s = s.
Proof.
  induction s as [|c s IH]; intros n H; simpl; [reflexivity|]. simpl in H.
  destruct (DownloadStore.continues c); [f_equal; apply IH; lia|].
  destruct n as [|n]; [lia|]. f_equal. apply IH. lia.
Qed.

Lemma clip_short error :
  (String.length error <= 2000)%nat -> DownloadStore.clip error = error.
Proof. apply take_chars_short. Qed.

Lemma take_chars_counts_characters :
  DownloadStore.take_chars 2 "não há"%string = "nã"%string
  /\ String.length (DownloadStore.take_chars 2 "não há"%string) = 3%nat.
Proof. split; reflexivity. Qed.

Lemma download_failure_step now jid error t r :
  jid <> EmptyString ->
  DownloadStore.get_job_by_job_id jid t = Some r ->
  exists r1,
    DownloadStore.get_job_by_job_id jid
      (DownloadWorker.on_exception now (Some jid) error t) = Some r1
    /\ DownloadStore.tries r1 = DownloadStore.tries r + 1
    /\ DownloadStore.status r1
       = (if DownloadStore.tries r <? 5 then "queued"%string else "failed"%string)
    /\ DownloadStore.available_at r1
       = (if DownloadStore.tries r <? 5
          then now + DownloadWorker._backoff_seconds (DownloadStore.tries r)
          else DownloadStore.available_at r)
    /\ DownloadStore.last_error r1 = DownloadStore.clip error
    /\ DownloadStore.result_json r1 = DownloadStore.result_json r.
Proof.
  intros Hne L. destruct (DownloadFacts.get_In _ _ _ L) as [_ Hj].
  unfold DownloadWorker.on_exception. apply String.eqb_neq in Hne. rewrite Hne, L.
  cbv zeta. rewrite Z.geb_leb.
  destruct (Z.leb_spec 5 (DownloadStore.tries r)) as [H5|H5];
    [unfold DownloadStore.fail_permanently|unfold DownloadStore.mark_failed];
    rewrite DownloadFacts.get_update by reflexivity; rewrite L; simpl;
    unfold DownloadStore.has_job_id; rewrite Hj, String.eqb_refl;
    (eexists; split; [reflexivity|]); simpl;
    destruct (Z.ltb_spec (DownloadStore.tries r) 5); try lia; auto.
Qed.



(** ** The worker loops *)






(** The row and the table written by a claim on the download queue. *)
Lemma download_claim_full now wid t j t' :
  download_wf t ->
  DownloadStore.claim_next now wid t = (Some j, t') ->
  exists row,
    DownloadStore.get_job_by_job_id (DownloadStore.job_id j) t = Some row
    /\ DownloadStore.tries j = DownloadStore.tries row
    /\ DownloadStore.result_json j = DownloadStore.result_json row
    /\ DownloadStore.get_job_by_job_id (DownloadStore.job_id j) t' = Some j.
Proof.
  intros Hwf H.
  destruct (DownloadFacts.download_claim_next_spec _ _ _ _ _ Hwf H)
    as [r0 [L0 [_ [_ [_ [_ [_ [_ [L1 _]]]]]]]]].
  destruct Hwf as [Hid Hjid]. unfold DownloadStore.claim_next in H.
  destruct (first_min DownloadStore.created_at (filter (DownloadStore.claimable now) t))
    as [row|] eqn:F; [|inversion H].
  apply first_min_In in F. apply filter_In in F. destruct F as [Hin Hc]. cbv zeta in H.
  match type of H with (option_map _ (select_one ?h t), _) = _ => set (hit := h) in * end.
  destruct (select_one hit t) as [x|] eqn:S; [|discriminate].
  unfold select_one in S. apply find_some in S. destruct S as [Hx H0].
  unfold hit in H0. apply andb_prop in H0. destruct H0 as [H0 _]. apply Z.eqb_eq in H0.
  assert (x = row) by (apply (DownloadFacts.same_rowid t); auto). subst x.
  simpl in H. injection H as Hj Ht. exists row. subst j. cbn in *.
  split; [apply DownloadFacts.get_unique; assumption|]. auto.
Qed.

(** Reading a row after an UPDATE keyed on its [job_id]. *)
Lemma get_update_key jid (f : DownloadStore.DownloadJob -> DownloadStore.DownloadJob) t r :
  (forall x, DownloadStore.job_id (f x) = DownloadStore.job_id x) ->
  DownloadStore.get_job_by_job_id jid t = Some r ->
  DownloadStore.get_job_by_job_id jid (update_where (DownloadStore.has_job_id jid) f t)
  = Some (f r).
Proof.
  intros Hf L. rewrite DownloadFacts.get_update by exact Hf. rewrite L. simpl.
  destruct (DownloadFacts.get_In _ _ _ L) as [_ Hj].
  unfold DownloadStore.has_job_id. rewrite Hj, String.eqb_refl. reflexivity.
Qed.


Lemma periodic_reclaim_job now l t :
  DownloadWorker.job (fst (DownloadWorker.periodic_reclaim now l t))
  = DownloadWorker.job l.
Proof.
  unfold DownloadWorker.periodic_reclaim.
  destruct (now - DownloadWorker.last_reclaim l >? 60); reflexivity.
Qed.




(** X14.  The handler of the download worker charges an exception to the
    job held in the local variable [job], which survives from one pass to
    the next: when a store call raises at the head of a pass, before a new
    job is taken, the job of the previous pass is rewritten even though it
    is [done] — its [tries] grows by one and it is [queued] for another
    download (or [failed] once it has five tries), its stored result
    kept. *)
Theorem early_fault_requeues_previous_job :
  forall now wid running error f l t jid r,
    download_wf t ->
    DownloadWorker.job l = Some jid ->
    jid <> EmptyString ->
    DownloadStore.get_job_by_job_id jid t = Some r ->
    DownloadStore.status r = "done"%string ->
    f = DownloadWorker.AtReclaim error \/ f = DownloadWorker.AtClaim error ->
    exists r',
      DownloadStore.get_job_by_job_id jid
        (snd (DownloadWorker.worker_pass now wid running f l t)) = Some r'
      /\ DownloadStore.status r'
         = (if DownloadStore.tries r <? 5 then "queued"%string else "failed"%string)
      /\ DownloadStore.tries r' = DownloadStore.tries r + 1
      /\ DownloadStore.result_json r' = DownloadStore.result_json r.
Proof.
  intros now wid running error f l t jid r Hwf Hl Hne L Hs [->| ->];
    unfold DownloadWorker.worker_pass.
  - cbn [snd]. rewrite Hl.
    destruct (download_failure_step now jid error t r Hne L)
      as [r' [L' [T' [S' [_ [_ R']]]]]].
    exists r'. auto.
  - pose proof (periodic_reclaim_job now l t) as J.
    destruct (DownloadWorker.periodic_reclaim now l t) as [l1 t1] eqn:P.
    cbn [fst snd] in *. rewrite J, Hl.
    assert (L1 : DownloadStore.get_job_by_job_id jid t1 = Some r).
    { unfold DownloadWorker.periodic_reclaim in P.
      destruct (now - DownloadWorker.last_reclaim l >? 60); injection P as _ <-;
        [|exact L].
      rewrite DownloadFacts.get_update by reflexivity. rewrite L. simpl.
      unfold DownloadStore.stale, DownloadStore.active. rewrite Hs. reflexivity. }
    destruct (download_failure_step now jid error t1 r Hne L1)
      as [r' [L' [T' [S' [_ [_ R']]]]]].
    exists r'. auto.
Qed.

(** X14 at work: the first pass completes job [a]; in the next pass the
    claim raises, and job [a] is back in the queue with one try. *)
Lemma early_fault_requeues_previous_job_witness :
  let t := DownloadOps.run Sample.two_downloads [] in
  let p1 := DownloadWorker.worker_pass 20 "w1" true (DownloadWorker.NoFault "{}" "{}")
              (DownloadWorker.mkLocals 0 None) t in
  let p2 := DownloadWorker.worker_pass 30 "w1" true (DownloadWorker.AtClaim "locked")
              (fst p1) (snd p1) in
  (exists r, DownloadStore.get_job_by_job_id "a" (snd p1) = Some r
             /\ DownloadStore.status r = "done"%string)
  /\ (exists r', DownloadStore.get_job_by_job_id "a" (snd p2) = Some r'
                 /\ DownloadStore.status r' = "queued"%string
                 /\ DownloadStore.tries r' = 1).
Proof.
  intros t p1 p2. split.
  - eexists. split; [vm_compute; reflexivity|reflexivity].
  - destruct (DownloadStore.get_job_by_job_id "a" (snd p1)) as [r|] eqn:L;
      [|vm_compute in L; discriminate].
    assert (E : DownloadStore.status r = "done"%string /\ DownloadStore.tries r = 0).
    { vm_compute in L. injection L as <-. split; reflexivity. }
    destruct E as [Hs Ht].
    destruct (early_fault_requeues_previous_job 30 "w1"%string true "locked"%string
                (DownloadWorker.AtClaim "locked") (fst p1) (snd p1) "a"%string r)
      as [r' [L' [S' [T' _]]]].
    + unfold p1, DownloadWorker.worker_pass. cbn.
      apply (DownloadFacts.download_run_wf
               [DownloadOps.ClaimNext 20 "w1";
                DownloadOps.SetStatus 20 "a" "downloading" "running";
                DownloadOps.SetStatus 20 "a" "validating" "validating";
                DownloadOps.MarkDone 20 "a" "{}" "{}"] t).
      apply DownloadFacts.download_run_wf. split; constructor.
    + reflexivity.
    + discriminate.
    + exact L.
    + exact Hs.
    + right. reflexivity.
    + exists r'. split; [exact L'|]. rewrite S', T', Ht. split; reflexivity.
Defined.

(** ** Flags *)

Module FlagFacts.
Import DownloadFlags.

Lemma get_after_set now k v d t : get_flag k d (set_flag now k v t) = v.
Proof.
  unfold get_flag, set_flag, select_one.
  destruct (find (has_key k) t) as [r|] eqn:F.
  - rewrite find_update_where by reflexivity. rewrite F. simpl.
    apply find_some in F. destruct F as [_ F]. rewrite F. reflexivity.
  - rewrite (find_app_none _ _ _ F). simpl. unfold has_key. simpl.
    rewrite String.eqb_refl. reflexivity.
Qed.

Lemma get_other now k v k' d t :
  k' <> k -> get_flag k' d (set_flag now k v t) = get_flag k' d t.
Proof.
  intros Hne. apply String.eqb_neq in Hne.
  unfold get_flag, set_flag, select_one.
  destruct (find (has_key k) t) as [r|] eqn:F.
  - rewrite find_update_where by reflexivity.
    destruct (find (has_key k') t) as [x|] eqn:G; simpl; [|reflexivity].
    apply find_some in G. destruct G as [_ G]. unfold has_key in *.
    apply String.eqb_eq in G. rewrite G, Hne. reflexivity.
  - destruct (find (has_key k') t) as [x|] eqn:G.
    + rewrite (find_app_some _ _ _ _ G). reflexivity.
    + rewrite (find_app_none _ _ _ G). simpl. unfold has_key. simpl.
      rewrite String.eqb_sym, Hne. reflexivity.
Qed.

Lemma set_keys now k v t : NoDup (map key t) -> NoDup (map key (set_flag now k v t)).
Proof.
  intros H. unfold set_flag, select_one.
  destruct (find (has_key k) t) as [r|] eqn:F.
  - rewrite map_update_where by reflexivity. exact H.
  - rewrite map_app. simpl. apply NoDup_app; [exact H|repeat constructor; simpl; tauto|].
    intros x Hx [Hx'|[]]. subst x.
    revert Hx. apply (find_none_not_in key String.eqb); [apply String.eqb_eq|exact F].
Qed.

End FlagFacts.

(** X15.  The flags of the download store are a map with last-write-wins:
    [get_flag] returns the value of the latest [set_flag] of that key and
    the default for a key never set, setting a key leaves every other key as
    it was, and keys stay unique.  For the stop flag this means: in worker
    mode [_should_continue] is false after [/api/stop] and true again after
    [/api/resume] — and also after the reset that the worker makes when it
    takes its next job, so a stop requested while the worker is idle does
    not stop the job taken afterwards. *)
Theorem flags_last_write_wins :
  forall now k v t,
    (forall d, DownloadFlags.get_flag k d (DownloadFlags.set_flag now k v t) = v)
    /\ (forall k' d, k' <> k ->
           DownloadFlags.get_flag k' d (DownloadFlags.set_flag now k v t)
           = DownloadFlags.get_flag k' d t)
    /\ (forall d, DownloadFlags.get_flag k d [] = d)
    /\ (NoDup (map DownloadFlags.key t) ->
        NoDup (map DownloadFlags.key (DownloadFlags.set_flag now k v t)))
    /\ (forall running,
           DownloadFlags._should_continue "worker" running
             (DownloadFlags.stop_download now t) = false)
    /\ (forall running now',
           DownloadFlags._should_continue "worker" running
             (DownloadFlags.resume_download now' (DownloadFlags.stop_download now t))
           = true)
    /\ (forall running now',
           DownloadFlags._should_continue "worker" running
             (DownloadFlags.set_flag now' "download_stop_requested" "0"
                (DownloadFlags.stop_download now t)) = true).
Proof.
  intros now k v t.
  split; [intros d; apply FlagFacts.get_after_set|].
  split; [intros k' d; apply FlagFacts.get_other|].
  split; [reflexivity|].
  split; [apply FlagFacts.set_keys|].
  unfold DownloadFlags._should_continue, DownloadFlags.stop_download,
    DownloadFlags.resume_download.
  cbn [String.eqb Ascii.eqb Bool.eqb andb].
  split; [|split]; intros; rewrite FlagFacts.get_after_set; reflexivity.
Qed.

(** X15 at work: with one flag stored, another one is added and the keys
    stay unique. *)
Lemma flags_last_write_wins_witness :
  NoDup (map DownloadFlags.key
           (DownloadFlags.set_flag 20 "download_stop_requested" "1"
              [DownloadFlags.mkFlag "download_running" "1" 10])).
Proof.
  apply (proj1 (proj2 (proj2 (proj2
           (flags_last_write_wins 20 "download_stop_requested"%string "1"%string
              [DownloadFlags.mkFlag "download_running" "1" 10]))))).
  simpl. repeat constructor. simpl. tauto.
Defined.

Module RuntimeFacts.
Import QueueRuntime.

Section WithJson.
Context {V : Type}.
Variable dumps : V -> string.
Variable loads : string -> V.

Lemma runtime_get_after_set ts k v d t :
  get_runtime loads k d (set_runtime dumps ts k v t) = loads (dumps v).
Proof.
  unfold get_runtime, set_runtime, select_one.
  destruct (find (has_key k) t) as [r|] eqn:F.
  - rewrite find_update_where by reflexivity. rewrite F. simpl.
    apply find_some in F. destruct F as [_ F]. rewrite F. reflexivity.
  - rewrite (find_app_none _ _ _ F). simpl. unfold has_key. simpl.
    rewrite String.eqb_refl. reflexivity.
Qed.

Lemma runtime_get_other ts k v k' d t :
  k' <> k -> get_runtime loads k' d (set_runtime dumps ts k v t) = get_runtime loads k' d t.
Proof.
  intros Hne. apply String.eqb_neq in Hne.
  unfold get_runtime, set_runtime, select_one.
  destruct (find (has_key k) t) as [r|] eqn:F.
  - rewrite find_update_where by reflexivity.
    destruct (find (has_key k') t) as [x|] eqn:G; simpl; [|reflexivity].
    apply find_some in G. destruct G as [_ G]. unfold has_key in *.
    apply String.eqb_eq in G. rewrite G, Hne. reflexivity.
  - destruct (find (has_key k') t) as [x|] eqn:G.
    + rewrite (find_app_some _ _ _ _ G). reflexivity.
    + rewrite (find_app_none _ _ _ G). simpl. unfold has_key. simpl.
      rewrite String.eqb_sym, Hne. reflexivity.
Qed.

End WithJson.

End RuntimeFacts.

(** X16.  The runtime table of the upload store gives back what was put in:
    when the serialisation round-trips on a value, [get_runtime] after
    [set_runtime] of a key returns that value, whatever was stored under the
    key before; every other key reads as before, and a key never set reads
    as the default. *)
Theorem runtime_round_trip :
  forall (V : Type) (dumps : V -> string) (loads : string -> V) ts k v t,
    loads (dumps v) = v ->
    (forall d, QueueRuntime.get_runtime loads k d (QueueRuntime.set_runtime dumps ts k v t)
               = v)
    /\ (forall k' d, k' <> k ->
           QueueRuntime.get_runtime loads k' d (QueueRuntime.set_runtime dumps ts k v t)
           = QueueRuntime.get_runtime loads k' d t)
    /\ (forall d, QueueRuntime.get_runtime loads k d [] = d).
Proof.
  intros V dumps loads ts k v t H.
  split; [intros d; rewrite RuntimeFacts.runtime_get_after_set; exact H|].
  split; [intros k' d; apply RuntimeFacts.runtime_get_other|reflexivity].
Qed.

(** X16 at work: the flag [upload_running] set to [True] by [/api/start]
    over an earlier [False] reads as [True]. *)
Lemma runtime_round_trip_witness :
  let dumps (b : bool) := if b then "true"%string else "false"%string in
  let loads (s : string) := String.eqb s "true" in
  QueueRuntime.get_runtime loads "upload_running" false
    (QueueRuntime.set_runtime dumps 20 "upload_running" true
       (QueueRuntime.set_runtime dumps 10 "upload_running" false []))
  = true.
Proof.
  intros dumps loads.
  apply (proj1 (runtime_round_trip bool dumps loads 20 "upload_running"%string true
                  (QueueRuntime.set_runtime dumps 10 "upload_running" false [])
                  eq_refl)).
Defined.

(** ** Images *)

Module ImageFacts.
Import Fetch Images.

Lemma total_size_from chunks : forall a,
  Forall (fun c => 0 <= c) chunks ->
  a <= fold_left (fun acc c => if c =? 0 then acc else acc + c) chunks a.
Proof.
  induction chunks as [|c chunks IH]; intros a H; simpl; [lia|].
  inversion H as [|? ? Hc Hr]; subst.
  destruct (c =? 0); [apply IH; exact Hr|].
  specialize (IH (a + c) Hr). lia.
Qed.

Lemma try_block_sized e filepath s s' :
  chunks_sized e ->
  try_block e filepath s = inr s' ->
  exists n, 0 < n /\ s' filepath = Some n.
Proof.
  unfold chunks_sized, try_block.
  destruct (http e) as [|status_ok ct chunks stream_ok]; [discriminate|].
  intros Hc.
  destruct status_ok; simpl; [|discriminate].
  destruct (prefix "image/" ct); simpl; [|discriminate].
  destruct (open_ok e); simpl; [|discriminate].
  destruct stream_ok; simpl; [|discriminate].
  destruct (total_size chunks =? 0) eqn:Z0; [discriminate|].
  destruct (rename_ok e); [|discriminate].
  intros H. injection H as <-. apply Z.eqb_neq in Z0.
  exists (total_size chunks). split.
  - pose proof (total_size_from chunks 0 Hc). unfold total_size in *. lia.
  - unfold rename_file, write_file.
    rewrite FetchFacts.tmp_differs, !String.eqb_refl. reflexivity.
Qed.

Lemma attempts_sized k : forall attempt env filepath s,
  (forall n, chunks_sized (env n)) ->
  fst (attempts k attempt env filepath s) = true ->
  exists n, 0 < n /\ snd (attempts k attempt env filepath s) filepath = Some n.
Proof.
  induction k as [|k IH]; intros attempt env filepath s Hc; cbn [attempts];
    [discriminate|].
  destruct (try_block (env attempt) filepath s) as [s1|s1] eqn:T.
  - apply IH. exact Hc.
  - intros _. simpl. apply (try_block_sized _ _ _ _ (Hc attempt) T).
Qed.

End ImageFacts.

(** X17.  An image that is already on disk is not fetched again.  An image
    is counted as downloaded only if its file is there and not empty
    afterwards; a file that is there and not empty is counted without any
    request and nothing on disk changes, whatever the network would answer;
    an image that is not counted leaves its file as it was, missing or
    empty.  So once an image was counted, every later pass over it counts it
    again and changes nothing.  Besides the file and its temporary sibling
    no path is touched. *)
Theorem fetch_image_outcome :
  forall env arquivo s,
    (forall n, Images.chunks_sized (env n)) ->
    let r := Images.fetch_image env arquivo s in
    (fst r = true -> exists n, 0 < n /\ snd r arquivo = Some n)
    /\ (fst r = false ->
        snd r arquivo = s arquivo /\ forall n, s arquivo = Some n -> n <= 0)
    /\ (forall n, s arquivo = Some n -> 0 < n -> r = (true, s))
    /\ (fst r = true ->
        forall env', Images.fetch_image env' arquivo (snd r) = (true, snd r))
    /\ (forall p, p <> arquivo -> p <> Fetch.tmp_of arquivo -> snd r p = s p).
Proof.
  intros env arquivo s Hc r.
  assert (Hkeep : forall s0 n, s0 arquivo = Some n -> 0 < n ->
                    forall env', Images.fetch_image env' arquivo s0 = (true, s0)).
  { intros s0 n E Hn env'. unfold Images.fetch_image. rewrite E.
    apply Z.ltb_lt in Hn. rewrite Hn. reflexivity. }
  assert (Hdl : let d := Fetch.download_with_retry env arquivo 3 s in
                (fst d = true -> exists n, 0 < n /\ snd d arquivo = Some n)
                /\ (fst d = false -> snd d arquivo = s arquivo)
                /\ same_elsewhere arquivo s (snd d)).
  { unfold Fetch.download_with_retry. cbv zeta.
    destruct (FetchFacts.attempts_spec (Z.to_nat 3) 1 env arquivo s) as [_ [H2 H3]].
    split; [apply ImageFacts.attempts_sized; exact Hc|].
    split; [intros Hf; apply (H2 Hf)|exact H3]. }
  cbv zeta in Hdl. destruct Hdl as [D1 [D2 D3]].
  assert (Hfirst : fst r = true -> exists n, 0 < n /\ snd r arquivo = Some n).
  { unfold r, Images.fetch_image. destruct (s arquivo) as [n|] eqn:E; [|exact D1].
    destruct (Z.ltb_spec 0 n); [|exact D1]. intros _. exists n. auto. }
  split; [exact Hfirst|]. split; [|split; [|split]].
  - unfold r, Images.fetch_image. destruct (s arquivo) as [n|] eqn:E.
    + destruct (Z.ltb_spec 0 n); [discriminate|].
      intros Hf. split; [exact (D2 Hf)|].
      intros n' En. injection En as <-. lia.
    + intros Hf. split; [exact (D2 Hf)|]. discriminate.
  - intros n E Hn. unfold r. apply (Hkeep s n E Hn).
  - intros Hf env'. destruct (Hfirst Hf) as [n [Hn E]]. apply (Hkeep _ n E Hn).
  - intros p Hp Ht. unfold r, Images.fetch_image.
    destruct (s arquivo) as [n|]; [destruct (0 <? n); [reflexivity|]|];
      apply D3; assumption.
Qed.

(** X17 at work: the first pass fetches a missing image of 5000 bytes; a
    second pass, with the network down, counts it and leaves the disk as it
    is. *)
Lemma fetch_image_outcome_witness :
  let env (n : Z) :=
    Fetch.mkEnv (Fetch.Response true "image/jpeg" [4096; 904] true) true true true in
  let down (n : Z) := Fetch.mkEnv Fetch.ConnError true true true in
  let r := Images.fetch_image env "cap_001/001.jpg" (fun _ => None) in
  fst r = true
  /\ Images.fetch_image down "cap_001/001.jpg" (snd r) = (true, snd r).
Proof.
  intros env down r.
  assert (Hc : forall n, Images.chunks_sized (env n)).
  { intros n. unfold Images.chunks_sized. simpl. repeat constructor; lia. }
  split; [reflexivity|].
  apply (proj1 (proj2 (proj2 (proj2
           (fetch_image_outcome env "cap_001/001.jpg"%string (fun _ => None) Hc))))).
  reflexivity.
Defined.

(** ** The chapter loop *)

Module CrawlFacts.
Import Crawl CrawlInv.

Lemma mem_false x l : mem x l = false -> ~ In x l.
Proof.
  unfold mem. intros H Hin.
  assert (E : existsb (String.eqb x) l = true).
  { apply existsb_exists. exists x. split; [exact Hin|apply String.eqb_refl]. }
  congruence.
Qed.

Lemma mem_true x l : mem x l = true -> In x l.
Proof.
  unfold mem. intros H. apply existsb_exists in H. destruct H as [y [Hy E]].
  apply String.eqb_eq in E. subst. exact Hy.
Qed.

Lemma In_mem x l : In x l -> mem x l = true.
Proof.
  intros H. unfold mem. apply existsb_exists. exists x.
  split; [exact H|apply String.eqb_refl].
Qed.

Section WithRun.

Variable env : Env.
Variable now : Z.
Variable job : Job.
Variable w0 : World.

Local Abbreviation key := (key env).
Local Abbreviation caps0 := (caps0 job w0).
Local Abbreviation visited0 := (visited0 env job w0).
Local Abbreviation fresh := (fresh env job w0).
Local Abbreviation recorded_ok := (recorded_ok env).
Local Abbreviation extends := (extends env job w0).
Local Abbreviation world_inv := (world_inv env job w0).
Local Abbreviation bounds := (bounds env job w0).
Local Abbreviation run_inv := (run_inv env job w0).
Local Abbreviation flow_ok := (flow_ok env job w0).

Lemma world_inv_save d w :
  world_inv w -> extends (capitulos_baixados d) ->
  world_inv (save_progress (nome job) d w).
Proof.
  intros [W1 [W2 W3]] Hd. split; [|split]; simpl.
  - intros d'. rewrite String.eqb_refl. intros E. injection E as <-. exact Hd.
  - intros o Hne. apply String.eqb_neq in Hne. rewrite Hne. apply W2.
    apply String.eqb_neq. exact Hne.
  - exact W3.
Qed.

Lemma world_inv_clear w : world_inv w -> world_inv (clear_progress (nome job) w).
Proof.
  intros [W1 [W2 W3]]. split; [|split]; simpl.
  - intros d'. rewrite String.eqb_refl. discriminate.
  - intros o Hne. apply String.eqb_neq in Hne. rewrite Hne. apply W2.
    apply String.eqb_neq. exact Hne.
  - exact W3.
Qed.

Lemma world_inv_upload obra w :
  world_inv w -> world_inv (adicionar_fila_upload env now obra job w).
Proof. intros [W1 [W2 W3]]. split; [|split]; simpl; assumption. Qed.

Lemma world_inv_requeue w u n p e b j uu :
  world_inv w ->
  world_inv (mkWorld (progress_file w) (upload_queue w)
               (snd (DownloadStore.enqueue now u n p e b j uu (download_queue w)))
               (handoffs w)).
Proof.
  intros [W1 [W2 W3]]. split; [|split]; simpl; try assumption.
  intros jid r L. specialize (W3 jid r L).
  destruct (DownloadStore.get_job_by_job_id (DownloadStore.jid_or j uu) (download_queue w));
    [exact W3|].
  unfold DownloadStore.get_job_by_job_id, select_one in *. apply find_app_some. exact W3.
Qed.

(** Appending a chapter whose key was not visited keeps the list fresh. *)
Lemma fresh_snoc new c (visited : list string) :
  fresh new ->
  (forall x, In x new -> In (key x) visited) ->
  (forall u, In u visited0 -> In u visited) ->
  ~ In (key c) visited ->
  recorded_ok c ->
  fresh (new ++ [c]).
Proof.
  intros [Hnd [Hv Hr]] Hin H0 Hc Hok. split; [|split].
  - rewrite map_app. simpl. apply NoDup_app; [exact Hnd|repeat constructor; simpl; tauto|].
    intros x Hx [E|[]]. subst x. apply Hc.
    apply in_map_iff in Hx. destruct Hx as [y [E Hy]]. rewrite <- E. apply Hin. exact Hy.
  - intros x Hx. apply in_app_or in Hx. destruct Hx as [Hx|[<-|[]]]; [apply Hv; exact Hx|].
    intros H. apply Hc. apply H0. exact H.
  - intros x Hx. apply in_app_or in Hx. destruct Hx as [Hx|[<-|[]]]; [apply Hr; exact Hx|].
    exact Hok.
Qed.

(** The image loop counts every image at most once, as downloaded or as
    failed, and all of them unless it is left on a stop request. *)
Lemma image_loop_counts u l : forall i n ok failed,
  let r := image_loop env u l i n ok failed in
  ok <= fst (fst (fst r))
  /\ failed <= snd (fst (fst r))
  /\ (fst (fst (fst r)) - ok) + (snd (fst (fst r)) - failed) <= Z.of_nat (List.length l)
  /\ (snd r = false ->
      (fst (fst (fst r)) - ok) + (snd (fst (fst r)) - failed) = Z.of_nat (List.length l)).
Proof.
  induction l as [|x l IH]; intros i n ok failed; cbn [image_loop].
  - cbv zeta. simpl. repeat split; lia.
  - destruct (negb (keep_going env n)).
    + cbv zeta. cbn [fst snd List.length]. repeat split; try lia; try discriminate.
    + destruct (image_ok env u i).
      * specialize (IH (i + 1) (S n) (ok + 1) failed). cbv zeta in IH |- *.
        destruct IH as [A [B [C D]]]. cbn [List.length]. rewrite Nat2Z.inj_succ.
        repeat split; try lia. intros S0. specialize (D S0). lia.
      * specialize (IH (i + 1) (S n) ok (failed + 1)). cbv zeta in IH |- *.
        destruct IH as [A [B [C D]]]. cbn [List.length]. rewrite Nat2Z.inj_succ.
        repeat split; try lia. intros S0. specialize (D S0). lia.
Qed.

Lemma run_inv_bounds r w :
  run_inv r w -> bounds (Z.of_nat (List.length (capitulos r))).
Proof.
  intros [I1 [[new [E [_ [_ Hlen]]]] [_ [I4 [I5 _]]]]]. unfold CrawlInv.bounds.
  rewrite E in *. rewrite length_app, Nat2Z.inj_add in *.
  split; [lia|]. split; [exact I5|]. intros Hb. specialize (I4 Hb). lia.
Qed.

(** One more chapter, recorded after the guard on [expected_total] let the
    position pass, still respects the limits. *)
Lemma run_inv_bounds_snoc r w c :
  run_inv r w ->
  (0 <? expected_total job) && (expected_total job <? capitulo r) = false ->
  bounds (Z.of_nat (List.length (capitulos r ++ [c]))).
Proof.
  intros [I1 [[new [E [_ [_ Hlen]]]] [_ [I4 [I5 _]]]]] G. unfold CrawlInv.bounds.
  rewrite length_app, Nat2Z.inj_add. simpl.
  rewrite E in *. rewrite length_app, Nat2Z.inj_add in *.
  split; [lia|]. split.
  - intros He. apply andb_false_iff in G. destruct G as [G|G].
    + apply Z.ltb_ge in G. lia.
    + apply Z.ltb_ge in G. lia.
  - intros Hb. specialize (I4 Hb). lia.
Qed.

Lemma extends_snoc r w c :
  run_inv r w ->
  chapter_url c = page_url r ->
  mem (norm env (page_url r)) (visited_urls r) = false ->
  recorded_ok c ->
  extends (capitulos r ++ [c]).
Proof.
  intros [_ [[new [E [Hf [Hk _]]]] [I3 _]]] Hc Hm Hok. exists (new ++ [c])%list. split.
  - rewrite E, app_assoc. reflexivity.
  - apply (fresh_snoc new c (visited_urls r)); auto.
    unfold CrawlInv.key. rewrite Hc. apply mem_false. exact Hm.
Qed.

Lemma extends_inv r w : run_inv r w -> extends (capitulos r).
Proof. intros [_ [[new [E [Hf _]]] _]]. exists new. auto. Qed.

Lemma iteration_ok r w : run_inv r w -> flow_ok (iteration env now job r w).
Proof.
  intros Inv. pose proof Inv as [I1 [[new [E [Hf [Hk Hlen]]]] [I3 [I4 [I5 W]]]]].
  pose proof (run_inv_bounds r w Inv) as B.
  pose proof (extends_inv r w Inv) as X.
  unfold iteration. cbv zeta.
  destruct ((0 <? expected_total job) && (expected_total job <? capitulo r)) eqn:G.
  { simpl. auto. }
  destruct (mem (norm env (page_url r)) (visited_urls r)) eqn:M.
  { simpl. split; [exact B|]. apply world_inv_save; assumption. }
  pose proof (fun c => run_inv_bounds_snoc r w c Inv G) as B1.
  pose proof (fun c Hc => extends_snoc r w c Inv Hc M) as X1.
  destruct (String.eqb _ "broken" && blocked (site env (page_url r))).
  { simpl. split; [apply B1|]. apply world_inv_save; [exact W|]. simpl. apply X1;
      [reflexivity|left; split; reflexivity]. }
  pose proof (image_loop_counts (page_url r) (imgs (site env (page_url r))) 1 (calls r) 0 0)
    as IL. cbv zeta in IL.
  destruct (image_loop env (page_url r) (imgs (site env (page_url r))) 1 (calls r) 0 0)
    as [[[ok failed] n] stopped].
  cbn [fst snd] in IL. destruct IL as [IL1 [IL2 [IL3 _]]].
  set (c1 := mkChapter (capitulo r) (page_url r) ok
               (classify (MIN_IMAGES_PER_CHAPTER env) (MIN_IMAGES_PARTIAL env)
                  (Z.of_nat (List.length (imgs (site env (page_url r))))))).
  assert (X2 : extends (capitulos r ++ [c1])).
  { apply X1; [reflexivity|]. right. unfold c1. cbn. split; [reflexivity|lia]. }
  match goal with
  | |- context [if stopped then ?a else ?b] =>
      assert (W' : world_inv (if stopped then a else b))
  end.
  { destruct stopped; [|exact W]. apply world_inv_save; [exact W|exact X]. }
  match goal with
  | |- context [if stopped then ?a else ?b] => set (w1 := if stopped then a else b) in *
  end.
  destruct (negb (keep_going env n)).
  { simpl. split; [apply B1|exact W']. }
  destruct (next_url (site env (page_url r))) as [new_url|].
  2:{ simpl. split; [apply B1|]. apply world_inv_clear. exact W'. }
  destruct (String.eqb _ _ || mem _ _) eqn:Adv.
  { simpl. split; [apply B1|]. apply world_inv_save; [exact W'|]. exact X2. }
  match goal with
  | |- context [if ?c then (true, ?a) else (?f, ?b)] =>
      assert (W2 : world_inv (snd (if c then (true, a) else (f, b))));
      [|destruct (if c then (true, a) else (f, b)) as [flag w2]]
  end.
  { match goal with |- context [if ?c then _ else _] => destruct c end; cbn [snd].
    - apply world_inv_save; [|exact X2].
      apply world_inv_upload. apply world_inv_save; [exact W'|]. exact X2.
    - apply world_inv_save; [exact W'|]. exact X2. }
  cbn [snd] in W2. cbn [batch_counter].
  destruct ((0 <? batch_of env job) && (batch_of env job <=? batch_counter r + 1)) eqn:Bt.
  - cbn [flow_ok CrawlInv.flow_ok r_capitulos]. split; [apply B1|].
    apply world_inv_requeue. exact W2.
  - cbn [flow_ok CrawlInv.flow_ok]. unfold CrawlInv.run_inv.
    cbn [capitulo capitulos visited_urls batch_counter].
    split; [rewrite length_app, Nat2Z.inj_add; simpl; lia|].
    split.
    { exists (new ++ [c1])%list.
      split; [rewrite E, app_assoc; reflexivity|].
      split.
      - apply (fresh_snoc new _ (visited_urls r)); auto.
        + unfold CrawlInv.key. simpl. apply mem_false. exact M.
        + right. unfold c1. cbn. split; [reflexivity|lia].
      - split.
        + intros c Hc. apply in_app_or in Hc. destruct Hc as [Hc|[<-|[]]].
          * right. apply Hk. exact Hc.
          * left. reflexivity.
        + rewrite length_app, Nat2Z.inj_add. simpl. lia. }
    split; [intros u Hu; right; apply I3; exact Hu|].
    split.
    { intros Hb. apply andb_false_iff in Bt. destruct Bt as [Bt|Bt].
      - apply Z.ltb_ge in Bt. lia.
      - apply Z.leb_gt in Bt. lia. }
    split; [|exact W2].
    intros He. pose proof (B1 (mkChapter 0 EmptyString 0 EmptyString)) as [_ [B2 _]].
    rewrite length_app, Nat2Z.inj_add in *. simpl in *. apply B2. exact He.
Qed.

Lemma chapters_ok fuel : forall r w f,
  run_inv r w -> chapters env now fuel job r w = Some f -> flow_ok f.
Proof.
  induction fuel as [|k IH]; intros r w f Inv H; simpl in H; [discriminate|].
  destruct (keep_going env (calls r)).
  - match type of H with
    | match iteration env now job ?r1 w with _ => _ end = _ =>
        assert (Inv1 : run_inv r1 w) by exact Inv;
        pose proof (iteration_ok r1 w Inv1) as Ok;
        destruct (iteration env now job r1 w) as [r' w'|reason stop r' w'|res w']
    end.
    + apply (IH r' w'); assumption.
    + injection H as <-. exact Ok.
    + injection H as <-. exact Ok.
  - injection H as <-. simpl. split; [apply (run_inv_bounds r w Inv)|apply Inv].
Qed.

End WithRun.

(** The state in which [run_download_bot] enters the loop satisfies the
    invariant. *)
Lemma start_inv env job w start calls_ :
  let d := load_progress (nome job) w in
  let caps := capitulos_baixados d in
  run_inv env job w
    (mkRun (Z.of_nat (List.length caps) + 1) caps
       (filter truthy (map (fun c => norm env (chapter_url c)) caps))
       (match p_upload_enqueued d with Some b => b | None => false end)
       0 0 0 start calls_) w.
Proof.
  intros d caps. unfold CrawlInv.run_inv. cbn [capitulo capitulos visited_urls batch_counter].
  split; [reflexivity|]. split.
  { exists []. split; [rewrite app_nil_r; reflexivity|].
    split; [split; [constructor|split; intros c []]|]. split; [intros c []|reflexivity]. }
  split; [intros u Hu; exact Hu|]. split; [intros Hb; exact Hb|]. split.
  { intros _. unfold CrawlInv.caps0. fold d. fold caps. lia. }
  split; [|split; auto].
  intros d' Hd'. exists []. rewrite app_nil_r. split.
  - unfold CrawlInv.caps0, load_progress. rewrite Hd'. reflexivity.
  - split; [constructor|split; intros c []].
Qed.

Lemma run_download_bot_ok env now fuel job w res w' :
  run_download_bot env now fuel job w = Some (res, w') ->
  bounds env job w (r_capitulos res) /\ world_inv env job w w'.
Proof.
  unfold run_download_bot. cbv zeta.
  match goal with
  | |- match chapters env now fuel job ?r0 w with _ => _ end = _ -> _ =>
      pose proof (fun f => chapters_ok env now job w fuel r0 w f
                             (start_inv env job w _ _)) as Ok;
      destruct (chapters env now fuel job r0 w) as [f|]; [|discriminate]
  end.
  specialize (Ok f eq_refl).
  destruct f as [r1 w1|reason stop r1 w1|res1 w1]; [discriminate| |].
  - destruct Ok as [B W]. destruct reason as [s|]; intros H; injection H as <- <-;
      cbn [r_capitulos]; split; auto.
  - intros H. injection H as <- <-. exact Ok.
Qed.

End CrawlFacts.

(** X18.  A run of [run_download_bot] never drops a chapter from the record
    and respects the two limits of the job: with [n0] chapters on record at
    the start, the number of chapters in the result is at least [n0]; when
    [expected_total] is set it does not exceed the larger of [n0] and
    [expected_total]; when a batch size is in force it does not exceed
    [n0 + batch_size]. *)
Theorem run_respects_limits :
  forall env now fuel job w res w',
    Crawl.run_download_bot env now fuel job w = Some (res, w') ->
    let n0 := Z.of_nat (List.length
                (Crawl.capitulos_baixados (Crawl.load_progress (Crawl.nome job) w))) in
    n0 <= Crawl.r_capitulos res
    /\ (0 < Crawl.expected_total job ->
        Crawl.r_capitulos res <= Z.max n0 (Crawl.expected_total job))
    /\ (0 < Crawl.batch_of env job ->
        Crawl.r_capitulos res <= n0 + Crawl.batch_of env job).
Proof.
  intros env now fuel job w res w' H.
  exact (proj1 (CrawlFacts.run_download_bot_ok env now fuel job w res w' H)).
Qed.

(** X18 at work: the run resumed with two chapters on record and
    [expected_total = 5] ends with at most five. *)
Lemma run_respects_limits_witness :
  exists res w',
    Crawl.run_download_bot Scenario.env 200 20 Scenario.job_a Scenario.resumed_world
    = Some (res, w')
    /\ 2 <= Crawl.r_capitulos res <= 5.
Proof.
  destruct (Crawl.run_download_bot Scenario.env 200 20 Scenario.job_a Scenario.resumed_world)
    as [[res w']|] eqn:R; [|vm_compute in R; discriminate].
  exists res, w'. split; [reflexivity|].
  destruct (run_respects_limits _ _ _ _ _ _ _ R) as [H1 [H2 _]].
  split; [exact H1|]. apply H2. reflexivity.
Defined.

(** X19.  The progress record of a work only grows, and without
    duplicates: whatever record of the work a run leaves behind, its chapter
    list is the list found at the start followed by chapters whose
    normalized URLs are pairwise distinct and differ from every non-empty
    normalized URL recorded before.  The records of all other works are left
    as they were. *)
Theorem progress_grows_without_duplicates :
  forall env now fuel job w res w',
    Crawl.run_download_bot env now fuel job w = Some (res, w') ->
    let before := Crawl.capitulos_baixados (Crawl.load_progress (Crawl.nome job) w) in
    (forall d,
        Crawl.progress_file w' (Crawl.nome job) = Some d ->
        exists new,
          Crawl.capitulos_baixados d = (before ++ new)%list
          /\ NoDup (map (fun c => Crawl.norm env (Crawl.chapter_url c)) new)
          /\ forall c c0,
               In c new -> In c0 before ->
               Crawl.norm env (Crawl.chapter_url c) = Crawl.norm env (Crawl.chapter_url c0) ->
               Crawl.norm env (Crawl.chapter_url c) = EmptyString)
    /\ (forall o, o <> Crawl.nome job -> Crawl.progress_file w' o = Crawl.progress_file w o).
Proof.
  intros env now fuel job w res w' H before.
  destruct (CrawlFacts.run_download_bot_ok env now fuel job w res w' H) as [_ [W1 [W2 _]]].
  split; [|exact W2].
  intros d Hd. destruct (W1 d Hd) as [new [E [Hnd [Hv _]]]].
  exists new. split; [exact E|]. split; [exact Hnd|].
  intros c c0 Hc Hc0 Ek.
  destruct (String.eqb (Crawl.norm env (Crawl.chapter_url c)) EmptyString) eqn:T;
    [apply String.eqb_eq; exact T|].
  exfalso. apply (Hv c Hc). unfold CrawlInv.visited0. apply filter_In. split.
  - change (In (Crawl.norm env (Crawl.chapter_url c))
              (map (CrawlInv.key env) (CrawlInv.caps0 job w))).
    rewrite Ek. apply in_map_iff. exists c0. split; [reflexivity|exact Hc0].
  - unfold Crawl.truthy, CrawlInv.key. rewrite T. reflexivity.
Qed.

(** X19 at work: the resumed run that stops with the batch limit leaves a
    record that starts with the two chapters recorded before. *)
Lemma progress_grows_without_duplicates_witness :
  let job := Crawl.mkJob "J1" (Some "J1"%string) "https://s/c1" "obra" 0 2 false None in
  exists res w' d new,
    Crawl.run_download_bot Scenario.env 200 20 job Scenario.resumed_world = Some (res, w')
    /\ Crawl.progress_file w' "obra"%string = Some d
    /\ Crawl.capitulos_baixados d
       = ([Crawl.mkChapter 1 "https://s/c1" 3 "ok";
           Crawl.mkChapter 2 "https://s/c2" 3 "ok"] ++ new)%list
    /\ NoDup (map (fun c => Crawl.norm Scenario.env (Crawl.chapter_url c)) new).
Proof.
  intros job.
  destruct (Crawl.run_download_bot Scenario.env 200 20 job Scenario.resumed_world)
    as [[res w']|] eqn:R; [|vm_compute in R; discriminate].
  destruct (Crawl.progress_file w' "obra"%string) as [d|] eqn:P.
  - destruct (progress_grows_without_duplicates _ _ _ _ _ _ _ R) as [H _].
    destruct (H d P) as [new [E [Hnd _]]].
    exists res, w', d, new. auto.
  - exfalso. vm_compute in R. injection R as _ <-. vm_compute in P. discriminate.
Defined.

(** ** The download worker and the crawl *)

(** X20.  The download worker marks the job it took as [done] whenever
    [run_download_bot] returns, whatever the stop reason in the result: a
    run that stopped because the site blocked it, because a position
    repeated or because the next button did not advance completes the job
    just like a run that reached the end; [tries] is left as it was, so
    such a job is not retried. *)
Theorem download_worker_marks_job_done :
  forall env now fuel worker w w' j dq,
    download_wf (Crawl.download_queue w) ->
    DownloadStore.claim_next now worker (Crawl.download_queue w) = (Some j, dq) ->
    Crawl.download_worker_iteration env now fuel worker w = Some w' ->
    exists r',
      DownloadStore.get_job_by_job_id (DownloadStore.job_id j) (Crawl.download_queue w')
      = Some r'
      /\ DownloadStore.status r' = "done"%string
      /\ DownloadStore.state r' = "completed"%string
      /\ DownloadStore.tries r' = DownloadStore.tries j
      /\ exists res w1,
           Crawl.run_download_bot env now fuel
             (Crawl.mkJob (DownloadStore.job_id j) (Some (DownloadStore.job_id j))
                (DownloadStore.url j) (DownloadStore.nome j)
                (DownloadStore.expected_total j)
                (if DownloadStore.batch_size j =? 0 then Crawl.BATCH_SIZE_DEFAULT env
                 else DownloadStore.batch_size j) false None)
             (Crawl.mkWorld (Crawl.progress_file w) (Crawl.upload_queue w)
                (DownloadStore.set_status now (DownloadStore.job_id j) "downloading"
                   "running" dq)
                (Crawl.handoffs w)) = Some (res, w1)
           /\ DownloadStore.result_json r'
              = Crawl.result_of env (Crawl.r_stopped_reason res) (Crawl.r_capitulos res).
Proof.
  intros env now fuel worker w w' j dq Hwf C H.
  destruct (download_claim_full _ _ _ _ _ Hwf C) as [row [_ [_ [_ L2]]]].
  unfold Crawl.download_worker_iteration in H. rewrite C in H. cbv zeta in H.
  match type of H with
  | match Crawl.run_download_bot env now fuel ?jb ?wd with _ => _ end = _ =>
      destruct (Crawl.run_download_bot env now fuel jb wd) as [[res w1]|] eqn:R;
      [|discriminate]
  end.
  injection H as <-. cbn [Crawl.download_queue].
  destruct (CrawlFacts.run_download_bot_ok _ _ _ _ _ _ _ R) as [_ [_ [_ W3]]].
  cbn [Crawl.download_queue] in W3.
  eassert (L3 : DownloadStore.get_job_by_job_id (DownloadStore.job_id j)
                  (DownloadStore.set_status now (DownloadStore.job_id j)
                     "downloading" "running" dq) = Some _).
  { unfold DownloadStore.set_status. apply get_update_key; [reflexivity|exact L2]. }
  apply W3 in L3.
  eassert (L4 : DownloadStore.get_job_by_job_id (DownloadStore.job_id j)
                  (DownloadStore.set_status now (DownloadStore.job_id j)
                     "validating" "validating" (Crawl.download_queue w1)) = Some _).
  { unfold DownloadStore.set_status. apply get_update_key; [reflexivity|exact L3]. }
  eassert (L5 : DownloadStore.get_job_by_job_id (DownloadStore.job_id j)
                  (DownloadStore.mark_done now (DownloadStore.job_id j) _ _ _) = Some _).
  { unfold DownloadStore.mark_done. apply get_update_key; [reflexivity|exact L4]. }
  eexists. split; [exact L5|]. cbn.
  split; [reflexivity|]. split; [reflexivity|]. split; [reflexivity|].
  exists res, w1. split; reflexivity.
Qed.

(** X20 at work: the site answers with a block page; the run stops with
    [blocked] and the worker still marks the job as done. *)
Lemma download_worker_marks_job_done_witness :
  let env := Crawl.mkEnvironment (fun _ => Crawl.mkPage [] true None) (fun _ => true)
               (fun _ _ => true) (fun _ => true) 3 1 0 "downloads" (fun p => p)
               (fun _ _ _ jid => jid)
               (fun reason _ => match reason with Some s => s | None => "ok"%string end)
               (fun _ => "{}"%string) in
  let w := Crawl.mkWorld (fun _ => None) []
             (DownloadOps.run Sample.two_downloads []) [] in
  exists w' r',
    Crawl.download_worker_iteration env 100 20 "w1" w = Some w'
    /\ DownloadStore.get_job_by_job_id "a" (Crawl.download_queue w') = Some r'
    /\ DownloadStore.status r' = "done"%string
    /\ DownloadStore.result_json r' = "blocked"%string.
Proof.
  intros env w.
  destruct (Crawl.download_worker_iteration env 100 20 "w1" w) as [w'|] eqn:H;
    [|vm_compute in H; discriminate].
  destruct (DownloadStore.claim_next 100 "w1" (Crawl.download_queue w)) as [[j|] dq] eqn:C;
    [|vm_compute in C; discriminate].
  assert (Ej : DownloadStore.job_id j = "a"%string).
  { vm_compute in C. injection C as <- _. reflexivity. }
  destruct (download_worker_marks_job_done env 100 20 "w1"%string w w' j dq) as
    [r' [L [S [_ [_ _]]]]].
  - apply DownloadFacts.download_run_wf. split; constructor.
  - exact C.
  - exact H.
  - rewrite Ej in L. exists w', r'. split; [reflexivity|]. split; [exact L|].
    split; [exact S|].
    vm_compute in H. injection H as <-. vm_compute in L. injection L as <-. reflexivity.
Defined.

(** ** Resuming *)

Module ResumeFacts.
Import Crawl.

Section WithEnv.

Variable env : Env.
Variable now : Z.
Variable job : Job.

(** What a pass through the loop body that ends on a block has written. *)
Lemma iteration_blocked r w stop r' w' :
  iteration env now job r w = Break (Some "blocked"%string) stop r' w' ->
  stop = Some (page_url r)
  /\ exists d,
       progress_file w' (nome job) = Some d
       /\ ultimo_capitulo_url d = Some (page_url r)
       /\ capitulos_baixados d = capitulos r'
       /\ In (page_url r) (map chapter_url (capitulos r')).
Proof.
  unfold iteration. cbv zeta.
  destruct ((0 <? expected_total job) && (expected_total job <? capitulo r));
    [discriminate|].
  destruct (mem (norm env (page_url r)) (visited_urls r)); [discriminate|].
  destruct (String.eqb _ "broken" && blocked (site env (page_url r))).
  { intros H. injection H as <- <- <-. split; [reflexivity|].
    eexists. split; [simpl; rewrite String.eqb_refl; reflexivity|].
    simpl. split; [reflexivity|]. split; [reflexivity|].
    rewrite map_app. apply in_or_app. right. simpl. auto. }
  destruct (image_loop env (page_url r) (imgs (site env (page_url r))) 1 (calls r) 0 0)
    as [[[ok failed] n] stopped].
  destruct (negb (keep_going env n)); [discriminate|].
  destruct (next_url (site env (page_url r))) as [new_url|]; [|discriminate].
  destruct (String.eqb _ _ || mem _ _); [discriminate|].
  match goal with
  | |- context [if ?c then (true, ?a) else (?f, ?b)] =>
      destruct (if c then (true, a) else (f, b)) as [flag w2]
  end.
  destruct ((0 <? batch_of env job) && _); discriminate.
Qed.

(** A pass through the loop body returns only on a batch continuation. *)
Lemma iteration_return r w res w' :
  iteration env now job r w = Return res w' ->
  r_stopped_reason res = Some "batch_requeued"%string.
Proof.
  unfold iteration. cbv zeta.
  destruct ((0 <? expected_total job) && (expected_total job <? capitulo r));
    [discriminate|].
  destruct (mem (norm env (page_url r)) (visited_urls r)); [discriminate|].
  destruct (String.eqb _ "broken" && blocked (site env (page_url r))); [discriminate|].
  destruct (image_loop env (page_url r) (imgs (site env (page_url r))) 1 (calls r) 0 0)
    as [[[ok failed] n] stopped].
  destruct (negb (keep_going env n)); [discriminate|].
  destruct (next_url (site env (page_url r))) as [new_url|]; [|discriminate].
  destruct (String.eqb _ _ || mem _ _); [discriminate|].
  match goal with
  | |- context [if ?c then (true, ?a) else (?f, ?b)] =>
      destruct (if c then (true, a) else (f, b)) as [flag w2]
  end.
  destruct ((0 <? batch_of env job) && _); [|discriminate].
  intros H. injection H as <- _. reflexivity.
Qed.

Lemma chapters_blocked fuel : forall r w stop r' w',
  chapters env now fuel job r w = Some (Break (Some "blocked"%string) stop r' w') ->
  exists u d,
    stop = Some u
    /\ progress_file w' (nome job) = Some d
    /\ ultimo_capitulo_url d = Some u
    /\ capitulos_baixados d = capitulos r'
    /\ In u (map chapter_url (capitulos r')).
Proof.
  induction fuel as [|k IH]; intros r w stop r' w' H; simpl in H; [discriminate|].
  destruct (keep_going env (calls r)); [|discriminate].
  match type of H with
  | match iteration env now job ?r1 w with _ => _ end = _ =>
      destruct (iteration env now job r1 w) as [r2 w2|reason st r2 w2|res w2] eqn:It
  end.
  - apply (IH _ _ _ _ _ H).
  - injection H as -> -> -> ->.
    destruct (iteration_blocked _ _ _ _ _ It) as [E [d Hd]].
    exists (page_url r), d. simpl in E, Hd. tauto.
  - discriminate.
Qed.

Lemma chapters_return fuel : forall r w res w',
  chapters env now fuel job r w = Some (Return res w') ->
  r_stopped_reason res = Some "batch_requeued"%string.
Proof.
  induction fuel as [|k IH]; intros r w res w' H; simpl in H; [discriminate|].
  destruct (keep_going env (calls r)); [|discriminate].
  match type of H with
  | match iteration env now job ?r1 w with _ => _ end = _ =>
      destruct (iteration env now job r1 w) as [r2 w2|reason st r2 w2|res2 w2] eqn:It
  end.
  - apply (IH _ _ _ _ H).
  - discriminate.
  - injection H as <- <-. apply (iteration_return _ _ _ _ It).
Qed.

(** What a run that reports a block has left in the progress record. *)
Lemma run_blocked fuel w res w1 :
  run_download_bot env now fuel job w = Some (res, w1) ->
  r_stopped_reason res = Some "blocked"%string ->
  exists u d,
    r_resume_url res = Some u
    /\ progress_file w1 (nome job) = Some d
    /\ ultimo_capitulo_url d = Some u
    /\ In u (map chapter_url (capitulos_baixados d))
    /\ r_capitulos res = Z.of_nat (List.length (capitulos_baixados d)).
Proof.
  unfold run_download_bot. cbv zeta.
  match goal with
  | |- match chapters env now fuel job ?r0 w with _ => _ end = _ -> _ =>
      destruct (chapters env now fuel job r0 w) as [f|] eqn:Ch; [|discriminate]
  end.
  destruct f as [r1 w2|reason stop r1 w2|res1 w2]; [discriminate| |].
  - destruct reason as [s|]; intros H; injection H as <- <-; cbn; intros Hr;
      [|discriminate].
    injection Hr as ->.
    destruct (chapters_blocked _ _ _ _ _ _ Ch) as [u [d [E [Hd [Hu [Hc Hin]]]]]].
    exists u, d. rewrite Hc. auto.
  - intros H. injection H as <- <-. intros Hr.
    rewrite (chapters_return _ _ _ _ _ Ch) in Hr. discriminate.
Qed.

End WithEnv.

(** A run that starts at a position already on record ends at once. *)
Lemma resume_recorded env now fuel job w d u :
  progress_file w (nome job) = Some d ->
  ultimo_capitulo_url d = Some u ->
  In u (map chapter_url (capitulos_baixados d)) ->
  force_url job = false ->
  keep_going env 0 = true ->
  norm env u <> EmptyString ->
  exists res w',
    run_download_bot env now (S fuel) job w = Some (res, w')
    /\ r_capitulos res = Z.of_nat (List.length (capitulos_baixados d))
    /\ (r_stopped_reason res = Some "url_repetida"%string
        \/ r_stopped_reason res = Some "expected_total_reached"%string)
    /\ upload_queue w' = upload_queue w
    /\ download_queue w' = download_queue w
    /\ handoffs w' = handoffs w.
Proof.
  intros Hd Hu Hin Hf Hk Hn.
  assert (Tu : truthy u = true).
  { unfold truthy. destruct (String.eqb u EmptyString) eqn:E; [|reflexivity].
    apply String.eqb_eq in E. subst u. exfalso. apply Hn. reflexivity. }
  assert (Tn : truthy (norm env u) = true).
  { unfold truthy. apply String.eqb_neq in Hn. rewrite Hn. reflexivity. }
  unfold run_download_bot, load_progress. rewrite Hd. cbv zeta. rewrite Hu, Tu, Hf.
  cbn [andb negb chapters calls]. rewrite Hk.
  unfold iteration. cbv zeta. cbn [capitulo page_url visited_urls capitulos].
  destruct ((0 <? expected_total job) && _).
  { eexists. eexists. split; [reflexivity|]. cbn. auto 10. }
  assert (M : mem (norm env u)
                (filter truthy (map (fun c => norm env (chapter_url c))
                                  (capitulos_baixados d))) = true).
  { apply CrawlFacts.In_mem. apply filter_In. split; [|exact Tn].
    apply in_map_iff in Hin. destruct Hin as [c [E Hc]].
    apply in_map_iff. exists c. rewrite E. auto. }
  rewrite M. eexists. eexists. split; [reflexivity|]. cbn. auto 10.
Qed.

End ResumeFacts.

(** X21.  A work that stopped on a block cannot be resumed.  The blocked
    chapter is written to the progress record together with its URL as the
    position to resume from, so the record already holds the position at
    which the next run starts: whenever a run reports [blocked], every
    later run of that work that resumes from the record ends on its first
    position, with [url_repetida] (or [expected_total_reached] when that
    limit is exhausted), records no chapter, and hands nothing over to the
    upload queue. *)
Theorem blocked_work_cannot_resume :
  forall env now fuel job w res1 w1,
    Crawl.run_download_bot env now fuel job w = Some (res1, w1) ->
    Crawl.r_stopped_reason res1 = Some "blocked"%string ->
    exists u,
      Crawl.r_resume_url res1 = Some u
      /\ forall env2 now2 fuel2 job2,
           Crawl.nome job2 = Crawl.nome job ->
           Crawl.force_url job2 = false ->
           Crawl.keep_going env2 0 = true ->
           Crawl.norm env2 u <> EmptyString ->
           exists res2 w2,
             Crawl.run_download_bot env2 now2 (S fuel2) job2 w1 = Some (res2, w2)
             /\ Crawl.r_capitulos res2 = Crawl.r_capitulos res1
             /\ (Crawl.r_stopped_reason res2 = Some "url_repetida"%string
                 \/ Crawl.r_stopped_reason res2 = Some "expected_total_reached"%string)
             /\ Crawl.upload_queue w2 = Crawl.upload_queue w1
             /\ Crawl.download_queue w2 = Crawl.download_queue w1.
Proof.
  intros env now fuel job w res1 w1 R Hb.
  destruct (ResumeFacts.run_blocked env now job fuel w res1 w1 R Hb)
    as [u [d [Hu [Hd [Hl [Hin Hn]]]]]].
  exists u. split; [exact Hu|].
  intros env2 now2 fuel2 job2 Hnome Hf Hk Hne. rewrite <- Hnome in Hd.
  destruct (ResumeFacts.resume_recorded env2 now2 fuel2 job2 w1 d u Hd Hl Hin Hf Hk Hne)
    as [res2 [w2 [R2 [C2 [S2 [U2 [D2 _]]]]]]].
  exists res2, w2. rewrite Hn. auto.
Qed.

(** X21 at work: the second position of a work answers with a block page;
    the run stops there with one chapter and the blocked one on record.
    When the site is back to normal, the next run of the work still ends at
    once with [url_repetida]. *)
Lemma blocked_work_cannot_resume_witness :
  let site1 (u : string) :=
    if String.eqb u "https://s/c1"
    then Crawl.mkPage ["a"; "b"; "c"]%string false (Some "https://s/c2"%string)
    else Crawl.mkPage [] true None in
  let env1 := Crawl.mkEnvironment site1 (fun _ => true) (fun _ _ => true) (fun _ => true)
                3 1 0 "downloads" (fun p => p) (fun _ _ _ jid => jid)
                (fun _ _ => "{}"%string) (fun _ => "{}"%string) in
  exists res1 w1 res2 w2,
    Crawl.run_download_bot env1 100 20 Scenario.job_a Scenario.empty_world
    = Some (res1, w1)
    /\ Crawl.r_stopped_reason res1 = Some "blocked"%string
    /\ Crawl.run_download_bot Scenario.env 200 20 Scenario.job_a w1 = Some (res2, w2)
    /\ Crawl.r_stopped_reason res2 = Some "url_repetida"%string
    /\ Crawl.r_capitulos res2 = Crawl.r_capitulos res1.
Proof.
  intros site1 env1.
  destruct (Crawl.run_download_bot env1 100 20 Scenario.job_a Scenario.empty_world)
    as [[res1 w1]|] eqn:R1; [|vm_compute in R1; discriminate].
  assert (Hb : Crawl.r_stopped_reason res1 = Some "blocked"%string).
  { vm_compute in R1. injection R1 as <- _. reflexivity. }
  destruct (blocked_work_cannot_resume _ _ _ _ _ _ _ R1 Hb) as [u [Hu H]].
  assert (Eu : u = "https://s/c2"%string).
  { vm_compute in R1. injection R1 as <- _. simpl in Hu. injection Hu as <-. reflexivity. }
  destruct (H Scenario.env 200 19%nat Scenario.job_a eq_refl eq_refl eq_refl)
    as [res2 [w2 [R2 [C2 [S2 _]]]]].
  { rewrite Eu. vm_compute. discriminate. }
  exists res1, w1, res2, w2. split; [reflexivity|]. split; [exact Hb|].
  split; [exact R2|]. split; [|exact C2].
  destruct S2 as [S2|S2]; [exact S2|].
  exfalso. vm_compute in R1. injection R1 as <- <-. vm_compute in R2.
  injection R2 as <- _. discriminate.
Defined.

(** ** Termination of the chapter loop *)

Module LoopFacts.
Import Crawl.

Section WithEnv.

Variable env : Env.
Variable now : Z.
Variable job : Job.

(** What the loop body has checked and counted when the loop goes on. *)
Lemma iteration_continue r w r' w' :
  iteration env now job r w = Continue r' w' ->
  capitulo r' = capitulo r + 1
  /\ batch_counter r' = batch_counter r + 1
  /\ (0 <? expected_total job) && (expected_total job <? capitulo r) = false
  /\ (0 <? batch_of env job) && (batch_of env job <=? batch_counter r + 1) = false.
Proof.
  unfold iteration. cbv zeta.
  destruct ((0 <? expected_total job) && (expected_total job <? capitulo r));
    [discriminate|].
  destruct (mem (norm env (page_url r)) (visited_urls r)); [discriminate|].
  destruct (String.eqb _ "broken" && blocked (site env (page_url r))); [discriminate|].
  destruct (image_loop env (page_url r) (imgs (site env (page_url r))) 1 (calls r) 0 0)
    as [[[ok failed] n] stopped].
  destruct (negb (keep_going env n)); [discriminate|].
  destruct (next_url (site env (page_url r))) as [new_url|]; [|discriminate].
  destruct (String.eqb _ _ || mem _ _); [discriminate|].
  match goal with
  | |- context [if ?c then (true, ?a) else (?f, ?b)] =>
      destruct (if c then (true, a) else (f, b)) as [flag w2]
  end.
  cbn [batch_counter].
  destruct ((0 <? batch_of env job) && (batch_of env job <=? batch_counter r + 1));
    [discriminate|].
  intros H. injection H as <- _. cbn. auto.
Qed.

Lemma chapters_not_continue fuel : forall r w r' w',
  chapters env now fuel job r w <> Some (Continue r' w').
Proof.
  induction fuel as [|k IH]; intros r w r' w' H; simpl in H; [discriminate|].
  destruct (keep_going env (calls r)); [|discriminate].
  match type of H with
  | match iteration env now job ?r1 w with _ => _ end = _ =>
      destruct (iteration env now job r1 w) as [r2 w2|reason st r2 w2|res w2]
  end; [apply (IH _ _ _ _ H)|discriminate|discriminate].
Qed.

(** With [expected_total] set, the loop ends after at most
    [expected_total - capitulo + 2] evaluations of its condition. *)
Lemma chapters_ends_expected fuel : forall r w,
  0 < expected_total job ->
  Z.max 0 (expected_total job - capitulo r + 1) < Z.of_nat fuel ->
  exists f, chapters env now fuel job r w = Some f.
Proof.
  induction fuel as [|k IH]; intros r w He Hf; [simpl in Hf; lia|].
  cbn [chapters]. destruct (keep_going env (calls r)); [|eexists; reflexivity].
  match goal with
  | |- exists f, match iteration env now job ?r1 w with _ => _ end = _ =>
      destruct (iteration env now job r1 w) as [r2 w2|reason st r2 w2|res w2] eqn:It
  end; [|eexists; reflexivity|eexists; reflexivity].
  destruct (iteration_continue _ _ _ _ It) as [C1 [_ [G _]]]. cbn [capitulo] in C1, G.
  apply IH; [exact He|].
  apply andb_false_iff in G. destruct G as [G|G]; apply Z.ltb_ge in G; lia.
Qed.

(** With a batch size in force, the loop ends after at most
    [batch_size - batch_counter] evaluations of its condition. *)
Lemma chapters_ends_batch fuel : forall r w,
  0 < batch_of env job ->
  Z.max 1 (batch_of env job - batch_counter r) <= Z.of_nat fuel ->
  exists f, chapters env now fuel job r w = Some f.
Proof.
  induction fuel as [|k IH]; intros r w Hb Hf; [simpl in Hf; lia|].
  cbn [chapters]. destruct (keep_going env (calls r)); [|eexists; reflexivity].
  match goal with
  | |- exists f, match iteration env now job ?r1 w with _ => _ end = _ =>
      destruct (iteration env now job r1 w) as [r2 w2|reason st r2 w2|res w2] eqn:It
  end; [|eexists; reflexivity|eexists; reflexivity].
  destruct (iteration_continue _ _ _ _ It) as [_ [C2 [_ G]]]. cbn [batch_counter] in C2, G.
  apply IH; [exact Hb|].
  apply andb_false_iff in G. destruct G as [G|G];
    [apply Z.ltb_ge in G|apply Z.leb_gt in G]; lia.
Qed.

End WithEnv.

End LoopFacts.

(** X22.  The chapter loop ends on its own when the job has a limit.  With
    [expected_total] set and [n0] chapters on record, [run_download_bot]
    returns after visiting at most [expected_total - n0 + 1] positions (one
    position if the record is already full); with a batch size in force it
    returns after at most [batch_size] positions.  In the model the number
    of positions visited is bounded by [fuel], so any larger [fuel] gives a
    result. *)
Theorem run_ends_within_limits :
  forall env now fuel job w,
    let n0 := Z.of_nat (List.length
                (Crawl.capitulos_baixados (Crawl.load_progress (Crawl.nome job) w))) in
    (0 < Crawl.expected_total job
     /\ Z.max 0 (Crawl.expected_total job - n0) < Z.of_nat fuel)
    \/ (0 < Crawl.batch_of env job /\ Crawl.batch_of env job <= Z.of_nat fuel) ->
    exists res w', Crawl.run_download_bot env now fuel job w = Some (res, w').
Proof.
  intros env now fuel job w n0 H. unfold Crawl.run_download_bot. cbv zeta.
  match goal with
  | |- exists res w', match Crawl.chapters env now fuel job ?r0 w with _ => _ end = _ =>
      assert (T : exists f, Crawl.chapters env now fuel job r0 w = Some f);
      [|destruct T as [f T];
        pose proof (LoopFacts.chapters_not_continue env now job fuel r0 w) as NC;
        rewrite T in *]
  end.
  { destruct H as [[He Hf]|[Hb Hf]].
    - apply LoopFacts.chapters_ends_expected; [exact He|]. cbn [Crawl.capitulo].
      fold n0. lia.
    - apply LoopFacts.chapters_ends_batch; [exact Hb|]. cbn [Crawl.batch_counter]. lia. }
  destruct f as [r1 w1|reason stop r1 w1|res1 w1].
  - exfalso. apply (NC r1 w1). reflexivity.
  - destruct reason; eexists; eexists; reflexivity.
  - eexists. eexists. reflexivity.
Qed.

(** X22 at work: with [expected_total = 5] and nothing on record, six
    visits are enough for the five-chapter work; with two chapters on record
    four are. *)
Lemma run_ends_within_limits_witness :
  (exists res w',
      Crawl.run_download_bot Scenario.env 100 6 Scenario.job_a Scenario.empty_world
      = Some (res, w'))
  /\ (exists res w',
         Crawl.run_download_bot Scenario.env 200 4 Scenario.job_a Scenario.resumed_world
         = Some (res, w')).
Proof.
  split.
  - apply run_ends_within_limits. left. simpl. lia.
  - apply run_ends_within_limits. left. simpl. lia.
Defined.

(** ** The fragment of a URL *)

Module FragmentFacts.
Import Url.
Local Open Scope string_scope.

Lemma lstrip_append p a c b :
  p c = false -> lstrip p (a ++ String c b) = lstrip p a ++ String c b.
Proof.
  intros H. induction a as [|x a IH]; simpl; [rewrite H; reflexivity|].
  destruct (p x); [exact IH|reflexivity].
Qed.

Lemma filter_chars_append p a b :
  filter_chars p (a ++ b) = filter_chars p a ++ filter_chars p b.
Proof.
  induction a as [|x a IH]; simpl; [reflexivity|].
  destruct (p x); simpl; rewrite IH; reflexivity.
Qed.

Lemma exists_char_lstrip d p s :
  exists_char d s = false -> exists_char d (lstrip p s) = false.
Proof.
  induction s as [|x s IH]; simpl; [auto|]. intros E.
  destruct (p x); [|exact E]. apply IH. apply orb_false_elim in E. tauto.
Qed.

Lemma exists_char_filter d p s :
  exists_char d s = false -> exists_char d (filter_chars p s) = false.
Proof.
  induction s as [|x s IH]; simpl; [auto|]. intros E.
  apply orb_false_elim in E. destruct E as [E1 E2].
  destruct (p x); simpl; [rewrite E1|]; auto.
Qed.

Lemma forall_chars_append p a b :
  forall_chars p (a ++ b) = forall_chars p a && forall_chars p b.
Proof.
  induction a as [|x a IH]; simpl; [reflexivity|].
  rewrite IH. apply andb_assoc.
Qed.

Lemma break_at_none d s : exists_char d s = false -> break_at d s = (s, EmptyString).
Proof.
  induction s as [|x s IH]; simpl; [reflexivity|]. intros E.
  apply orb_false_elim in E. destruct E as [E1 E2]. rewrite E1, (IH E2). reflexivity.
Qed.

Lemma break_at_append_found d a b :
  exists_char d a = true ->
  break_at d (a ++ b) = (fst (break_at d a), snd (break_at d a) ++ b).
Proof.
  induction a as [|x a IH]; simpl; [discriminate|].
  destruct (d x); simpl; [reflexivity|]. intros E. rewrite (IH E).
  destruct (break_at d a); reflexivity.
Qed.

Lemma break_at_append_headed d a b :
  headed d b ->
  break_at d (a ++ b) = (fst (break_at d a), snd (break_at d a) ++ b).
Proof.
  intros H. induction a as [|x a IH]; simpl.
  - destruct b as [|c b]; simpl in *; [reflexivity|]. rewrite H. reflexivity.
  - destruct (d x); simpl; [reflexivity|]. rewrite IH.
    destruct (break_at d a); reflexivity.
Qed.

Lemma break_at_append_none d a b :
  exists_char d a = false ->
  break_at d (a ++ b) = (a ++ fst (break_at d b), snd (break_at d b)).
Proof.
  induction a as [|x a IH]; simpl; [destruct (break_at d b); reflexivity|].
  intros E. apply orb_false_elim in E. destruct E as [E1 E2].
  rewrite E1, (IH E2). reflexivity.
Qed.

(** Cutting a string without [#] that is followed by a fragment. *)
Lemma split_once_fragment u f :
  exists_char (is_char "#") u = false ->
  split_once "#" (u ++ String "#" f) = (u, f)
  /\ split_once "#" u = (u, EmptyString).
Proof.
  intros N. unfold split_once. rewrite (break_at_append_none _ _ _ N).
  rewrite (break_at_none _ _ N). simpl. rewrite UrlFacts.append_nil_r. auto.
Qed.

Lemma split_scheme_fragment u f :
  exists_char (is_char "#") u = false ->
  split_scheme (u ++ String "#" f)
  = (fst (split_scheme u), snd (split_scheme u) ++ String "#" f)
  /\ exists_char (is_char "#") (snd (split_scheme u)) = false.
Proof.
  intros N. unfold split_scheme.
  destruct (exists_char (is_char ":") u) eqn:C.
  - rewrite (break_at_append_found _ _ _ C).
    destruct (UrlFacts.break_at_spec (is_char ":") u) as [E [Np _]].
    destruct (break_at (is_char ":") u) as [pre post]. simpl in *.
    assert (Npost : exists_char (is_char "#") post = false).
    { rewrite E, UrlFacts.exists_char_append in N. apply orb_false_elim in N. tauto. }
    destruct pre as [|c0 pre]; [auto|].
    destruct post as [|c1 rest].
    { rewrite E, UrlFacts.append_nil_r in C. congruence. }
    simpl. destruct (between 0 127 c0 && is_alpha c0 && _); simpl; [|auto].
    split; [reflexivity|]. simpl in Npost. apply orb_false_elim in Npost. tauto.
  - assert (S0 : (let (pre, post) := break_at (is_char ":") u in
                  match pre, post with
                  | String c0 _, String _ rest =>
                      if between 0 127 c0 && is_alpha c0 && forall_chars is_scheme_char pre
                      then (lower pre, rest) else (EmptyString, u)
                  | _, _ => (EmptyString, u)
                  end) = (EmptyString, u)).
    { rewrite (break_at_none _ _ C). destruct u; reflexivity. }
    rewrite S0. simpl fst. simpl snd. split; [|exact N].
    rewrite (break_at_append_none _ _ _ C).
    change (break_at (is_char ":") (String "#" f))
      with (let (a, b) := break_at (is_char ":") f in (String "#" a, b)).
    destruct (break_at (is_char ":") f) as [a b]. simpl fst. simpl snd.
    destruct u as [|c0 u'].
    + simpl. destruct b; reflexivity.
    + simpl append. destruct b as [|c1 rest]; [reflexivity|].
      change (forall_chars is_scheme_char (String c0 (u' ++ String "#" a)))
        with (is_scheme_char c0 && forall_chars is_scheme_char (u' ++ String "#" a)).
      rewrite forall_chars_append.
      change (forall_chars is_scheme_char (String "#" a)) with false.
      rewrite !andb_false_r. reflexivity.
Qed.

Lemma prefix_hash f : prefix "//" (String "#" f) = false.
Proof. cbn [prefix]. destruct (ascii_dec "/" "#") as [e|]; [discriminate e|reflexivity]. Qed.

Lemma prefix_single c : prefix "//" (String c EmptyString) = false.
Proof. cbn [prefix]. destruct (ascii_dec "/" c); reflexivity. Qed.

Lemma prefix_single_hash c f : prefix "//" (String c (String "#" f)) = false.
Proof.
  cbn [prefix]. destruct (ascii_dec "/" c); [|reflexivity].
  destruct (ascii_dec "/" "#") as [e'|]; [discriminate e'|reflexivity].
Qed.

Lemma prefix_two c1 c2 s t :
  prefix "//" (String c1 (String c2 (s ++ t))) = prefix "//" (String c1 (String c2 s)).
Proof.
  cbn [prefix]. destruct (ascii_dec "/" c1); [|reflexivity].
  destruct (ascii_dec "/" c2); [|reflexivity]. destruct (s ++ t); destruct s; reflexivity.
Qed.

Lemma split_netloc_fragment r f :
  exists_char (is_char "#") r = false ->
  split_netloc (r ++ String "#" f)
  = (fst (split_netloc r), snd (split_netloc r) ++ String "#" f)
  /\ exists_char (is_char "#") (snd (split_netloc r)) = false.
Proof.
  intros N. unfold split_netloc.
  destruct r as [|c1 [|c2 r']]; cbn [append].
  - rewrite prefix_hash. change (prefix "//" EmptyString) with false. cbn. auto.
  - rewrite prefix_single_hash, prefix_single. cbn [fst snd append]. auto.
  - rewrite prefix_two.
    destruct (prefix "//" (String c1 (String c2 r'))); [|cbn [fst snd append]; auto].
    cbn [drop2].
    rewrite break_at_append_headed by reflexivity.
    split; [reflexivity|].
    destruct (UrlFacts.break_at_spec is_netloc_delim r') as [E _].
    destruct (break_at is_netloc_delim r') as [a b]. cbn [fst snd] in *.
    cbn [exists_char] in N.
    apply orb_false_elim in N. destruct N as [_ N].
    apply orb_false_elim in N. destruct N as [_ N].
    rewrite E, UrlFacts.exists_char_append in N. apply orb_false_elim in N. tauto.
Qed.

(** [urlsplit] on a URL without [#] followed by a fragment: the same
    components, and the fragment. *)
Lemma urlsplit_fragment ok u f :
  exists_char (is_char "#") u = false ->
  urlsplit ok (u ++ String "#" f)
  = option_map
      (fun p => mkSplit (scheme p) (netloc p) (path p) (query p)
                  (filter_chars (fun c => negb (is_unsafe c)) f))
      (urlsplit ok u).
Proof.
  intros N. unfold urlsplit.
  rewrite lstrip_append by reflexivity. rewrite filter_chars_append.
  set (U := filter_chars (fun c => negb (is_unsafe c)) (lstrip is_c0_or_space u)).
  assert (NU : exists_char (is_char "#") U = false).
  { apply exists_char_filter, exists_char_lstrip. exact N. }
  change (filter_chars (fun c => negb (is_unsafe c)) (String "#" f))
    with (String "#" (filter_chars (fun c => negb (is_unsafe c)) f)).
  set (F := filter_chars (fun c => negb (is_unsafe c)) f).
  destruct (split_scheme_fragment U F NU) as [E1 N1]. rewrite E1.
  destruct (split_scheme U) as [s r]. simpl in *.
  destruct (split_netloc_fragment r F N1) as [E2 N2]. rewrite E2.
  destruct (split_netloc r) as [n r2]. simpl in *.
  destruct (brackets_mismatch n); [reflexivity|].
  destruct (split_once_fragment r2 F N2) as [E3 E4]. rewrite E3, E4.
  destruct (split_once "?" r2) as [p q].
  destruct (netloc_accepted ok n); reflexivity.
Qed.

Lemma key_fragment ok u f :
  exists_char (is_char "#") u = false ->
  normalize_url ok (u ++ String "#" f) = normalize_url ok u.
Proof.
  intros N. unfold normalize_url.
  assert (Z0 : String.eqb (u ++ String "#" f) EmptyString = false)
    by (destruct u; reflexivity).
  rewrite Z0, (urlsplit_fragment ok u f N).
  destruct (split_once_fragment u f N) as [E3 E4]. rewrite E3, E4.
  destruct (String.eqb u EmptyString) eqn:Z1.
  - apply String.eqb_eq in Z1. subst u. vm_compute. reflexivity.
  - destruct (urlsplit ok u) as [p|]; reflexivity.
Qed.

End FragmentFacts.

(** X23.  The key of a position does not depend on the fragment: the
    normalized form of a URL is the normalized form of the URL cut in front
    of its first [#].  Two URLs that differ only behind the first [#] are
    therefore the same position for the duplicate guard. *)
Theorem normalize_url_ignores_fragment :
  forall ok url,
    Url.normalize_url ok url = Url.normalize_url ok (fst (Url.split_once "#" url)).
Proof.
  intros ok url. unfold Url.split_once.
  destruct (UrlFacts.break_at_spec (Url.is_char "#") url) as [E [N H]].
  destruct (Url.break_at (Url.is_char "#") url) as [u b]. simpl in *.
  destruct b as [|c f].
  - rewrite E, UrlFacts.append_nil_r. reflexivity.
  - simpl in H. unfold Url.is_char in H. apply Ascii.eqb_eq in H. subst c.
    rewrite E. apply FragmentFacts.key_fragment. exact N.
Qed.

(** ** What the record says, and what a stop does *)

(** X24.  The status of a recorded chapter says what was found on the page,
    not what was downloaded.  Every chapter a run adds to the progress
    record is either the blocked position, with no images, or carries the
    classification of the number of image URLs found at its URL, whatever
    became of the downloads; the number of images it counts as downloaded
    lies between zero and the number found. *)
Theorem recorded_status_reflects_images_found :
  forall env now fuel job w res w' d,
    Crawl.run_download_bot env now fuel job w = Some (res, w') ->
    Crawl.progress_file w' (Crawl.nome job) = Some d ->
    exists new,
      Crawl.capitulos_baixados d
      = (Crawl.capitulos_baixados (Crawl.load_progress (Crawl.nome job) w) ++ new)%list
      /\ forall c,
           In c new ->
           (Crawl.chapter_status c = "blocked"%string /\ Crawl.imagens c = 0)
           \/ (Crawl.chapter_status c
               = classify (Crawl.MIN_IMAGES_PER_CHAPTER env) (Crawl.MIN_IMAGES_PARTIAL env)
                   (Z.of_nat (List.length
                      (Crawl.imgs (Crawl.site env (Crawl.chapter_url c)))))
               /\ 0 <= Crawl.imagens c
                  <= Z.of_nat (List.length
                       (Crawl.imgs (Crawl.site env (Crawl.chapter_url c))))).
Proof.
  intros env now fuel job w res w' d H Hd.
  destruct (CrawlFacts.run_download_bot_ok env now fuel job w res w' H) as [_ [W1 _]].
  destruct (W1 d Hd) as [new [E [_ [_ Hok]]]].
  exists new. split; [exact E|]. exact Hok.
Qed.

(** X24 at work: every download fails, and the chapter with its three
    images found is recorded as [ok] with no image downloaded. *)
Lemma recorded_status_reflects_images_found_witness :
  let env := Crawl.mkEnvironment Scenario.pages (fun _ => true) (fun _ _ => false)
               (fun _ => true) 3 1 0 "downloads" (fun p => p) (fun _ _ _ jid => jid)
               (fun _ _ => "{}"%string) (fun _ => "{}"%string) in
  let job := Crawl.mkJob "J1" (Some "J1"%string) "https://s/c1" "obra" 0 1 false None in
  exists res w' d,
    Crawl.run_download_bot env 100 20 job Scenario.empty_world = Some (res, w')
    /\ Crawl.progress_file w' "obra"%string = Some d
    /\ Crawl.capitulos_baixados d = [Crawl.mkChapter 1 "https://s/c1" 0 "ok"]
    /\ Crawl.r_imagens_falhas res = 3.
Proof.
  intros env job.
  destruct (Crawl.run_download_bot env 100 20 job Scenario.empty_world)
    as [[res w']|] eqn:R; [|vm_compute in R; discriminate].
  destruct (Crawl.progress_file w' "obra"%string) as [d|] eqn:P.
  - destruct (recorded_status_reflects_images_found _ _ _ _ _ _ _ d R P) as [new [E _]].
    exists res, w', d. split; [reflexivity|]. split; [exact P|].
    vm_compute in R. injection R as <- <-. vm_compute in P. injection P as <-.
    split; reflexivity.
  - exfalso. vm_compute in R. injection R as _ <-. vm_compute in P. discriminate.
Defined.

Module StopFacts.
Import Crawl.

Section WithEnv.

Variable env : Env.
Variable now : Z.
Variable job : Job.

(** The stop reasons the loop body can give. *)
Lemma iteration_reason r w reason stop r' w' :
  iteration env now job r w = Break reason stop r' w' ->
  reason = None
  \/ reason = Some "expected_total_reached"%string
  \/ reason = Some "url_repetida"%string
  \/ reason = Some "blocked"%string
  \/ reason = Some "next_nao_avancou"%string.
Proof.
  unfold iteration. cbv zeta.
  destruct ((0 <? expected_total job) && (expected_total job <? capitulo r)).
  { intros H. injection H as <- _. auto. }
  destruct (mem (norm env (page_url r)) (visited_urls r)).
  { intros H. injection H as <- _. auto. }
  destruct (String.eqb _ "broken" && blocked (site env (page_url r))).
  { intros H. injection H as <- _. auto. }
  destruct (image_loop env (page_url r) (imgs (site env (page_url r))) 1 (calls r) 0 0)
    as [[[ok failed] n] stopped].
  destruct (negb (keep_going env n)).
  { intros H. injection H as <- _. auto. }
  destruct (next_url (site env (page_url r))) as [new_url|].
  2:{ intros H. injection H as <- _. auto. }
  destruct (String.eqb _ _ || mem _ _).
  { intros H. injection H as <- _. auto 6. }
  match goal with
  | |- context [if ?c then (true, ?a) else (?f, ?b)] =>
      destruct (if c then (true, a) else (f, b)) as [flag w2]
  end.
  destruct ((0 <? batch_of env job) && _); discriminate.
Qed.

Lemma chapters_reason fuel : forall r w reason stop r' w',
  chapters env now fuel job r w = Some (Break reason stop r' w') ->
  reason = None
  \/ reason = Some "expected_total_reached"%string
  \/ reason = Some "url_repetida"%string
  \/ reason = Some "blocked"%string
  \/ reason = Some "next_nao_avancou"%string.
Proof.
  induction fuel as [|k IH]; intros r w reason stop r' w' H; simpl in H; [discriminate|].
  destruct (keep_going env (calls r)); [|injection H as <- _; auto].
  match type of H with
  | match iteration env now job ?r1 w with _ => _ end = _ =>
      destruct (iteration env now job r1 w) as [r2 w2|reason2 st r2 w2|res w2] eqn:It
  end.
  - apply (IH _ _ _ _ _ _ H).
  - injection H as <- _ _ _. apply (iteration_reason _ _ _ _ _ _ It).
  - discriminate.
Qed.

End WithEnv.

End StopFacts.

(** X25.  A stop request leaves no trace in the result.  Leaving the
    chapter loop because [_should_continue()] is false gives no stop
    reason: the only reasons a result can carry are
    [expected_total_reached], [url_repetida], [blocked], [next_nao_avancou]
    and [batch_requeued].  A result without a stop reason is treated as a
    finished work, so the work is handed over to the upload queue: a run
    that is stopped before its first chapter records nothing and still ends
    with the call of [adicionar_fila_upload]. *)
Theorem stop_request_hands_work_over :
  (forall env now fuel job w,
      Crawl.keep_going env 0 = false ->
      exists res,
        Crawl.run_download_bot env now (S fuel) job w
        = Some (res, Crawl.adicionar_fila_upload env now (Crawl.nome job) job w)
        /\ Crawl.r_stopped_reason res = None
        /\ Crawl.r_capitulos res
           = Z.of_nat (List.length
               (Crawl.capitulos_baixados (Crawl.load_progress (Crawl.nome job) w))))
  /\ (forall env now fuel job w res w',
         Crawl.run_download_bot env now fuel job w = Some (res, w') ->
         (Crawl.r_stopped_reason res = None ->
          exists w1, w' = Crawl.adicionar_fila_upload env now (Crawl.nome job) job w1)
         /\ (Crawl.r_stopped_reason res = None
             \/ Crawl.r_stopped_reason res = Some "expected_total_reached"%string
             \/ Crawl.r_stopped_reason res = Some "url_repetida"%string
             \/ Crawl.r_stopped_reason res = Some "blocked"%string
             \/ Crawl.r_stopped_reason res = Some "next_nao_avancou"%string
             \/ Crawl.r_stopped_reason res = Some "batch_requeued"%string)).
Proof.
  split.
  - intros env now fuel job w Hk. unfold Crawl.run_download_bot. cbv zeta.
    cbn [Crawl.chapters Crawl.calls]. rewrite Hk. eexists. split; [reflexivity|].
    cbn. auto.
  - intros env now fuel job w res w'. unfold Crawl.run_download_bot. cbv zeta.
    match goal with
    | |- match Crawl.chapters env now fuel job ?r0 w with _ => _ end = _ -> _ =>
        destruct (Crawl.chapters env now fuel job r0 w) as [f|] eqn:Ch; [|discriminate]
    end.
    destruct f as [r1 w1|reason stop r1 w1|res1 w1]; [discriminate| |].
    + pose proof (StopFacts.chapters_reason _ _ _ _ _ _ _ _ _ _ Ch) as Hr.
      destruct reason as [s|]; intros H; injection H as <- <-; cbn.
      * split; [discriminate|]. tauto.
      * split; [intros _; eexists; reflexivity|]. auto.
    + intros H. injection H as <- <-.
      rewrite (ResumeFacts.chapters_return _ _ _ _ _ _ _ _ Ch).
      split; [discriminate|]. auto 10.
Qed.

(** X25 at work: the stop flag is raised while the first image of the
    first chapter is fetched; the run ends without a stop reason and the
    work, one chapter with one image, is in the upload queue. *)
Lemma stop_request_hands_work_over_witness :
  let env := Crawl.mkEnvironment Scenario.pages (fun n => Nat.leb n 1) (fun _ _ => true)
               (fun _ => true) 3 1 0 "downloads" (fun p => p) (fun _ _ _ jid => jid)
               (fun _ _ => "{}"%string) (fun _ => "{}"%string) in
  exists res w',
    Crawl.run_download_bot env 100 20 Scenario.job_a Scenario.empty_world = Some (res, w')
    /\ Crawl.r_stopped_reason res = None
    /\ Crawl.r_capitulos res = 1
    /\ Crawl.r_imagens res = 1
    /\ map QueueStore.id (Crawl.upload_queue w') = ["J1"%string].
Proof.
  intros env.
  destruct (Crawl.run_download_bot env 100 20 Scenario.job_a Scenario.empty_world)
    as [[res w']|] eqn:R; [|vm_compute in R; discriminate].
  assert (N : Crawl.r_stopped_reason res = None).
  { vm_compute in R. injection R as <- _. reflexivity. }
  destruct (proj1 (proj2 stop_request_hands_work_over _ _ _ _ _ _ _ R) N) as [w1 E].
  exists res, w'. split; [reflexivity|]. split; [exact N|].
  vm_compute in R. injection R as <- <-. repeat split.
Defined.

(** ** Submitting downloads *)

Module ApiFacts.
Import DownloadStore DownloadApi.

(** What [enqueue] does to a queue that has, or has not, the job id. *)
Lemma enqueue_known now u n p e b jid uuid t r :
  jid <> EmptyString ->
  get_job_by_job_id jid t = Some r ->
  snd (enqueue now u n p e b (Some jid) uuid t) = t.
Proof.
  intros Hne L. unfold enqueue, jid_or. apply String.eqb_neq in Hne. rewrite Hne.
  simpl. rewrite L. reflexivity.
Qed.

Lemma enqueue_new now u n p e b jid uuid t :
  jid <> EmptyString ->
  get_job_by_job_id jid t = None ->
  snd (enqueue now u n p e b (Some jid) uuid t)
  = (t ++ [mkJob (next_rowid t) jid u n p e b "queued" 0 now EmptyString EmptyString
             EmptyString EmptyString 0 0 0 0 0 "idle" now now])%list.
Proof.
  intros Hne L. unfold enqueue, jid_or. apply String.eqb_neq in Hne. rewrite Hne.
  simpl. rewrite L. reflexivity.
Qed.

Lemma get_snoc jid t r :
  job_id r = jid -> get_job_by_job_id jid (t ++ [r]) <> None.
Proof.
  intros E. unfold get_job_by_job_id, select_one.
  destruct (find (has_job_id jid) t) as [x|] eqn:F.
  - rewrite (find_app_some _ _ _ _ F). discriminate.
  - rewrite (find_app_none _ _ _ F). simpl. unfold has_job_id. rewrite E, String.eqb_refl.
    discriminate.
Qed.

(** The decimal rendering of an integer determines it. *)
Lemma parse_back d :
  exists d', NilZero.int_of_string (NilZero.string_of_int d) = Some d'
             /\ Z.of_int d' = Z.of_int d.
Proof.
  destruct d as [u|u]; destruct u;
    try (eexists; split; [apply NilZero.isi; discriminate|reflexivity]).
  - exists (Decimal.Pos (Decimal.D0 Decimal.Nil)). split; [apply NilZero.isi_posnil|].
    reflexivity.
  - exists (Decimal.Neg (Decimal.D0 Decimal.Nil)). split; [apply NilZero.isi_negnil|].
    reflexivity.
Qed.

Lemma str_of_Z_inj a b : str_of_Z a = str_of_Z b -> a = b.
Proof.
  unfold str_of_Z. intros E.
  destruct (parse_back (Z.to_int a)) as [da [Pa Ea]].
  destruct (parse_back (Z.to_int b)) as [db [Pb Eb]].
  rewrite E, Pb in Pa. injection Pa as <-.
  rewrite DecimalZ.of_to in Ea, Eb. congruence.
Qed.

Lemma append_inj_length (a1 b1 a2 b2 : string) :
  String.length a1 = String.length a2 ->
  (a1 ++ b1 = a2 ++ b2)%string -> a1 = a2 /\ b1 = b2.
Proof.
  revert a2. induction a1 as [|x a1 IH]; intros [|y a2] Hl E; simpl in *;
    try discriminate; [auto|].
  injection E as -> E. injection Hl as Hl. destruct (IH a2 Hl E) as [-> ->]. auto.
Qed.

Lemma append_nonempty (a b : string) : b <> EmptyString -> (a ++ b)%string <> EmptyString.
Proof. destruct a; simpl; [auto|discriminate]. Qed.

Lemma str_of_Z_nonempty z : str_of_Z z <> EmptyString.
Proof.
  intros E. assert (H : str_of_Z z = str_of_Z z) by reflexivity.
  unfold str_of_Z in E. destruct (parse_back (Z.to_int z)) as [d [P _]].
  rewrite E in P. vm_compute in P. discriminate.
Qed.

Section WithClock.

Variable stamp : Z -> string.
Variable stamp_name : Z -> string.
Variable sanitize : string -> string.
Variable resolve : string -> string.
Variable DOWNLOADS_DIR : string.
Variable BATCH_SIZE_DEFAULT : Z.

Hypothesis stamp_length : forall a b, String.length (stamp a) = String.length (stamp b).

Lemma import_loop_adds clock uuids obras : forall i added t,
  unused_from stamp clock added t ->
  let res := import_loop stamp sanitize resolve DOWNLOADS_DIR BATCH_SIZE_DEFAULT
               clock uuids i obras added t in
  fst res = added + Z.of_nat (List.length (filter importable obras))
  /\ exists rows,
       snd res = (t ++ rows)%list
       /\ map url rows = map primeiro_capitulo_url (filter importable obras)
       /\ map expected_total rows = map total_capitulos (filter importable obras)
       /\ Forall (fun r => status r = "queued"%string) rows.
Proof.
  induction obras as [|o obras IH]; intros i added t Hu; cbn [import_loop filter].
  - cbv zeta. simpl. split; [lia|]. exists []. rewrite app_nil_r. auto.
  - destruct (importable o); cbn [negb].
    + set (jid := (stamp (clock i) ++ str_of_Z added)%string).
      assert (Hne : jid <> EmptyString) by (apply append_nonempty, str_of_Z_nonempty).
      assert (L : get_job_by_job_id jid t = None).
      { destruct (get_job_by_job_id jid t) as [r|] eqn:G; [|reflexivity].
        apply DownloadFacts.get_In in G. destruct G as [Hin Hj].
        exfalso. apply (Hu r i added Hin ltac:(lia)). exact Hj. }
      cbv zeta. fold jid. rewrite (enqueue_new _ _ _ _ _ _ _ _ _ Hne L).
      match goal with
      | |- context [(t ++ [?row])%list] => set (r0 := row)
      end.
      assert (Hu' : unused_from stamp clock (added + 1) (t ++ [r0])).
      { intros r j a Hin Ha. apply in_app_or in Hin. destruct Hin as [Hin|[<-|[]]].
        - apply (Hu r j a Hin). lia.
        - unfold r0, jid. cbn [job_id]. intros E.
          apply append_inj_length in E; [|apply stamp_length].
          destruct E as [_ E]. apply str_of_Z_inj in E. lia. }
      specialize (IH (S i) (added + 1) (t ++ [r0])%list Hu'). cbv zeta in IH.
      destruct IH as [A [rows [E [U [X S]]]]].
      split; [rewrite A; cbn [List.length]; lia|].
      exists (r0 :: rows). split; [rewrite E, <- app_assoc; reflexivity|].
      cbn [map]. rewrite U, X. split; [reflexivity|]. split; [reflexivity|].
      constructor; [reflexivity|exact S].
    + apply IH. exact Hu.
Qed.

End WithClock.

End ApiFacts.

(** X26.  Two downloads submitted within the same second collide: the job
    id of [start_download] is the clock reading to the second, and the
    store ignores an insert under a known id.  Whatever URL and name the
    second request carries, the route answers [success] with the same job
    id as the first and the queue stays as the first request left it, so
    the second work is never downloaded.  A request whose id is not in the
    queue adds one queued row with its URL. *)
Theorem same_second_submission_is_lost :
  forall stamp stamp_name sanitize resolve dir batch_default
         now u1 n1 e1 b1 uu1 u2 n2 e2 b2 uu2 t,
    u1 <> EmptyString -> u2 <> EmptyString -> stamp now <> EmptyString ->
    let start := DownloadApi.start_download stamp stamp_name sanitize resolve dir
                   batch_default in
    let r1 := start now u1 n1 e1 b1 uu1 t in
    let r2 := start now u2 n2 e2 b2 uu2 (snd r1) in
    fst r1 = Some (stamp now)
    /\ fst r2 = Some (stamp now)
    /\ snd r2 = snd r1
    /\ (DownloadStore.get_job_by_job_id (stamp now) t = None ->
        exists r, snd r1 = (t ++ [r])%list
                  /\ DownloadStore.job_id r = stamp now
                  /\ DownloadStore.url r = u1
                  /\ DownloadStore.status r = "queued"%string).
Proof.
  intros stamp stamp_name sanitize resolve dir batch_default
         now u1 n1 e1 b1 uu1 u2 n2 e2 b2 uu2 t H1 H2 Hs start r1 r2.
  unfold r2, r1, start, DownloadApi.start_download.
  apply String.eqb_neq in H1, H2. rewrite H1, H2. cbv zeta. cbn [fst snd].
  split; [reflexivity|]. split; [reflexivity|]. split.
  - destruct (DownloadStore.get_job_by_job_id (stamp now) t) as [r|] eqn:G.
    + rewrite (ApiFacts.enqueue_known now u1 _ _ _ _ _ uu1 t r Hs G).
      apply (ApiFacts.enqueue_known _ _ _ _ _ _ _ _ _ r Hs G).
    + rewrite (ApiFacts.enqueue_new now u1 _ _ _ _ _ uu1 t Hs G).
      match goal with
      | |- snd (DownloadStore.enqueue _ _ _ _ _ _ _ _ (t ++ [?row])) = _ =>
          destruct (DownloadStore.get_job_by_job_id (stamp now) (t ++ [row])) as [x|] eqn:G2;
          [apply (ApiFacts.enqueue_known _ _ _ _ _ _ _ _ _ x Hs G2)
          |exfalso; apply (ApiFacts.get_snoc (stamp now) t row eq_refl G2)]
      end.
  - intros G. rewrite (ApiFacts.enqueue_new now u1 _ _ _ _ _ uu1 t Hs G).
    eexists. split; [reflexivity|]. cbn. auto.
Qed.

(** X26 at work: two different works are submitted at the clock reading
    1700000000; the queue holds the first one only. *)
Lemma same_second_submission_is_lost_witness :
  let start := DownloadApi.start_download str_of_Z str_of_Z (fun s => s) (fun s => s)
                 "downloads" 0 in
  let r1 := start 1700000000 "https://s/a/1"%string "obra a"%string 10 0 "u1"%string [] in
  let r2 := start 1700000000 "https://s/b/1"%string "obra b"%string 20 0 "u2"%string
              (snd r1) in
  fst r2 = Some "1700000000"%string
  /\ map DownloadStore.url (snd r2) = ["https://s/a/1"%string].
Proof.
  intros start r1 r2.
  assert (H1 : "https://s/a/1"%string <> EmptyString) by discriminate.
  assert (H2 : "https://s/b/1"%string <> EmptyString) by discriminate.
  assert (H3 : str_of_Z 1700000000 <> EmptyString) by (vm_compute; discriminate).
  destruct (same_second_submission_is_lost str_of_Z str_of_Z (fun s => s) (fun s => s)
              "downloads"%string 0 1700000000 "https://s/a/1"%string "obra a"%string 10 0
              "u1"%string "https://s/b/1"%string "obra b"%string 20 0 "u2"%string []
              H1 H2 H3)
    as [_ [A [B _]]].
  split; [exact A|].
  change (snd r2) with
    (snd (DownloadApi.start_download str_of_Z str_of_Z (fun s => s) (fun s => s)
            "downloads" 0 1700000000 "https://s/b/1" "obra b" 20 0 "u2"
            (snd (DownloadApi.start_download str_of_Z str_of_Z (fun s => s) (fun s => s)
                    "downloads" 0 1700000000 "https://s/a/1" "obra a" 10 0 "u1" [])))).
  rewrite B. reflexivity.
Defined.

(** X27.  An import of the catalogue loses no entry.  The job ids it hands
    out, the clock reading followed by the running count, are pairwise
    distinct whatever the clock does during the import, provided the clock
    stamps have one length.  So on a queue that holds none of these ids,
    every entry with a title and a first-chapter URL gets a queued row of
    its own, in the order of the catalogue, with its URL and its expected
    total, and the number reported as [imported] is the number of rows
    added. *)
Theorem import_catalogo_adds_every_entry :
  forall stamp sanitize resolve dir batch_default clock uuids obras t,
    (forall a b, String.length (stamp a) = String.length (stamp b)) ->
    (forall r i a, In r t -> 0 <= a ->
                   DownloadStore.job_id r <> (stamp (clock i) ++ str_of_Z a)%string) ->
    let res := DownloadApi.import_catalogo stamp sanitize resolve dir batch_default
                 clock uuids obras t in
    fst res = Z.of_nat (List.length (filter DownloadApi.importable obras))
    /\ DownloadCounts.count_all (snd res) = DownloadCounts.count_all t + fst res
    /\ exists rows,
         snd res = (t ++ rows)%list
         /\ map DownloadStore.url rows
            = map DownloadApi.primeiro_capitulo_url (filter DownloadApi.importable obras)
         /\ map DownloadStore.expected_total rows
            = map DownloadApi.total_capitulos (filter DownloadApi.importable obras)
         /\ Forall (fun r => DownloadStore.status r = "queued"%string) rows.
Proof.
  intros stamp sanitize resolve dir batch_default clock uuids obras t Hl Hu res.
  destruct (ApiFacts.import_loop_adds stamp sanitize resolve dir batch_default Hl
              clock uuids obras 0%nat 0 t Hu) as [A [rows [E [U [X S]]]]].
  fold (DownloadApi.import_catalogo stamp sanitize resolve dir batch_default
          clock uuids obras t) in A, E. fold res in A, E.
  split; [rewrite A; lia|]. split.
  - assert (L : List.length rows
                = List.length (filter DownloadApi.importable obras)).
    { rewrite <- (length_map DownloadStore.url rows), U, length_map. reflexivity. }
    unfold DownloadCounts.count_all. rewrite E, length_app, Nat2Z.inj_add, A, L. lia.
  - exists rows. auto.
Qed.

(** X27 at work: a catalogue of three entries, one of them without a URL,
    imported within one second into an empty queue, gives two rows. *)
Lemma import_catalogo_adds_every_entry_witness :
  let res := DownloadApi.import_catalogo (fun _ => "20240101120000"%string) (fun s => s)
               (fun s => s) "downloads" 0 (fun _ => 1700000000) (fun _ => "u"%string)
               [DownloadApi.mkObra "obra a" "https://s/a/1" 10;
                DownloadApi.mkObra "obra b" EmptyString 5;
                DownloadApi.mkObra "obra c" "https://s/c/1" 7] [] in
  fst res = 2 /\ DownloadCounts.count_all (snd res) = 2.
Proof.
  intros res.
  destruct (import_catalogo_adds_every_entry (fun _ => "20240101120000"%string) (fun s => s)
              (fun s => s) "downloads"%string 0 (fun _ => 1700000000) (fun _ => "u"%string)
              [DownloadApi.mkObra "obra a" "https://s/a/1" 10;
               DownloadApi.mkObra "obra b" EmptyString 5;
               DownloadApi.mkObra "obra c" "https://s/c/1" 7] [])
    as [A [B _]].
  - reflexivity.
  - intros r i a [].
  - fold res in A, B. split; [exact A|]. rewrite B, A. reflexivity.
Defined.
